(** * PollManager: vote percentages, answer and close coordination

    A shallow embedding of [td/telegram/PollManager.cpp].  Machine integers
    are values of [Z] with the conversions of the C++ code written out,
    vectors are lists, the hash maps keyed by poll identifier are finite
    maps, and a failed [CHECK] (which aborts the process) is the [None]
    outcome of a computation. *)

From Stdlib Require Import ZArith List Bool Lia Permutation Sorted QArith Floats.
From stdpp Require Import gmap strings list fin_maps pretty.

Local Open Scope Z_scope.

(** ** Machine integers *)

Definition INT32_MIN : Z := -2147483648.
Definition INT32_MAX : Z := 2147483647.
Definition UINT64_MOD : Z := 18446744073709551616.

(** [static_cast<int32>] of a wider integer, and [int32] arithmetic. *)
Definition to_int32 (z : Z) : Z := (z + 2147483648) mod 4294967296 - 2147483648.
Definition add32 (a b : Z) : Z := to_int32 (a + b).
Definition sub32 (a b : Z) : Z := to_int32 (a - b).

(** [uint64] arithmetic and [static_cast<size_t>] of an [int32]. *)
Definition to_uint64 (z : Z) : Z := z mod UINT64_MOD.
Definition incr64 (a : Z) : Z := to_uint64 (a + 1).

Definition in_int32 (z : Z) : Prop := INT32_MIN <= z <= INT32_MAX.

(** ** The percentage calculator *)

(** [struct Option { int32 pos = -1; int32 count = 0; }] *)
Record Option : Type := mkOption { pos : Z; count : Z }.

(** The two places where [get_vote_percentage] relies on the C++ standard
    library for an order the source does not fix: the order in which a
    range-for enumerates a [std::unordered_map] (given here as a function
    of the map's entries in order of first insertion), and the arrangement
    [std::sort] gives to elements that compare equal. *)
Class StdLibrary : Type := {
  unordered_map_order : list (Z * Option) -> list (Z * Option);
  std_sort : (Option -> Option -> bool) -> list Option -> list Option
}.

(** Lines 317-322: the sum of the counts, with both [CHECK]s. *)
Fixpoint sum_voter_counts (voter_counts : list Z) (sum : Z) : option Z :=
  match voter_counts with
  | [] => Some sum
  | voter_count :: rest =>
      if (0 <=? voter_count) && (voter_count <=? INT32_MAX - sum)
      then sum_voter_counts rest (sum + voter_count)
      else None
  end.

(** Line 339: rounding to the nearest, in [int64], cast back to [int32]. *)
Definition round_to_nearest (total_voter_count voter_count : Z) : Z :=
  to_int32 (((voter_count * 200 + total_voter_count) ÷ total_voter_count) ÷ 2).

(** Lines 345-354: the floor percentages and the gaps, with the [CHECK]s;
    returns [(result, gap, percent_sum)]. *)
Fixpoint floor_percentages (voter_counts : list Z) (total_voter_count percent_sum : Z)
  : option (list Z * list Z * Z) :=
  match voter_counts with
  | [] => Some ([], [], percent_sum)
  | voter_count :: rest =>
      let multiplied_voter_count := voter_count * 100 in
      let r := to_int32 (multiplied_voter_count ÷ total_voter_count) in
      if (0 <=? r) && (r <=? 100) then
        let g := to_int32 ((r + 1) * total_voter_count - multiplied_voter_count) in
        if (0 <=? g) && (g <=? total_voter_count) then
          match floor_percentages rest total_voter_count (add32 percent_sum r) with
          | Some (result, gap, percent_sum') => Some (r :: result, g :: gap, percent_sum')
          | None => None
          end
        else None
      else None
  end.

(** [options[key]] followed by [option.pos = i; option.count++]: the entry
    is created with the default [Option] when the key is new.  The map is
    kept as the list of its entries in order of first insertion. *)
Fixpoint options_update (key i : Z) (options : list (Z * Option)) : list (Z * Option) :=
  match options with
  | [] => [(key, mkOption i (add32 0 1))]
  | (k, option) :: rest =>
      if k =? key then (k, mkOption i (add32 (count option) 1)) :: rest
      else (k, option) :: options_update key i rest
  end.

(** Lines 366-371; [narrow_cast<int32>(i)] aborts when [i] does not fit. *)
Fixpoint build_options (voter_counts : list Z) (i : Z) (options : list (Z * Option))
  : option (list (Z * Option)) :=
  match voter_counts with
  | [] => Some options
  | voter_count :: rest =>
      if i <=? INT32_MAX then build_options rest (i + 1) (options_update voter_count i options)
      else None
  end.

(** [v[pos]] for a vector of [int32]. *)
Definition at_pos (v : list Z) (pos : Z) : Z := nth (Z.to_nat pos) v 0.

(** Lines 375-383: [true] when the option is pushed to [sorted_options]. *)
Definition is_kept (gap result : list Z) (total_voter_count : Z) (option : Option) : bool :=
  if at_pos gap (pos option) >? total_voter_count ÷ 2 then false
  else if (Z.rem total_voter_count 2 =? 0)
          && (at_pos gap (pos option) =? total_voter_count ÷ 2)
          && (at_pos result (pos option) >=? 50) then false
  else true.

(** Lines 385-391: the comparator given to [std::sort]. *)
Definition option_less (gap : list Z) (lhs rhs : Option) : bool :=
  if negb (at_pos gap (pos lhs) =? at_pos gap (pos rhs))
  then at_pos gap (pos lhs) <? at_pos gap (pos rhs)
  else count lhs >? count rhs.

(** Lines 400-404: one more percent for every option whose count is [key]. *)
Fixpoint add_percent (voter_counts : list Z) (key : Z) (result : list Z) : list Z :=
  match voter_counts, result with
  | voter_count :: counts, r :: rest =>
      (if voter_count =? key then add32 r 1 else r) :: add_percent counts key rest
  | _, _ => result
  end.

(** Lines 394-409: the greedy loop. *)
Fixpoint distribute (voter_counts : list Z) (sorted_options : list Option)
    (left_percent : Z) (result : list Z) : list Z :=
  match sorted_options with
  | [] => result
  | option :: rest =>
      if count option <=? left_percent then
        let left_percent' := sub32 left_percent (count option) in
        let result' := add_percent voter_counts (at_pos voter_counts (pos option)) result in
        if left_percent' =? 0 then result'
        else distribute voter_counts rest left_percent' result'
      else distribute voter_counts rest left_percent result
  end.

Section VotePercentage.
Context {lib : StdLibrary}.

(** Lines 372-391. *)
Definition get_sorted_options (gap result : list Z) (total_voter_count : Z)
    (options : list (Z * Option)) : list Option :=
  std_sort (option_less gap)
    (List.filter (is_kept gap result total_voter_count)
       (List.map snd (unordered_map_order options))).

Definition get_vote_percentage (voter_counts : list Z) (total_voter_count : Z)
  : option (list Z) :=
  match sum_voter_counts voter_counts 0 with
  | None => None
  | Some sum =>
      let total_voter_count := if total_voter_count >? sum then sum else total_voter_count in
      if total_voter_count =? 0 then Some (repeat 0 (length voter_counts))
      else if negb (total_voter_count =? sum)
      then Some (List.map (round_to_nearest total_voter_count) voter_counts)
      else
        match floor_percentages voter_counts total_voter_count 0 with
        | None => None
        | Some (result, gap, percent_sum) =>
            if (0 <=? percent_sum) && (percent_sum <=? 100) then
              if percent_sum =? 100 then Some result
              else
                match build_options voter_counts 0 [] with
                | None => None
                | Some options =>
                    Some (distribute voter_counts
                            (get_sorted_options gap result total_voter_count options)
                            (sub32 100 percent_sum) result)
                end
            else None
        end
  end.

End VotePercentage.

(** Two standard libraries.  Both sort by straight insertion; the first
    enumerates a hash map in the order its keys were inserted, the second
    in the opposite order. *)
Fixpoint sort_insert (lt : Option -> Option -> bool) (x : Option) (l : list Option)
  : list Option :=
  match l with
  | [] => [x]
  | y :: l' => if lt x y then x :: y :: l' else y :: sort_insert lt x l'
  end.

Definition insertion_sort (lt : Option -> Option -> bool) (l : list Option) : list Option :=
  fold_right (sort_insert lt) [] l.

Definition insertion_order_library : StdLibrary := {|
  unordered_map_order := fun m => m;
  std_sort := insertion_sort
|}.

Definition reverse_order_library : StdLibrary := {|
  unordered_map_order := @rev (Z * Option);
  std_sort := insertion_sort
|}.

(** ** The poll manager: data *)

(** [struct PollOption] and [struct Poll]; a fresh object has no votes and
    is neither chosen nor closed. *)
Record PollOption : Type := mkPollOption {
  text : string;
  data : string;
  voter_count : Z;
  is_chosen : bool
}.

Record Poll : Type := mkPoll {
  question : string;
  options : list PollOption;
  total_voter_count : Z;
  is_closed : bool
}.

Definition new_Poll : Poll := mkPoll "" [] 0 false.

(** [FullMessageId]: a dialog identifier and a message identifier. *)
Definition FullMessageId : Type := (Z * Z)%type.

Record Status : Type := mkStatus { code : Z; message : string }.

(** A [Promise<Unit>]: one handed in by a caller, the promise [Auto()]
    nobody waits on, or the wrapper of [get_erase_logevent_promise]. *)
Inductive Promise : Type :=
| CallerPromise (id : nat)
| AutoPromise
| EraseLogeventPromise (logevent_id : Z) (promise : Promise).

(** [struct PendingAnswer]; [query_ref_] is [None] for an empty
    [NetQueryRef]. *)
Record PendingAnswer : Type := mkPendingAnswer {
  options_ : list string;
  promises_ : list Promise;
  generation_ : Z;
  logevent_id_ : Z;
  query_ref_ : option Z
}.

Definition new_PendingAnswer : PendingAnswer := mkPendingAnswer [] [] 0 0 None.

(** The payloads of [SetPollAnswerLogEvent] and [StopPollLogEvent]. *)
Inductive LogEvent : Type :=
| SetPollAnswerLogEvent (poll_id : Z) (full_message_id : FullMessageId) (options : list string)
| StopPollLogEvent (poll_id : Z) (full_message_id : FullMessageId).

(** The objects received from the server, with the fields the manager
    reads. *)
Record pollAnswer : Type := mkPollAnswer { answer_text_ : string; answer_option_ : string }.

Record poll : Type := mkServerPoll {
  id_ : Z;
  poll_flags_ : Z;
  question_ : string;
  answers_ : list pollAnswer
}.

Record pollAnswerVoters : Type := mkPollAnswerVoters {
  voters_flags_ : Z;
  voters_option_ : string;
  voters_ : Z
}.

Record pollResults : Type := mkPollResults {
  results_flags_ : Z;
  results_ : list pollAnswerVoters;
  total_voters_ : Z
}.

(** Modelled from the spec: the bit masks of the generated [telegram_api]
    header, which is not among the sources.  The spec names the flags they
    select (closed poll, minimal results, total voters reported, option
    chosen by the user); each is one bit of the object's [flags_]. *)
Definition poll_CLOSED_MASK : Z := 1.
Definition pollResults_MIN_MASK : Z := 1.
Definition pollResults_TOTAL_VOTERS_MASK : Z := 4.
Definition pollAnswerVoters_CHOSEN_MASK : Z := 1.

(** Modelled from the spec: [PollId::is_valid] ([PollId.h] is not among the
    sources).  A poll is identified by a signed integer and [PollId()]
    stands for "no poll"; a valid identifier is a non-zero one. *)
Definition PollId_is_valid (poll_id : Z) : bool := negb (poll_id =? 0).

(** What the manager reads from [G()] and [td_]. *)
Record Environment : Type := mkEnvironment {
  close_flag : bool;
  use_message_db : bool;
  is_bot : bool;
  is_online : bool
}.

(** The manager's fields, followed by the two stores it writes through:
    the binlog and the key-value database. *)
Record State : Type := mkState {
  polls_ : gmap Z Poll;
  pending_answers_ : gmap Z PendingAnswer;
  poll_messages_ : gmap Z (list FullMessageId);
  loaded_from_database_polls_ : gset Z;
  current_local_poll_id_ : Z;
  current_generation_ : Z;
  binlog_ : gmap Z LogEvent;
  binlog_last_id_ : Z;
  database_ : gmap string Poll
}.

(** Calls that leave the manager: promises, notifications, network actors,
    the timeout scheduler, the updates manager. *)
Inductive Event : Type :=
| PromiseSetValue (promise : Promise)
| PromiseSetError (promise : Promise) (status : Status)
| OnUpdateMessageContent (full_message_id : FullMessageId)
| CancelQuery (query : Z)
| SetPollAnswerActorSend (poll_id : Z) (full_message_id : FullMessageId)
    (sent_options : list string) (generation : Z)
| StopPollActorSend (full_message_id : FullMessageId) (promise : Promise)
| AddTimeoutIn (poll_id : Z) (timeout : Q)
| SetTimeoutIn (poll_id : Z) (timeout : Q)
| CancelTimeout (poll_id : Z)
| OnGetUpdates (updates : string).

(** ** Computations of the manager

    A computation reads and writes the state, appends the events it emits
    to those emitted so far, and aborts ([None]) when a [CHECK] fails. *)
Definition M (A : Type) : Type := State -> list Event -> option (A * State * list Event).

#[global] Instance M_ret : MRet M := fun A a s events => Some (a, s, events).

#[global] Instance M_bind : MBind M := fun A B k m s events =>
  match m s events with
  | None => None
  | Some (a, s', events') => k a s' events'
  end.

Definition CHECK (condition : bool) : M unit := fun s events =>
  if condition then Some (tt, s, events) else None.
Definition emit (event : Event) : M unit := fun s events => Some (tt, s, events ++ [event]).
Definition gets {A} (f : State -> A) : M A := fun s events => Some (f s, s, events).
Definition modify (f : State -> State) : M unit := fun s events => Some (tt, f s, events).

(** The outcome of a call made in state [s]: the value returned, the state
    left behind and the events of the call, oldest first. *)
Definition run {A} (m : M A) (s : State) : option (A * State * list Event) := m s [].

Fixpoint for_each {A} (l : list A) (body : A -> M unit) : M unit :=
  match l with
  | [] => mret tt
  | x :: l' => body x ;; for_each l' body
  end.

Definition set_polls (f : gmap Z Poll -> gmap Z Poll) (s : State) : State :=
  mkState (f (polls_ s)) (pending_answers_ s) (poll_messages_ s)
    (loaded_from_database_polls_ s) (current_local_poll_id_ s) (current_generation_ s)
    (binlog_ s) (binlog_last_id_ s) (database_ s).

Definition set_pending_answers (f : gmap Z PendingAnswer -> gmap Z PendingAnswer)
    (s : State) : State :=
  mkState (polls_ s) (f (pending_answers_ s)) (poll_messages_ s)
    (loaded_from_database_polls_ s) (current_local_poll_id_ s) (current_generation_ s)
    (binlog_ s) (binlog_last_id_ s) (database_ s).

Definition set_poll_messages (f : gmap Z (list FullMessageId) -> gmap Z (list FullMessageId))
    (s : State) : State :=
  mkState (polls_ s) (pending_answers_ s) (f (poll_messages_ s))
    (loaded_from_database_polls_ s) (current_local_poll_id_ s) (current_generation_ s)
    (binlog_ s) (binlog_last_id_ s) (database_ s).

Definition set_loaded_from_database_polls (f : gset Z -> gset Z) (s : State) : State :=
  mkState (polls_ s) (pending_answers_ s) (poll_messages_ s)
    (f (loaded_from_database_polls_ s)) (current_local_poll_id_ s) (current_generation_ s)
    (binlog_ s) (binlog_last_id_ s) (database_ s).

Definition set_current_local_poll_id (v : Z) (s : State) : State :=
  mkState (polls_ s) (pending_answers_ s) (poll_messages_ s)
    (loaded_from_database_polls_ s) v (current_generation_ s)
    (binlog_ s) (binlog_last_id_ s) (database_ s).

Definition set_current_generation (v : Z) (s : State) : State :=
  mkState (polls_ s) (pending_answers_ s) (poll_messages_ s)
    (loaded_from_database_polls_ s) (current_local_poll_id_ s) v
    (binlog_ s) (binlog_last_id_ s) (database_ s).

Definition set_binlog (f : gmap Z LogEvent -> gmap Z LogEvent) (last_id : Z) (s : State) : State :=
  mkState (polls_ s) (pending_answers_ s) (poll_messages_ s)
    (loaded_from_database_polls_ s) (current_local_poll_id_ s) (current_generation_ s)
    (f (binlog_ s)) last_id (database_ s).

Definition set_database (f : gmap string Poll -> gmap string Poll) (s : State) : State :=
  mkState (polls_ s) (pending_answers_ s) (poll_messages_ s)
    (loaded_from_database_polls_ s) (current_local_poll_id_ s) (current_generation_ s)
    (binlog_ s) (binlog_last_id_ s) (f (database_ s)).

(** Modelled from the spec: the durable log ([BinlogHelper.h] is not among
    the sources).  [binlog_add] appends a payload and returns the
    identifier of the new entry, [binlog_rewrite] replaces the payload of
    an entry and keeps its identifier, [binlog_erase] removes an entry. *)
Definition binlog_add (event : LogEvent) : M Z :=
  id ← gets (fun s => binlog_last_id_ s + 1);
  modify (set_binlog (fun b => <[id := event]> b) id) ;;
  mret id.
Definition binlog_rewrite (id : Z) (event : LogEvent) : M Z :=
  modify (fun s => set_binlog (fun b => <[id := event]> b) (binlog_last_id_ s) s) ;; mret id.
Definition binlog_erase (id : Z) : M unit :=
  modify (fun s => set_binlog (fun b => delete id b) (binlog_last_id_ s) s).

(** [Result<T>] *)
Inductive Result (A : Type) : Type :=
| Ok (value : A)
| Error (status : Status).
Arguments Ok {A} value.
Arguments Error {A} status.

Definition is_error {A} (result : Result A) : bool :=
  match result with Ok _ => false | Error _ => true end.

(** ** The poll manager: operations *)

(** Line 219. *)
Definition is_local_poll_id (poll_id : Z) : bool := (poll_id <? 0) && (poll_id >? INT32_MIN).

(** Lines 223-243; the editable and the constant lookup coincide. *)
Definition get_poll (poll_id : Z) : M (option Poll) := gets (fun s => polls_ s !! poll_id).
Definition get_poll_editable (poll_id : Z) : M (option Poll) := get_poll poll_id.
Definition have_poll (poll_id : Z) : M bool :=
  poll ← get_poll poll_id; mret (bool_decide (is_Some poll)).

(** Lines 245-254.  The list of a poll's messages stands for the
    [unordered_set], enumerated in the order of the list. *)
Definition notify_on_poll_update (poll_id : Z) : M unit :=
  it ← gets (fun s => poll_messages_ s !! poll_id);
  match it with
  | None => mret tt
  | Some full_message_ids =>
      for_each full_message_ids (fun full_message_id => emit (OnUpdateMessageContent full_message_id))
  end.

(** Line 256. *)
Definition get_poll_database_key (poll_id : Z) : string := "poll" +:+ pretty poll_id.

(** Lines 508-512. *)
Definition get_poll_is_closed (poll_id : Z) : M bool :=
  poll ← get_poll poll_id;
  match poll with
  | None => CHECK false ;; mret false
  | Some poll => mret (is_closed poll)
  end.

(** A [double] is a binary64 float, whose operations round as IEEE 754
    prescribes.  [double_of_int32] is the conversion of an [int] operand,
    which is exact, and [double_value] the rational number a finite double
    stands for. *)
Definition double_of_int32 (z : Z) : float :=
  if z <? 0 then PrimFloat.opp (PrimFloat.of_uint63 (Uint63.of_Z (- z)))
  else PrimFloat.of_uint63 (Uint63.of_Z z).

Definition double_value (x : float) : Q :=
  match Prim2SF x with
  | S754_finite sign mantissa exponent =>
      let magnitude :=
        if 0 <=? exponent then inject_Z (Z.pos mantissa * 2 ^ exponent)
        else Qmake (Z.pos mantissa) (Z.to_pos (2 ^ (- exponent))) in
      if sign then Qopp magnitude else magnitude
  | _ => 0%Q
  end.

(** Lines 736-739, with the value drawn by [Random::fast(70, 100)] given as
    [random].  Both products are products of doubles, the second by the
    double nearest to 0.01, and the result is the value of the double the
    function returns. *)
Definition get_polling_timeout (online : bool) (random : Z) : Q :=
  let result := double_of_int32 (if online then 60 else 30 * 60) in
  double_value (result * double_of_int32 random * 0x1.47ae147ae147bp-7)%float.

(** [static_cast<size_t>(option_id)] and the loop of lines 541-547:
    [None] when an index is out of range. *)
Fixpoint get_option_data (poll_options : list PollOption) (option_ids : list Z)
  : option (list string) :=
  match option_ids with
  | [] => Some []
  | option_id :: rest =>
      let index := to_uint64 option_id in
      if index >=? Z.of_nat (length poll_options) then None
      else
        match poll_options !! Z.to_nat index, get_option_data poll_options rest with
        | Some poll_option, Some options => Some (data poll_option :: options)
        | _, _ => None
        end
  end.

(** Lines 806-814. *)
Definition get_poll_options (poll_options : list pollAnswer) : list PollOption :=
  List.map (fun poll_option =>
    mkPollOption (answer_text_ poll_option) (answer_option_ poll_option) 0 false) poll_options.

(** Lines 854-865: the options of a poll against an equal number of
    answers; returns the options and the flag [is_changed]. *)
Fixpoint update_options (poll_options : list PollOption) (answers : list pollAnswer)
    (is_changed : bool) : list PollOption * bool :=
  match poll_options, answers with
  | poll_option :: rest, answer :: answers' =>
      let '(option1, changed1) :=
        if negb (String.eqb (text poll_option) (answer_text_ answer))
        then (mkPollOption (answer_text_ answer) (data poll_option)
                (voter_count poll_option) (is_chosen poll_option), true)
        else (poll_option, is_changed) in
      let '(option2, changed2) :=
        if negb (String.eqb (data option1) (answer_option_ answer))
        then (mkPollOption (text option1) (answer_option_ answer) 0 false, true)
        else (option1, changed1) in
      let '(rest', changed3) := update_options rest answers' changed2 in
      (option2 :: rest', changed3)
  | _, _ => (poll_options, is_changed)
  end.

(** Lines 888-919: one option against one [pollAnswerVoters]; threads the
    poll's total and the flag [is_changed].  [options_size] stands for
    [narrow_cast<int32>(poll->options.size())]: the cast is the identity
    for a number of options that is a value of [int32], and the embedding
    follows the code for such polls only (a longer vector ends the process
    at line 913); [counts_bounded] and [server_data_in_range] below keep
    the number of options in that range. *)
Definition update_option_voters (is_min : bool) (options_size : Z)
    (poll_result : pollAnswerVoters) (poll_option : PollOption)
    (total : Z) (is_changed : bool) : PollOption * Z * bool :=
  if negb (String.eqb (data poll_option) (voters_option_ poll_result))
  then (poll_option, total, is_changed)
  else
    let chosen_flag :=
      negb (Z.land (voters_flags_ poll_result) pollAnswerVoters_CHOSEN_MASK =? 0) in
    let '(chosen, changed1) :=
      if negb is_min && negb (Bool.eqb chosen_flag (is_chosen poll_option))
      then (chosen_flag, true) else (is_chosen poll_option, is_changed) in
    if negb (voters_ poll_result =? voter_count poll_option) then
      let count0 := voters_ poll_result in
      let count1 := if count0 <? 0 then 0 else count0 in
      let count2 := if chosen && (count1 =? 0) then 1 else count1 in
      let total' := if count2 >? total then count2 else total in
      let max_voter_count := sub32 (INT32_MAX ÷ options_size) 2 in
      let count3 := if count2 >? max_voter_count then max_voter_count else count2 in
      (mkPollOption (text poll_option) (data poll_option) count3 chosen, total', true)
    else
      (mkPollOption (text poll_option) (data poll_option) (voter_count poll_option) chosen,
       total, changed1).

(** Lines 887-920: the inner loop over the options. *)
Fixpoint update_options_voters (is_min : bool) (options_size : Z)
    (poll_result : pollAnswerVoters) (poll_options : list PollOption)
    (total : Z) (is_changed : bool) : list PollOption * Z * bool :=
  match poll_options with
  | [] => ([], total, is_changed)
  | poll_option :: rest =>
      let '(poll_option', total1, changed1) :=
        update_option_voters is_min options_size poll_result poll_option total is_changed in
      let '(rest', total2, changed2) :=
        update_options_voters is_min options_size poll_result rest total1 changed1 in
      (poll_option' :: rest', total2, changed2)
  end.

(** Lines 885-921: the outer loop over the results. *)
Fixpoint update_results (is_min : bool) (results : list pollAnswerVoters)
    (poll_options : list PollOption) (total : Z) (is_changed : bool)
  : list PollOption * Z * bool :=
  match results with
  | [] => (poll_options, total, is_changed)
  | poll_result :: rest =>
      let '(poll_options', total', changed') :=
        update_options_voters is_min (Z.of_nat (length poll_options)) poll_result
          poll_options total is_changed in
      update_results is_min rest poll_options' total' changed'
  end.

(** Lines 923-926. *)
Definition sum_option_votes (poll_options : list PollOption) : Z :=
  fold_left (fun sum poll_option => add32 sum (voter_count poll_option)) poll_options 0.

(** Lines 845-932: the poll after the merge, and the flag [is_changed]. *)
Definition merge_poll (poll0 : Poll) (poll_server : option poll) (poll_results : pollResults)
  : Poll * bool :=
  let '(poll1, changed1) :=
    match poll_server with
    | None => (poll0, false)
    | Some server =>
        let '(question', c1) :=
          if negb (String.eqb (question poll0) (question_ server))
          then (question_ server, true) else (question poll0, false) in
        let '(options', c2) :=
          if negb (length (options poll0) =? length (answers_ server))%nat
          then (get_poll_options (answers_ server), true)
          else update_options (options poll0) (answers_ server) c1 in
        let closed := negb (Z.land (poll_flags_ server) poll_CLOSED_MASK =? 0) in
        let '(closed', c3) :=
          if negb (Bool.eqb closed (is_closed poll0)) then (closed, true)
          else (is_closed poll0, c2) in
        (mkPoll question' options' (total_voter_count poll0) closed', c3)
    end in
  let is_min := negb (Z.land (results_flags_ poll_results) pollResults_MIN_MASK =? 0) in
  let has_total_voters :=
    negb (Z.land (results_flags_ poll_results) pollResults_TOTAL_VOTERS_MASK =? 0) in
  let '(total2, changed2) :=
    if has_total_voters && negb (total_voters_ poll_results =? total_voter_count poll1)
    then ((if total_voters_ poll_results <? 0 then 0 else total_voters_ poll_results), true)
    else (total_voter_count poll1, changed1) in
  let '(options3, total3, changed3) :=
    update_results is_min (results_ poll_results) (options poll1) total2 changed2 in
  let total4 :=
    match results_ poll_results with
    | [] => total3
    | _ :: _ =>
        if has_total_voters then
          let max_total_voter_count := sum_option_votes options3 in
          if (total3 >? max_total_voter_count) && negb (max_total_voter_count =? 0)
          then max_total_voter_count else total3
        else total3
    end in
  (mkPoll (question poll1) options3 total4 (is_closed poll1), changed3).

Section Manager.
Variable env : Environment.

(** Lines 260-270. *)
Definition save_poll (poll : Poll) (poll_id : Z) : M unit :=
  CHECK (negb (is_local_poll_id poll_id)) ;;
  if negb (use_message_db env) then mret tt
  else modify (set_database (fun d => <[get_poll_database_key poll_id := poll]> d)).

(** Lines 272-288; [value] is [None] for the empty string and otherwise the
    poll the stored bytes parse to.  The database holds, per key, the poll
    whose bytes [save_poll] stored; bytes that do not parse, for which line
    284 ends the process, are not represented. *)
Definition on_load_poll_from_database (poll_id : Z) (value : option Poll) : M unit :=
  modify (set_loaded_from_database_polls (fun loaded => {[poll_id]} ∪ loaded)) ;;
  have ← have_poll poll_id;
  CHECK (negb have) ;;
  match value with
  | None => mret tt
  | Some result => modify (set_polls (fun polls => <[poll_id := result]> polls))
  end.

(** Lines 294-309. *)
Definition get_poll_force (poll_id : Z) : M (option Poll) :=
  poll ← get_poll_editable poll_id;
  match poll with
  | Some poll => mret (Some poll)
  | None =>
      if negb (use_message_db env) then mret None
      else
        loaded ← gets (fun s => bool_decide (poll_id ∈ loaded_from_database_polls_ s));
        if (loaded : bool) then mret None
        else
          value ← gets (fun s => database_ s !! get_poll_database_key poll_id);
          on_load_poll_from_database poll_id value ;;
          get_poll_editable poll_id
  end.

(** Lines 573-633. *)
Definition do_set_poll_answer (poll_id : Z) (full_message_id : FullMessageId)
    (options : list string) (logevent_id : Z) (promise : Promise) : M unit :=
  entry ← gets (fun s => pending_answers_ s !! poll_id);
  let pending_answer := default new_PendingAnswer entry in
  if negb (bool_decide (promises_ pending_answer = [])) &&
     bool_decide (options_ pending_answer = options)
  then
    modify (set_pending_answers (fun pending =>
      <[poll_id := mkPendingAnswer (options_ pending_answer)
                     (promises_ pending_answer ++ [promise]) (generation_ pending_answer)
                     (logevent_id_ pending_answer) (query_ref_ pending_answer)]> pending))
  else
    CHECK ((logevent_id_ pending_answer =? 0) || (logevent_id =? 0)) ;;
    logevent_id' ←
      (if (logevent_id =? 0) && use_message_db env then
         let logevent := SetPollAnswerLogEvent poll_id full_message_id options in
         if generation_ pending_answer =? 0 then
           CHECK (logevent_id_ pending_answer =? 0) ;;
           binlog_add logevent
         else
           CHECK (negb (logevent_id_ pending_answer =? 0)) ;;
           binlog_rewrite (logevent_id_ pending_answer) logevent ;;
           mret (logevent_id_ pending_answer)
       else mret logevent_id);
    (if negb (bool_decide (promises_ pending_answer = [])) then
       match query_ref_ pending_answer with
       | None => CHECK false
       | Some query =>
           emit (CancelQuery query) ;;
           for_each (promises_ pending_answer) (fun old_promise =>
             emit (PromiseSetValue old_promise))
       end
     else mret tt) ;;
    generation ← gets (fun s => incr64 (current_generation_ s));
    modify (set_current_generation generation) ;;
    modify (set_pending_answers (fun pending =>
      <[poll_id := mkPendingAnswer options [promise] generation logevent_id'
                     (if bool_decide (promises_ pending_answer = []) then query_ref_ pending_answer
                      else None)]> pending)) ;;
    notify_on_poll_update poll_id ;;
    emit (SetPollAnswerActorSend poll_id full_message_id options generation).

(** Lines 526-550. *)
Definition set_poll_answer (poll_id : Z) (full_message_id : FullMessageId)
    (option_ids : list Z) (promise : Promise) : M unit :=
  if (1 <? Z.of_nat (length option_ids)) then
    emit (PromiseSetError promise (mkStatus 400 "Can't choose more than 1 option"))
  else if is_local_poll_id poll_id then
    emit (PromiseSetError promise (mkStatus 5 "Poll can't be answered"))
  else
    poll ← get_poll poll_id;
    match poll with
    | None => CHECK false
    | Some poll =>
        if is_closed poll then
          emit (PromiseSetError promise (mkStatus 400 "Can't answer closed poll"))
        else
          match get_option_data (options poll) option_ids with
          | None => emit (PromiseSetError promise (mkStatus 400 "Invalid option id specified"))
          | Some options => do_set_poll_answer poll_id full_message_id options 0 promise
          end
    end.

(** Lines 635-667. *)
Definition on_set_poll_answer (poll_id generation : Z) (result : Result unit) : M unit :=
  if close_flag env && is_error result then mret tt
  else
    it ← gets (fun s => pending_answers_ s !! poll_id);
    match it with
    | None => mret tt
    | Some pending_answer =>
        CHECK (negb (bool_decide (promises_ pending_answer = []))) ;;
        if negb (generation_ pending_answer =? generation) then mret tt
        else
          (if negb (logevent_id_ pending_answer =? 0)
           then binlog_erase (logevent_id_ pending_answer) else mret tt) ;;
          for_each (promises_ pending_answer) (fun promise =>
            match result with
            | Ok _ => emit (PromiseSetValue promise)
            | Error status => emit (PromiseSetError promise status)
            end) ;;
          modify (set_pending_answers (fun pending => delete poll_id pending))
    end.

(** Lines 724-734. *)
Definition stop_local_poll (poll_id : Z) : M unit :=
  CHECK (is_local_poll_id poll_id) ;;
  poll ← get_poll_editable poll_id;
  match poll with
  | None => CHECK false
  | Some poll =>
      if is_closed poll then mret tt
      else
        modify (set_polls (fun polls =>
          <[poll_id := mkPoll (question poll) (options poll) (total_voter_count poll) true]> polls)) ;;
        notify_on_poll_update poll_id
  end.

(** Modelled from the spec: [get_erase_logevent_promise]
    ([LogEventHelper.h] is not among the sources) wraps the promise so that
    on completion, success or failure, the log entry is erased and the
    result is passed on. *)
Definition get_erase_logevent_promise (logevent_id : Z) (promise : Promise) : Promise :=
  EraseLogeventPromise logevent_id promise.

(** Lines 710-722. *)
Definition do_stop_poll (poll_id : Z) (full_message_id : FullMessageId) (logevent_id : Z)
    (promise : Promise) : M unit :=
  logevent_id' ←
    (if (logevent_id =? 0) && use_message_db env
     then binlog_add (StopPollLogEvent poll_id full_message_id)
     else mret logevent_id);
  let new_promise := get_erase_logevent_promise logevent_id' promise in
  emit (StopPollActorSend full_message_id new_promise).

(** Lines 669-690. *)
Definition stop_poll (poll_id : Z) (full_message_id : FullMessageId) (promise : Promise)
  : M unit :=
  if is_local_poll_id poll_id then
    stop_local_poll poll_id ;;
    emit (PromiseSetValue promise)
  else
    poll ← get_poll_editable poll_id;
    match poll with
    | None => CHECK false
    | Some poll =>
        if is_closed poll then emit (PromiseSetValue promise)
        else
          modify (fun s => set_current_generation (incr64 (current_generation_ s)) s) ;;
          let poll' := mkPoll (question poll) (options poll) (total_voter_count poll) true in
          modify (set_polls (fun polls => <[poll_id := poll']> polls)) ;;
          notify_on_poll_update poll_id ;;
          save_poll poll' poll_id ;;
          do_stop_poll poll_id full_message_id 0 promise
    end.

(** Lines 763-782. *)
Definition on_get_poll_results (random : Z) (poll_id generation : Z) (result : Result string)
  : M unit :=
  match result with
  | Error _ =>
      closed ← get_poll_is_closed poll_id;
      if negb closed && negb (is_bot env)
      then emit (AddTimeoutIn poll_id (get_polling_timeout (is_online env) random))
      else mret tt
  | Ok updates =>
      current ← gets current_generation_;
      if negb (generation =? current) then
        closed ← get_poll_is_closed poll_id;
        if negb closed && negb (is_bot env)
        then emit (SetTimeoutIn poll_id 0%Q)
        else mret tt
      else emit (OnGetUpdates updates)
  end.

(** Lines 816-944; returns the identifier of the poll, [0] for [PollId()].
    [poll_results] is the object behind the pointer, which the [CHECK] of
    line 874 requires to be there; a call without results is not
    embedded. *)
Definition on_get_poll (random : Z) (poll_id : Z) (poll_server : option poll)
    (poll_results : pollResults) : M Z :=
  let poll_id :=
    match poll_server with
    | Some server => if negb (PollId_is_valid poll_id) then id_ server else poll_id
    | None => poll_id
    end in
  if negb (PollId_is_valid poll_id) || is_local_poll_id poll_id then mret 0
  else if match poll_server with
          | Some server => negb (id_ server =? poll_id)
          | None => false
          end then mret 0
  else
    found ← get_poll_force poll_id;
    match found, poll_server with
    | None, None => mret 0
    | _, _ =>
        let '(poll', is_changed) :=
          merge_poll (default new_Poll found) poll_server poll_results in
        modify (set_polls (fun polls => <[poll_id := poll']> polls)) ;;
        (if negb (is_bot env) && negb (is_closed poll')
         then emit (SetTimeoutIn poll_id (get_polling_timeout (is_online env) random))
         else mret tt) ;;
        (if is_changed
         then notify_on_poll_update poll_id ;; save_poll poll' poll_id
         else mret tt) ;;
        mret poll_id
    end.

End Manager.

(** ** The poll manager: further operations *)

(** [int64] arithmetic, for the counter of local poll identifiers. *)
Definition to_int64 (z : Z) : Z :=
  (z + 9223372036854775808) mod 18446744073709551616 - 9223372036854775808.

(** Modelled from the spec: the objects of the generated [td_api] header,
    which is not among the sources.  The spec's read model shows, per
    option, the text, the voter count, the percentage and whether the
    option is chosen or being chosen; the constructor takes them in this
    order at lines 312 and 429-431, and lines 437-460 name the fields. *)
Module td_api.
Record pollOption : Type := mkPollOption {
  text_ : string;
  voter_count_ : Z;
  vote_percentage_ : Z;
  is_chosen_ : bool;
  is_being_chosen_ : bool
}.
Record poll : Type := mkPoll {
  question_ : string;
  options_ : list pollOption;
  total_voter_count_ : Z;
  is_closed_ : bool
}.
End td_api.

(** Lines 311-314. *)
Definition get_poll_option_object (poll_option : PollOption) : td_api.pollOption :=
  td_api.mkPollOption (text poll_option) (voter_count poll_option) 0 (is_chosen poll_option) false.

(** Lines 422-432: the options of a poll with a pending answer; the second
    component is [voter_count_diff]. *)
Fixpoint get_pending_poll_options (chosen_options : list string) (poll_options : list PollOption)
    (voter_count_diff : Z) : list td_api.pollOption * Z :=
  match poll_options with
  | [] => ([], voter_count_diff)
  | poll_option :: rest =>
      let is_being_chosen := existsb (String.eqb (data poll_option)) chosen_options in
      let voter_count_diff' := if is_chosen poll_option then -1 else voter_count_diff in
      let '(objects, diff) := get_pending_poll_options chosen_options rest voter_count_diff' in
      (td_api.mkPollOption (text poll_option)
         (sub32 (voter_count poll_option) (if is_chosen poll_option then 1 else 0))
         0 false is_being_chosen :: objects, diff)
  end.

(** Lines 441-443. *)
Definition hide_voter_count (poll_option : td_api.pollOption) : td_api.pollOption :=
  td_api.mkPollOption (td_api.text_ poll_option) 0 (td_api.vote_percentage_ poll_option)
    (td_api.is_chosen_ poll_option) (td_api.is_being_chosen_ poll_option).

(** Lines 448-453. *)
Definition fix_total_voter_count (voter_counts : list Z) (total_voter_count : Z) : Z :=
  fold_left (fun total voter_count => if total <? voter_count then voter_count else total)
    voter_counts total_voter_count.

(** Lines 457-459. *)
Fixpoint set_vote_percentage (poll_options : list td_api.pollOption) (vote_percentage : list Z)
  : list td_api.pollOption :=
  match poll_options, vote_percentage with
  | poll_option :: rest, percentage :: percentages =>
      td_api.mkPollOption (td_api.text_ poll_option) (td_api.voter_count_ poll_option) percentage
        (td_api.is_chosen_ poll_option) (td_api.is_being_chosen_ poll_option)
      :: set_vote_percentage rest percentages
  | _, _ => poll_options
  end.

(** Lines 413-461, for a poll that is known and the pending answer, if
    any, of its identifier; [None] when a [CHECK] fails. *)
Definition make_poll_object {lib : StdLibrary} (poll : Poll) (it : option PendingAnswer)
  : option td_api.poll :=
  let '(poll_options, voter_count_diff) :=
    match it with
    | None => (List.map get_poll_option_object (options poll), 0)
    | Some pending_answer =>
        get_pending_poll_options (options_ pending_answer) (options poll) 0
    end in
  let is_voted := existsb td_api.is_chosen_ poll_options in
  let poll_options :=
    if negb is_voted && negb (is_closed poll)
    then List.map hide_voter_count poll_options else poll_options in
  let total_voter_count := add32 (total_voter_count poll) voter_count_diff in
  let voter_counts := List.map td_api.voter_count_ poll_options in
  let total_voter_count := fix_total_voter_count voter_counts total_voter_count in
  match get_vote_percentage voter_counts total_voter_count with
  | None => None
  | Some vote_percentage =>
      if (length poll_options =? length vote_percentage)%nat
      then Some (td_api.mkPoll (question poll)
                   (set_vote_percentage poll_options vote_percentage)
                   total_voter_count (is_closed poll))
      else None
  end.

Definition get_poll_object {lib : StdLibrary} (poll_id : Z) : M td_api.poll := fun s events =>
  match polls_ s !! poll_id with
  | None => None
  | Some poll =>
      match make_poll_object poll (pending_answers_ s !! poll_id) with
      | None => None
      | Some object => Some (object, s, events)
      end
  end.

(** Lines 463-465 and 799-804: the poll as it is sent to the server; the
    identifier and the flags are zero. *)
Definition get_input_poll_option (poll_option : PollOption) : pollAnswer :=
  mkPollAnswer (text poll_option) (data poll_option).

Definition get_input_media (poll_id : Z) : M poll :=
  found ← get_poll poll_id;
  match found with
  | None => CHECK false ;; mret (mkServerPoll 0 0 "" [])
  | Some found =>
      mret (mkServerPoll 0 0 (question found) (List.map get_input_poll_option (options found)))
  end.

(** Lines 514-524. *)
Definition get_poll_search_text (poll_id : Z) : M string :=
  found ← get_poll poll_id;
  match found with
  | None => CHECK false ;; mret ""
  | Some found =>
      mret (fold_left (fun result poll_option => result +:+ " " +:+ text poll_option)
              (options found) (question found))
  end.

Section Drafts.
(** The largest value of [char]: 127 where [char] is signed and 255 where
    it is not. *)
Variable CHAR_MAX : Z.

(** Lines 470-476; [narrow_cast<char>(pos++)] aborts when [pos] is not a
    value of [char]. *)
Fixpoint create_poll_options (options : list string) (pos : Z) : option (list PollOption) :=
  match options with
  | [] => Some []
  | option_text :: rest =>
      if (0 <=? pos) && (pos <=? CHAR_MAX) then
        match create_poll_options rest (pos + 1) with
        | Some poll_options =>
            Some (mkPollOption option_text (String (Ascii.ascii_of_nat (Z.to_nat pos)) "") 0 false
                  :: poll_options)
        | None => None
        end
      else None
  end.

(** Lines 467-484. *)
Definition create_poll (question : string) (options : list string) : M Z :=
  match create_poll_options options 0 with
  | None => CHECK false ;; mret 0
  | Some poll_options =>
      poll_id ← gets (fun s => to_int64 (current_local_poll_id_ s - 1));
      modify (set_current_local_poll_id poll_id) ;;
      CHECK (is_local_poll_id poll_id) ;;
      have ← have_poll poll_id;
      CHECK (negb have) ;;
      modify (set_polls (fun polls => <[poll_id := mkPoll question poll_options 0 false]> polls)) ;;
      mret poll_id
  end.

End Drafts.

(** The place a [std::unordered_set] gives to a new element in the order
    of its enumeration, which the source does not fix. *)
Class StdSetLibrary : Type := {
  unordered_set_insert : FullMessageId -> list FullMessageId -> list FullMessageId
}.

(** Where the new element is enumerated last. *)
Definition append_set_library : StdSetLibrary := {|
  unordered_set_insert := fun full_message_id messages => messages ++ [full_message_id]
|}.

(** [erase] of one element; the others keep their order. *)
Definition unordered_set_erase (full_message_id : FullMessageId) (messages : list FullMessageId)
  : list FullMessageId :=
  List.filter (fun other => negb (bool_decide (other = full_message_id))) messages.

Section Registration.
Variable env : Environment.
Context {set_lib : StdSetLibrary}.

(** Lines 486-494. *)
Definition register_poll (poll_id : Z) (full_message_id : FullMessageId) : M unit :=
  have ← have_poll poll_id;
  CHECK have ;;
  messages ← gets (fun s => default [] (poll_messages_ s !! poll_id));
  CHECK (negb (bool_decide (full_message_id ∈ messages))) ;;
  modify (set_poll_messages (fun all =>
    <[poll_id := unordered_set_insert full_message_id messages]> all)) ;;
  if negb (is_bot env) && negb (is_local_poll_id poll_id) then
    closed ← get_poll_is_closed poll_id;
    if negb closed then emit (AddTimeoutIn poll_id 0%Q) else mret tt
  else mret tt.

(** Lines 496-506. *)
Definition unregister_poll (poll_id : Z) (full_message_id : FullMessageId) : M unit :=
  have ← have_poll poll_id;
  CHECK have ;;
  messages ← gets (fun s => default [] (poll_messages_ s !! poll_id));
  CHECK (bool_decide (full_message_id ∈ messages)) ;;
  match unordered_set_erase full_message_id messages with
  | [] =>
      modify (set_poll_messages (fun all => delete poll_id all)) ;;
      emit (CancelTimeout poll_id)
  | message_ids => modify (set_poll_messages (fun all => <[poll_id := message_ids]> all))
  end.

End Registration.

(** The calls of the operations below: those of [Event], the creation of
    a [GetPollResultsQuery] and the resolution of a dialog's dependencies
    before a replay. *)
Inductive Call : Type :=
| ManagerEvent (event : Event)
| GetPollResultsQuerySend (poll_id : Z) (full_message_id : FullMessageId) (generation : Z)
| AddDialogDependencies (dialog_id : Z)
| ResolveDependenciesForce.

(** Lines 741-761: the call made when the timeout of a poll fires, if any.
    The message is the first one the set enumerates; taking it from a set
    without elements is undefined and stands as an abort. *)
Definition on_update_poll_timeout (env : Environment) (poll_id : Z)
  : State -> option (list Call) := fun s =>
  if is_bot env then None
  else if is_local_poll_id poll_id then None
  else
    match polls_ s !! poll_id with
    | None => None
    | Some poll =>
        if is_closed poll then Some []
        else
          match poll_messages_ s !! poll_id with
          | None => Some []
          | Some [] => None
          | Some (full_message_id :: _) =>
              Some [GetPollResultsQuerySend poll_id full_message_id (current_generation_ s)]
          end
    end.

(** [LogEvent::HandlerType], and a [BinlogEvent] whose [data_] is given by
    the log event its bytes decode to. *)
Inductive HandlerType : Type :=
| SetPollAnswer
| StopPoll
| OtherHandler (type : Z).

Record BinlogEvent : Type := mkBinlogEvent {
  event_id_ : Z;
  type_ : HandlerType;
  data_ : LogEvent
}.

(** Lines 946-990: the state after the replay and its calls, oldest first;
    [None] for an entry that does not parse as its type says, for an
    unsupported type and for a failed [CHECK]. *)
Fixpoint on_binlog_events (env : Environment) (events : list BinlogEvent) (s : State)
  : option (State * list Call) :=
  match events with
  | [] => Some (s, [])
  | event :: rest =>
      let step : option (State * list Call) :=
        match type_ event, data_ event with
        | SetPollAnswer, SetPollAnswerLogEvent poll_id full_message_id options =>
            if negb (use_message_db env) then
              match run (binlog_erase (event_id_ event)) s with
              | Some (_, s', emitted) => Some (s', List.map ManagerEvent emitted)
              | None => None
              end
            else
              match run (do_set_poll_answer env poll_id full_message_id options
                           (event_id_ event) AutoPromise) s with
              | Some (_, s', emitted) =>
                  Some (s', AddDialogDependencies (fst full_message_id)
                            :: ResolveDependenciesForce :: List.map ManagerEvent emitted)
              | None => None
              end
        | StopPoll, StopPollLogEvent poll_id full_message_id =>
            if negb (use_message_db env) then
              match run (binlog_erase (event_id_ event)) s with
              | Some (_, s', emitted) => Some (s', List.map ManagerEvent emitted)
              | None => None
              end
            else
              match run (do_stop_poll env poll_id full_message_id (event_id_ event)
                           AutoPromise) s with
              | Some (_, s', emitted) =>
                  Some (s', AddDialogDependencies (fst full_message_id)
                            :: ResolveDependenciesForce :: List.map ManagerEvent emitted)
              | None => None
              end
        | SetPollAnswer, StopPollLogEvent _ _ =>
            if negb (use_message_db env) then
              match run (binlog_erase (event_id_ event)) s with
              | Some (_, s', emitted) => Some (s', List.map ManagerEvent emitted)
              | None => None
              end
            else None
        | StopPoll, SetPollAnswerLogEvent _ _ _ =>
            if negb (use_message_db env) then
              match run (binlog_erase (event_id_ event)) s with
              | Some (_, s', emitted) => Some (s', List.map ManagerEvent emitted)
              | None => None
              end
            else None
        | OtherHandler _, _ => None
        end in
      match step with
      | None => None
      | Some (s', calls) =>
          match on_binlog_events env rest s' with
          | None => None
          | Some (s'', calls') => Some (s'', calls ++ calls')
          end
      end
  end.

(** ** Vocabulary of the statements *)

(** The sum of a vector, and the number of positions holding [key]. *)
Definition total_votes (l : list Z) : Z := fold_right Z.add 0 l.

Fixpoint occurrences (key : Z) (l : list Z) : Z :=
  match l with
  | [] => 0
  | v :: l' => (if v =? key then 1 else 0) + occurrences key l'
  end.

(** The floor percentage and the gap of an option with [v] votes. *)
Definition floor_percent (total v : Z) : Z := v * 100 / total.
Definition gap_of (total v : Z) : Z := (floor_percent total v + 1) * total - v * 100.

(** What the C++ standard promises of the two library operations: the
    enumeration of a hash map visits every entry once, and [std::sort]
    permutes its input into an arrangement that is sorted for the
    comparator, provided the comparator is a strict order. *)
Class StdLibraryLaws (lib : StdLibrary) : Prop := {
  unordered_map_order_perm : forall m, Permutation (unordered_map_order m) m;
  std_sort_perm : forall lt l, Permutation (std_sort lt l) l;
  std_sort_sorted : forall (lt : Option -> Option -> bool) l,
    (forall a b, lt a b = true -> lt b a = false) ->
    (forall a b c, lt a b = true -> lt b c = true -> lt a c = true) ->
    StronglySorted (fun a b => lt b a = false) (std_sort lt l)
}.

(** What [build_options] has recorded after the counts in [seen]: one
    entry per distinct count, holding the number of its occurrences and
    the last position where it occurs. *)
Definition entry_ok (seen : list Z) (entry : Z * Option) : Prop :=
  count (snd entry) = occurrences (fst entry) seen /\
  0 <= pos (snd entry) < Z.of_nat (length seen) /\
  at_pos seen (pos (snd entry)) = fst entry.

Definition options_of (seen : list Z) (options : list (Z * Option)) : Prop :=
  NoDup (List.map fst options) /\
  (forall v, In v seen -> In v (List.map fst options)) /\
  List.Forall (entry_ok seen) options.

(** A group of [sorted_options] knows the number of options it stands for. *)
Definition group_ok (voter_counts : list Z) (option : Option) : Prop :=
  count option = occurrences (at_pos voter_counts (pos option)) voter_counts.

(** No two distinct counts have both the same gap and the same number of
    options. *)
Definition no_tied_groups (voter_counts : list Z) : Prop :=
  forall v w, In v voter_counts -> In w voter_counts -> v <> w ->
    gap_of (total_votes voter_counts) v <> gap_of (total_votes voter_counts) w \/
    occurrences v voter_counts <> occurrences w voter_counts.

(** The manager before any call. *)
Definition initial_state : State :=
  mkState ∅ ∅ ∅ ∅ 0 0 ∅ 0 ∅.

(** A record of [pending_answers_] has promises waiting on it. *)
Definition pending_answers_waiting (s : State) : Prop :=
  forall poll_id pending_answer,
    pending_answers_ s !! poll_id = Some pending_answer -> promises_ pending_answer <> [].

(** The invariant of the answer coordinator: a pending answer has promises
    waiting, carries a generation already handed out, and has its log
    entry when the message database is in use. *)
Definition pending_answer_ok (env : Environment) (s : State) (pending_answer : PendingAnswer) : Prop :=
  promises_ pending_answer <> [] /\
  0 < generation_ pending_answer <= current_generation_ s /\
  (use_message_db env = true -> logevent_id_ pending_answer <> 0).

Definition state_ok (env : Environment) (s : State) : Prop :=
  0 <= current_generation_ s < UINT64_MOD /\
  0 <= binlog_last_id_ s /\
  forall poll_id pending_answer,
    pending_answers_ s !! poll_id = Some pending_answer ->
    pending_answer_ok env s pending_answer.

(** States used as examples. *)
Definition example_env : Environment := mkEnvironment false false false true.

Definition example_poll (closed : bool) : Poll :=
  mkPoll "Tea or coffee?" [mkPollOption "Tea" "0" 3 false; mkPollOption "Coffee" "1" 4 false]
    7 closed.

(** Poll 5 is shown in one message; nothing is pending. *)
Definition idle_state (closed : bool) : State :=
  mkState {[5 := example_poll closed]} ∅ {[5 := [(10, 20)]]} ∅ 0 0 ∅ 0 ∅.

(** A first submission, with the given options, is in flight for poll 5. *)
Definition submitting_state (chosen : list string) : State :=
  mkState {[5 := example_poll false]}
    {[5 := mkPendingAnswer chosen [CallerPromise 1] 1 0 (Some 77)]}
    {[5 := [(10, 20)]]} ∅ 0 1 ∅ 0 ∅.

(** The state a first submission for option 0 of poll 5 leaves behind, the
    query of the request not being registered yet. *)
Definition unsent_state : State :=
  mkState {[5 := example_poll false]}
    {[5 := mkPendingAnswer ["0"] [CallerPromise 1] 1 0 None]}
    {[5 := [(10, 20)]]} ∅ 0 1 ∅ 0 ∅.

(** The state [submitting_state] leaves behind once the answer is in. *)
Definition idle_state_after_answer : State :=
  mkState {[5 := example_poll false]} ∅ {[5 := [(10, 20)]]} ∅ 0 1 ∅ 0 ∅.

(** What a response does to one waiting promise. *)
Definition resolve_promise (result : Result unit) (promise : Promise) : Event :=
  match result with
  | Ok _ => PromiseSetValue promise
  | Error status => PromiseSetError promise status
  end.

(** The bound the merge keeps on the voter counts of a poll: none is
    negative and none exceeds the ceiling of line 913 for the number of
    options of the poll. *)
Definition counts_bounded (poll_options : list PollOption) : Prop :=
  List.Forall (fun poll_option =>
    0 <= voter_count poll_option <=
      INT32_MAX ÷ Z.of_nat (length poll_options) - 2) poll_options.

(** The events by which a merge shows itself: the notification of a
    message and the timeout of the next fetch. *)
Definition is_display_event (event : Event) : Prop :=
  match event with
  | OnUpdateMessageContent _ | SetTimeoutIn _ _ => True
  | _ => False
  end.

(** A poll within its bounds: the counts are bounded and the total is a
    non-negative [int32]. *)
Definition poll_bounded (poll : Poll) : Prop :=
  counts_bounded (options poll) /\ 0 <= total_voter_count poll <= INT32_MAX.

(** Server data as its types have it: the numbers of voters are values of
    [int32], and a poll has at most [2^30 - 1] answers. *)
Definition server_data_in_range (poll_server : option poll) (poll_results : pollResults)
  : Prop :=
  (forall server, poll_server = Some server ->
     Z.of_nat (length (answers_ server)) <= 1073741823) /\
  total_voters_ poll_results <= INT32_MAX /\
  List.Forall (fun poll_result => voters_ poll_result <= INT32_MAX) (results_ poll_results).

(** Every poll the manager holds, in memory or in the database, is within
    its bounds. *)
Definition polls_bounded (s : State) : Prop :=
  (forall poll_id poll, polls_ s !! poll_id = Some poll -> poll_bounded poll) /\
  (forall key poll, database_ s !! key = Some poll -> poll_bounded poll).

(** What the C++ standard promises of [insert] on an [unordered_set] that
    does not hold the element: afterwards the set enumerates the element
    and the former ones, each once. *)
Class StdSetLibraryLaws (set_lib : StdSetLibrary) : Prop := {
  unordered_set_insert_perm : forall full_message_id messages,
    Permutation (unordered_set_insert full_message_id messages) (full_message_id :: messages)
}.

(** No poll is registered with an empty set of messages. *)
Definition poll_messages_nonempty (s : State) : Prop :=
  forall poll_id messages, poll_messages_ s !! poll_id = Some messages -> messages <> [].

(** Further examples: an environment with the message database in use, a
    state in which the vote for option 0 of poll 5 is logged and in
    flight, and a state holding one draft, shown in one message. *)
Definition database_env : Environment := mkEnvironment false true false true.

Definition logged_state : State :=
  mkState {[5 := example_poll false]}
    {[5 := mkPendingAnswer ["0"] [CallerPromise 1] 1 1 (Some 77)]}
    {[5 := [(10, 20)]]} ∅ 0 1 {[1 := SetPollAnswerLogEvent 5 (10, 20) ["0"]]} 1 ∅.

Definition draft_state : State :=
  mkState {[-1 := example_poll false]} ∅ {[-1 := [(10, 20)]]} ∅ (-1) 0 ∅ 0 ∅.

(** ** Facts about the two standard libraries *)

Lemma sort_insert_perm lt x l : Permutation (sort_insert lt x l) (x :: l).
Proof.
  induction l as [|y l IH]; simpl; [reflexivity|].
  destruct (lt x y); [reflexivity|].
  rewrite IH. apply perm_swap.
Qed.

Lemma insertion_sort_perm lt l : Permutation (insertion_sort lt l) l.
Proof.
  induction l as [|x l IH]; simpl; [constructor|].
  rewrite sort_insert_perm. now constructor.
Qed.

Lemma sort_insert_sorted (lt : Option -> Option -> bool) x l :
  (forall a b, lt a b = true -> lt b a = false) ->
  (forall a b c, lt a b = true -> lt b c = true -> lt a c = true) ->
  StronglySorted (fun a b => lt b a = false) l ->
  StronglySorted (fun a b => lt b a = false) (sort_insert lt x l).
Proof.
  intros Hasym Htrans. induction l as [|y l IH]; simpl; intros Hs.
  - repeat constructor.
  - inversion Hs as [|? ? Hl Hy]; subst.
    destruct (lt x y) eqn:Hxy.
    + constructor; [assumption|]. constructor; [now apply Hasym|].
      rewrite List.Forall_forall in Hy |- *. intros z Hz.
      destruct (lt z x) eqn:Hzx; [|reflexivity].
      specialize (Hy z Hz). rewrite (Htrans z x y Hzx Hxy) in Hy. discriminate.
    + constructor; [now apply IH|].
      rewrite List.Forall_forall in Hy |- *. intros z Hz.
      apply (Permutation_in _ (sort_insert_perm lt x l)) in Hz.
      destruct Hz as [<-|Hz]; [assumption|now apply Hy].
Qed.

Lemma insertion_sort_sorted (lt : Option -> Option -> bool) l :
  (forall a b, lt a b = true -> lt b a = false) ->
  (forall a b c, lt a b = true -> lt b c = true -> lt a c = true) ->
  StronglySorted (fun a b => lt b a = false) (insertion_sort lt l).
Proof.
  intros Hasym Htrans. induction l as [|x l IH]; simpl.
  - constructor.
  - now apply sort_insert_sorted.
Qed.

#[local] Instance insertion_order_laws : StdLibraryLaws insertion_order_library.
Proof.
  split.
  - intros m. reflexivity.
  - apply insertion_sort_perm.
  - apply insertion_sort_sorted.
Qed.

#[local] Instance reverse_order_laws : StdLibraryLaws reverse_order_library.
Proof.
  split.
  - intros m. symmetry. apply Permutation_rev.
  - apply insertion_sort_perm.
  - apply insertion_sort_sorted.
Qed.

(** ** Facts about the percentage calculator *)

Lemma to_int32_small z : INT32_MIN <= z <= INT32_MAX -> to_int32 z = z.
Proof.
  unfold to_int32, INT32_MIN, INT32_MAX. intros Hz.
  rewrite Z.mod_small by lia. lia.
Qed.

Lemma total_votes_app l1 l2 : total_votes (l1 ++ l2) = total_votes l1 + total_votes l2.
Proof. induction l1 as [|x l1 IH]; simpl; lia. Qed.

Lemma total_votes_nonneg l : List.Forall (fun v => 0 <= v) l -> 0 <= total_votes l.
Proof. induction 1; simpl; lia. Qed.

Lemma total_votes_bound l x :
  List.Forall (fun v => 0 <= v) l -> In x l -> x <= total_votes l.
Proof.
  induction 1 as [|y l Hy Hl IH]; simpl; [tauto|].
  pose proof (total_votes_nonneg l Hl).
  intros [->|Hin]; [lia|]. specialize (IH Hin). lia.
Qed.

Lemma occurrences_nonneg key l : 0 <= occurrences key l.
Proof. induction l as [|v l IH]; simpl; [lia|]. destruct (v =? key); lia. Qed.

Lemma occurrences_length key l : occurrences key l <= Z.of_nat (length l).
Proof. induction l as [|v l IH]; simpl length; simpl; [lia|]. destruct (v =? key); lia. Qed.

Lemma occurrences_app key l1 l2 :
  occurrences key (l1 ++ l2) = occurrences key l1 + occurrences key l2.
Proof. induction l1 as [|v l1 IH]; simpl; lia. Qed.

Lemma occurrences_absent key l : ~ In key l -> occurrences key l = 0.
Proof.
  induction l as [|v l IH]; simpl; [reflexivity|]. intros Hn.
  destruct (Z.eqb_spec v key); [tauto|]. rewrite IH; tauto.
Qed.

Lemma sum_voter_counts_ok l acc :
  List.Forall (fun v => 0 <= v) l -> acc + total_votes l <= INT32_MAX ->
  sum_voter_counts l acc = Some (acc + total_votes l).
Proof.
  intros Hl. revert acc. induction Hl as [|v l Hv Hl IH]; simpl; intros acc Hb.
  - f_equal. lia.
  - pose proof (total_votes_nonneg l Hl).
    replace (0 <=? v) with true by (symmetry; apply Z.leb_le; lia).
    replace (v <=? INT32_MAX - acc) with true by (symmetry; apply Z.leb_le; lia).
    simpl. rewrite IH by lia. f_equal. lia.
Qed.

Lemma floor_percent_bounds total v :
  0 < total -> 0 <= v <= total ->
  0 <= floor_percent total v <= 100 /\ floor_percent total v * total <= v * 100.
Proof.
  intros Ht Hv. unfold floor_percent.
  pose proof (Z.mul_div_le (v * 100) total Ht).
  split; [split|lia].
  - apply Z.div_pos; lia.
  - apply Z.div_le_upper_bound; lia.
Qed.

Lemma gap_of_bounds total v :
  0 < total -> 0 <= v <= total -> 0 < gap_of total v <= total.
Proof.
  intros Ht Hv. unfold gap_of, floor_percent.
  pose proof (Z.mul_div_le (v * 100) total Ht).
  pose proof (Z.mul_succ_div_gt (v * 100) total Ht). lia.
Qed.

Lemma floor_percent_sum total l :
  0 < total -> List.Forall (fun v => 0 <= v <= total) l ->
  total_votes (List.map (floor_percent total) l) * total <= total_votes l * 100 /\
  List.Forall (fun p => 0 <= p) (List.map (floor_percent total) l).
Proof.
  intros Ht. induction 1 as [|v l Hv Hl [IH1 IH2]]; simpl; [split; [lia|constructor]|].
  destruct (floor_percent_bounds total v Ht Hv) as [Hb Hm].
  split; [lia|constructor; [lia|assumption]].
Qed.

Lemma floor_percentages_ok total l acc :
  0 < total -> total <= INT32_MAX ->
  List.Forall (fun v => 0 <= v <= total) l ->
  0 <= acc -> acc + total_votes (List.map (floor_percent total) l) <= INT32_MAX ->
  floor_percentages l total acc =
    Some (List.map (floor_percent total) l, List.map (gap_of total) l,
          acc + total_votes (List.map (floor_percent total) l)).
Proof.
  intros Ht Hmax Hl. revert acc.
  induction Hl as [|v l Hv Hl IH]; intros acc Hacc Hb; cbn [floor_percentages List.map].
  - simpl. do 2 f_equal. lia.
  - destruct (floor_percent_bounds total v Ht Hv) as [Hf _].
    pose proof (gap_of_bounds total v Ht Hv) as Hg.
    destruct (floor_percent_sum total l Ht Hl) as [_ Hnn].
    apply total_votes_nonneg in Hnn. simpl in Hb.
    assert (Hq : v * 100 ÷ total = floor_percent total v)
      by (unfold floor_percent; apply Z.quot_div_nonneg; lia).
    rewrite Hq. rewrite (to_int32_small (floor_percent total v))
      by (unfold INT32_MIN, INT32_MAX; lia).
    replace (0 <=? floor_percent total v) with true by (symmetry; apply Z.leb_le; lia).
    replace (floor_percent total v <=? 100) with true by (symmetry; apply Z.leb_le; lia).
    cbn [andb]. fold (gap_of total v).
    rewrite (to_int32_small (gap_of total v))
      by (unfold INT32_MIN, INT32_MAX in *; lia).
    replace (0 <=? gap_of total v) with true by (symmetry; apply Z.leb_le; lia).
    replace (gap_of total v <=? total) with true by (symmetry; apply Z.leb_le; lia).
    cbn [andb]. unfold add32.
    rewrite (to_int32_small (acc + floor_percent total v))
      by (unfold INT32_MIN, INT32_MAX in *; lia).
    rewrite IH by lia. simpl. do 2 f_equal. lia.
Qed.

Lemma at_pos_app_l l1 l2 p :
  0 <= p < Z.of_nat (length l1) -> at_pos (l1 ++ l2) p = at_pos l1 p.
Proof. intros Hp. unfold at_pos. apply app_nth1. lia. Qed.

Lemma at_pos_app_end l v : at_pos (l ++ [v]) (Z.of_nat (length l)) = v.
Proof.
  unfold at_pos. rewrite Nat2Z.id, app_nth2 by lia.
  now rewrite Nat.sub_diag.
Qed.

Lemma options_update_keys key i options :
  List.map fst (options_update key i options) =
    if existsb (fun k => k =? key) (List.map fst options) then List.map fst options
    else List.map fst options ++ [key].
Proof.
  induction options as [|[k o] options IH]; simpl; [reflexivity|].
  destruct (k =? key) eqn:Hk; simpl; [reflexivity|].
  rewrite IH. now destruct (existsb _ _).
Qed.

Lemma existsb_key key (keys : list Z) :
  existsb (fun k => k =? key) keys = true <-> In key keys.
Proof.
  rewrite existsb_exists. split.
  - intros (k & Hin & Hk). apply Z.eqb_eq in Hk. now subst.
  - intros Hin. exists key. split; [assumption|apply Z.eqb_refl].
Qed.

Lemma entry_ok_other seen v entry :
  entry_ok seen entry -> fst entry <> v -> entry_ok (seen ++ [v]) entry.
Proof.
  intros (Hc & Hp & Ha) Hne. unfold entry_ok.
  rewrite occurrences_app, length_app, at_pos_app_l by assumption. simpl.
  destruct (Z.eqb_spec v (fst entry)); [congruence|].
  repeat split; lia.
Qed.

Lemma options_update_entries seen v options :
  Z.of_nat (length seen) < INT32_MAX ->
  List.Forall (entry_ok seen) options ->
  (~ In v (List.map fst options) -> occurrences v seen = 0) ->
  NoDup (List.map fst options) ->
  List.Forall (entry_ok (seen ++ [v])) (options_update v (Z.of_nat (length seen)) options).
Proof.
  intros Hlen. induction options as [|[k o] options IH]; intros Hall Hnew Hnd.
  - simpl. constructor; [|constructor]. unfold entry_ok. simpl.
    rewrite occurrences_app, length_app, at_pos_app_end, Hnew by tauto. simpl.
    rewrite Z.eqb_refl. unfold add32. rewrite to_int32_small by (unfold INT32_MIN, INT32_MAX; lia).
    repeat split; lia.
  - inversion Hall as [|? ? Hk Hrest]; subst. simpl in Hnd.
    apply NoDup_cons in Hnd as [Hnotin Hnd].
    simpl. destruct (Z.eqb_spec k v) as [->|Hne].
    + constructor.
      * destruct Hk as (Hc & Hp & Ha). unfold entry_ok. simpl in *.
        rewrite occurrences_app, length_app, at_pos_app_end. simpl.
        rewrite Z.eqb_refl. unfold add32.
        pose proof (occurrences_length v seen). pose proof (occurrences_nonneg v seen).
        rewrite to_int32_small by (unfold INT32_MIN, INT32_MAX in *; lia).
        repeat split; lia.
      * rewrite List.Forall_forall in Hrest |- *. intros e He.
        apply entry_ok_other; [now apply Hrest|].
        intros Heq. apply Hnotin, list_elem_of_In. rewrite <- Heq. now apply in_map.
    + constructor; [now apply entry_ok_other|].
      apply IH; [assumption| |assumption].
      intros Hn. apply Hnew. simpl. intros [?|?]; [congruence|tauto].
Qed.

Lemma options_update_ok seen v options :
  Z.of_nat (length seen) < INT32_MAX ->
  options_of seen options ->
  options_of (seen ++ [v]) (options_update v (Z.of_nat (length seen)) options).
Proof.
  intros Hlen (Hnd & Hkeys & Hall). unfold options_of.
  rewrite options_update_keys.
  destruct (existsb _ _) eqn:Hex; (split; [|split]).
  - assumption.
  - intros x Hx. apply in_app_or in Hx as [Hx|[<-|[]]]; [now apply Hkeys|].
    now apply existsb_key.
  - apply options_update_entries; try assumption.
    intros Hn. apply existsb_key in Hex. tauto.
  - apply NoDup_app. split; [assumption|]. split; [|apply NoDup_singleton].
    intros x Hx [<-|[]]%list_elem_of_In. apply list_elem_of_In in Hx.
    apply existsb_key in Hx. congruence.
  - intros x Hx. apply in_or_app.
    apply in_app_or in Hx as [Hx|[<-|[]]]; [left; now apply Hkeys|right; now left].
  - apply options_update_entries; try assumption.
    intros _. apply occurrences_absent. intros Hin. apply Hkeys, existsb_key in Hin. congruence.
Qed.

Lemma options_of_nil : options_of [] [].
Proof. repeat split; [constructor|intros v []|constructor]. Qed.

Lemma build_options_ok rest seen options :
  Z.of_nat (length (seen ++ rest)) <= INT32_MAX ->
  options_of seen options ->
  exists options', build_options rest (Z.of_nat (length seen)) options = Some options' /\
                   options_of (seen ++ rest) options'.
Proof.
  revert seen options. induction rest as [|v rest IH]; intros seen options Hlen Hinv.
  - simpl. exists options. rewrite app_nil_r. tauto.
  - rewrite length_app in Hlen. simpl in Hlen. simpl.
    replace (Z.of_nat (length seen) <=? INT32_MAX) with true by (symmetry; apply Z.leb_le; lia).
    replace (seen ++ v :: rest) with ((seen ++ [v]) ++ rest) by now rewrite <- app_assoc.
    replace (Z.of_nat (length seen) + 1) with (Z.of_nat (length (seen ++ [v])))
      by (rewrite length_app; simpl; lia).
    apply IH.
    + rewrite !length_app. simpl. lia.
    + apply options_update_ok; [lia|assumption].
Qed.

Lemma add_percent_map voter_counts key (f : Z -> Z) :
  add_percent voter_counts key (List.map f voter_counts) =
    List.map (fun v => if v =? key then add32 (f v) 1 else f v) voter_counts.
Proof. induction voter_counts as [|v l IH]; simpl; [reflexivity|]. now rewrite IH. Qed.

Lemma add_percent_total l key (f : Z -> Z) :
  (forall v, In v l -> 0 <= f v <= 100) ->
  total_votes (List.map (fun v => if v =? key then add32 (f v) 1 else f v) l) =
    total_votes (List.map f l) + occurrences key l.
Proof.
  induction l as [|v l IH]; simpl; intros Hf; [reflexivity|].
  rewrite IH by auto. specialize (Hf v (or_introl eq_refl)).
  destruct (v =? key); [|lia].
  unfold add32. rewrite to_int32_small by (unfold INT32_MIN, INT32_MAX; lia). lia.
Qed.

Lemma distribute_ok voter_counts sorted_options :
  List.Forall (group_ok voter_counts) sorted_options ->
  forall left_percent (f : Z -> Z),
  (forall v, In v voter_counts -> 0 <= f v) ->
  0 <= left_percent -> total_votes (List.map f voter_counts) + left_percent = 100 ->
  exists f', distribute voter_counts sorted_options left_percent (List.map f voter_counts) =
               List.map f' voter_counts /\
             (forall v, In v voter_counts -> 0 <= f' v) /\
             total_votes (List.map f' voter_counts) <= 100.
Proof.
  induction 1 as [|option rest Hopt Hrest IH]; intros left_percent f Hf Hleft Hsum; simpl.
  - exists f. repeat split; [assumption|lia].
  - destruct (Z.leb_spec (count option) left_percent) as [Hle|Hgt]; [|now apply IH].
    assert (Hnn : List.Forall (fun p => 0 <= p) (List.map f voter_counts)).
    { apply List.Forall_forall. intros x (y & <- & Hy)%in_map_iff. now apply Hf. }
    pose proof (total_votes_nonneg _ Hnn) as Htnn.
    assert (Hbound : forall v, In v voter_counts -> 0 <= f v <= 100).
    { intros v Hv. split; [now apply Hf|].
      assert (f v <= total_votes (List.map f voter_counts)); [|lia].
      apply total_votes_bound; [assumption|now apply in_map]. }
    red in Hopt. pose proof (occurrences_nonneg (at_pos voter_counts (pos option)) voter_counts).
    unfold sub32. rewrite to_int32_small by (unfold INT32_MIN, INT32_MAX; lia).
    rewrite add_percent_map.
    pose proof (add_percent_total voter_counts (at_pos voter_counts (pos option)) f Hbound) as Htot.
    set (f' := fun v => if v =? at_pos voter_counts (pos option) then add32 (f v) 1 else f v) in *.
    assert (Hf' : forall v, In v voter_counts -> 0 <= f' v).
    { intros v Hv. specialize (Hbound v Hv). unfold f'.
      destruct (v =? _); [|lia].
      unfold add32. rewrite to_int32_small by (unfold INT32_MIN, INT32_MAX; lia). lia. }
    destruct (Z.eqb_spec (left_percent - count option) 0) as [Hz|Hnz].
    + exists f'. repeat split; [assumption|lia].
    + apply IH; [assumption|lia|lia].
Qed.

Lemma repeat_zero_map (l : list Z) : repeat 0 (length l) = List.map (fun _ => 0) l.
Proof. induction l as [|v l IH]; simpl; [reflexivity|]. now rewrite IH. Qed.

Lemma total_votes_zero (l : list Z) : total_votes (List.map (fun _ => 0) l) = 0.
Proof. induction l as [|v l IH]; simpl; lia. Qed.

Lemma counts_below_total l :
  List.Forall (fun v => 0 <= v) l -> List.Forall (fun v => 0 <= v <= total_votes l) l.
Proof.
  intros Hl. apply List.Forall_forall. intros v Hv. split.
  - rewrite List.Forall_forall in Hl. now apply Hl.
  - now apply total_votes_bound.
Qed.

Section VotePercentageFacts.
Context {lib : StdLibrary} {laws : StdLibraryLaws lib}.

Lemma sorted_options_ok voter_counts gap result total options :
  options_of voter_counts options ->
  List.Forall (group_ok voter_counts) (get_sorted_options gap result total options).
Proof.
  intros (_ & _ & Hall). unfold get_sorted_options.
  rewrite List.Forall_forall in Hall |- *. intros option Hin.
  apply (Permutation_in _ (std_sort_perm _ _)) in Hin.
  apply filter_In in Hin as [Hin _].
  apply in_map_iff in Hin as (entry & <- & Hin).
  apply (Permutation_in _ (unordered_map_order_perm _)) in Hin.
  destruct (Hall entry Hin) as (Hc & _ & Ha). red. now rewrite Ha.
Qed.

(** With a total that covers the votes, every [CHECK] passes and the
    percentages are a function of the count alone, non-negative and of sum
    at most 100. *)
Lemma get_vote_percentage_by_count voter_counts total_voter_count :
  List.Forall (fun v => 0 <= v) voter_counts ->
  total_votes voter_counts <= total_voter_count -> total_voter_count <= INT32_MAX ->
  Z.of_nat (length voter_counts) <= INT32_MAX ->
  exists f : Z -> Z,
    get_vote_percentage voter_counts total_voter_count = Some (List.map f voter_counts) /\
    (forall v, In v voter_counts -> 0 <= f v) /\
    total_votes (List.map f voter_counts) <= 100.
Proof.
  intros Hnn Htotal Hmax Hlen. unfold get_vote_percentage.
  rewrite sum_voter_counts_ok by (simpl; try assumption; lia).
  rewrite Z.add_0_l. set (sum := total_votes voter_counts) in *.
  replace (if total_voter_count >? sum then sum else total_voter_count) with sum
    by (destruct (Z.gtb_spec total_voter_count sum); lia).
  pose proof (total_votes_nonneg _ Hnn) as Hsum. fold sum in Hsum.
  destruct (Z.eqb_spec sum 0) as [Hz|Hnz].
  { exists (fun _ => 0). rewrite repeat_zero_map, total_votes_zero.
    repeat split; [lia|lia]. }
  rewrite Z.eqb_refl. cbn [negb].
  assert (Hpos : 0 < sum) by lia.
  pose proof (counts_below_total _ Hnn) as Hbelow. fold sum in Hbelow.
  destruct (floor_percent_sum sum voter_counts Hpos Hbelow) as [Hfs Hfnn].
  fold sum in Hfs. pose proof (total_votes_nonneg _ Hfnn) as Hps.
  assert (Hps100 : total_votes (List.map (floor_percent sum) voter_counts) <= 100) by nia.
  rewrite (floor_percentages_ok sum voter_counts 0)
    by (try assumption; unfold INT32_MAX in *; lia).
  rewrite Z.add_0_l.
  replace (0 <=? total_votes (List.map (floor_percent sum) voter_counts)) with true
    by (symmetry; apply Z.leb_le; lia).
  replace (total_votes (List.map (floor_percent sum) voter_counts) <=? 100) with true
    by (symmetry; apply Z.leb_le; lia).
  cbn [andb].
  assert (Hf0 : forall v, In v voter_counts -> 0 <= floor_percent sum v).
  { intros v Hv. rewrite List.Forall_forall in Hfnn. apply Hfnn. now apply in_map. }
  destruct (Z.eqb_spec (total_votes (List.map (floor_percent sum) voter_counts)) 100) as [H100|Hlt].
  { exists (floor_percent sum). repeat split; [assumption|lia]. }
  destruct (build_options_ok voter_counts [] [] Hlen options_of_nil) as (options & Hbuild & Hopts).
  change (Z.of_nat (length (@nil Z))) with 0 in Hbuild.
  simpl in Hopts. rewrite Hbuild. unfold sub32.
  rewrite to_int32_small by (unfold INT32_MIN, INT32_MAX; lia).
  destruct (distribute_ok voter_counts
              (get_sorted_options (List.map (gap_of sum) voter_counts)
                 (List.map (floor_percent sum) voter_counts) sum options)
              (sorted_options_ok _ _ _ _ _ Hopts)
              (100 - total_votes (List.map (floor_percent sum) voter_counts))
              (floor_percent sum) Hf0) as (f' & Hres & Hf' & Hsum'); [lia|lia|].
  exists f'. rewrite Hres. repeat split; assumption.
Qed.

(** C1.  For non-negative counts and a total that is at least their sum
    (both within [int32], as is the length of the vector), the call
    returns a vector of the same length whose entries lie in [0,100] and
    sum to at most 100, and two positions with equal counts receive equal
    percentages. *)
Theorem get_vote_percentage_fair voter_counts total_voter_count :
  List.Forall (fun v => 0 <= v) voter_counts ->
  total_votes voter_counts <= total_voter_count -> total_voter_count <= INT32_MAX ->
  Z.of_nat (length voter_counts) <= INT32_MAX ->
  exists result,
    get_vote_percentage voter_counts total_voter_count = Some result /\
    length result = length voter_counts /\
    List.Forall (fun p => 0 <= p <= 100) result /\
    total_votes result <= 100 /\
    forall i j : nat, voter_counts !! i = voter_counts !! j -> result !! i = result !! j.
Proof.
  intros Hnn Htotal Hmax Hlen.
  destruct (get_vote_percentage_by_count _ _ Hnn Htotal Hmax Hlen) as (f & Hres & Hf & Hsum).
  exists (List.map f voter_counts). split; [assumption|].
  assert (Hall : List.Forall (fun p => 0 <= p) (List.map f voter_counts)).
  { apply List.Forall_forall. intros p (v & <- & Hv)%in_map_iff. now apply Hf. }
  repeat split.
  - apply length_map.
  - apply List.Forall_forall. intros p Hp. split.
    + rewrite List.Forall_forall in Hall. now apply Hall.
    + pose proof (total_votes_bound _ p Hall Hp). lia.
  - assumption.
  - intros i j Hij. change (List.map f voter_counts) with (f <$> voter_counts).
    now rewrite !list_lookup_fmap, Hij.
Qed.

End VotePercentageFacts.

Lemma get_vote_percentage_fair_witness :
  exists result,
    get_vote_percentage (lib := insertion_order_library) [2; 1; 1; 1; 1; 1] 7 = Some result /\
    length result = 6%nat /\
    List.Forall (fun p => 0 <= p <= 100) result /\
    total_votes result <= 100 /\
    forall i j : nat,
      [2; 1; 1; 1; 1; 1] !! i = [2; 1; 1; 1; 1; 1] !! j -> result !! i = result !! j.
Proof.
  apply (get_vote_percentage_fair (lib := insertion_order_library) [2; 1; 1; 1; 1; 1] 7).
  - repeat constructor; discriminate.
  - vm_compute. discriminate.
  - vm_compute. discriminate.
  - vm_compute. discriminate.
Defined.

Lemma round_to_nearest_bounds total v :
  0 < total <= INT32_MAX -> 0 <= v <= total -> 0 <= round_to_nearest total v <= 100.
Proof.
  intros Ht Hv. unfold round_to_nearest.
  rewrite (Z.quot_div_nonneg (v * 200 + total) total) by lia.
  assert (H1 : 0 <= (v * 200 + total) / total) by (apply Z.div_pos; lia).
  assert (H2 : (v * 200 + total) / total <= 201) by (apply Z.div_le_upper_bound; lia).
  rewrite Z.quot_div_nonneg by lia.
  assert (H3 : 0 <= (v * 200 + total) / total / 2) by (apply Z.div_pos; lia).
  assert (H4 : (v * 200 + total) / total / 2 < 101) by (apply Z.div_lt_upper_bound; lia).
  rewrite to_int32_small by (unfold INT32_MIN, INT32_MAX; lia). lia.
Qed.

Section AnyTotal.
Context {lib : StdLibrary} {laws : StdLibraryLaws lib}.

(** C6, as amended.  For non-negative counts and any total (all within
    [int32]) the call returns a vector of the same length; its entries lie
    in [0,100] and sum to at most 100 when the total is zero or at least
    the sum of the counts; in the rounding branch, entered when the total
    is positive and below the sum, an entry lies in [0,100] wherever the
    count does not exceed the total, and nothing is said of the sum. *)
Theorem get_vote_percentage_any_total voter_counts total_voter_count :
  List.Forall (fun v => 0 <= v) voter_counts ->
  total_votes voter_counts <= INT32_MAX -> total_voter_count <= INT32_MAX ->
  Z.of_nat (length voter_counts) <= INT32_MAX ->
  exists result,
    get_vote_percentage voter_counts total_voter_count = Some result /\
    length result = length voter_counts /\
    (total_voter_count = 0 \/ total_votes voter_counts <= total_voter_count ->
     List.Forall (fun p => 0 <= p <= 100) result /\ total_votes result <= 100) /\
    (0 < total_voter_count < total_votes voter_counts ->
     List.Forall2 (fun v p => v <= total_voter_count -> 0 <= p <= 100) voter_counts result).
Proof.
  intros Hnn Hsum Hmax Hlen.
  destruct (Z.le_gt_cases (total_votes voter_counts) total_voter_count) as [Hge|Hlt].
  { destruct (get_vote_percentage_by_count _ _ Hnn Hge Hmax Hlen) as (f & Hres & Hf & Hs).
    exists (List.map f voter_counts). split; [assumption|]. split; [apply length_map|].
    split; [|lia]. intros _.
    assert (Hall : List.Forall (fun p => 0 <= p) (List.map f voter_counts)).
    { apply List.Forall_forall. intros p (v & <- & Hv)%in_map_iff. now apply Hf. }
    split; [|assumption].
    apply List.Forall_forall. intros p Hp. split.
    - rewrite List.Forall_forall in Hall. now apply Hall.
    - pose proof (total_votes_bound _ p Hall Hp). lia. }
  unfold get_vote_percentage.
  rewrite sum_voter_counts_ok by (simpl; try assumption; lia).
  rewrite Z.add_0_l.
  replace (total_voter_count >? total_votes voter_counts) with false
    by (symmetry; rewrite Z.gtb_ltb; apply Z.ltb_ge; lia).
  destruct (Z.eqb_spec total_voter_count 0) as [Hz|Hnz].
  { exists (repeat 0 (length voter_counts)). split; [reflexivity|].
    split; [apply repeat_length|]. split; [|lia]. intros _.
    rewrite repeat_zero_map, total_votes_zero. split; [|lia].
    apply List.Forall_forall. intros p (v & <- & Hv)%in_map_iff. lia. }
  replace (total_voter_count =? total_votes voter_counts) with false
    by (symmetry; apply Z.eqb_neq; lia).
  cbn [negb]. eexists. split; [reflexivity|]. split; [apply length_map|].
  split; [lia|]. intros [Hpos _].
  clear Hsum Hlen Hlt. induction Hnn as [|v l Hv Hl IH]; simpl; constructor.
  - intros Hle. apply round_to_nearest_bounds; lia.
  - apply IH.
Qed.

End AnyTotal.

Lemma get_vote_percentage_any_total_witness :
  exists result,
    get_vote_percentage (lib := insertion_order_library) [1; 1; 1] 2 = Some result /\
    length result = 3%nat /\
    (2 = 0 \/ total_votes [1; 1; 1] <= 2 ->
     List.Forall (fun p => 0 <= p <= 100) result /\ total_votes result <= 100) /\
    (0 < 2 < total_votes [1; 1; 1] ->
     List.Forall2 (fun v p => v <= 2 -> 0 <= p <= 100) [1; 1; 1] result).
Proof.
  apply (get_vote_percentage_any_total (lib := insertion_order_library) [1; 1; 1] 2).
  - repeat constructor; discriminate.
  - vm_compute. discriminate.
  - vm_compute. discriminate.
  - vm_compute. discriminate.
Defined.

(** C6, counterexample.  Three options with one vote each and a total of
    two voters: every option is rounded to 50 percent and the sum is 150. *)
Lemma get_vote_percentage_sum_above_100 :
  get_vote_percentage (lib := insertion_order_library) [1; 1; 1] 2 = Some [50; 50; 50] /\
  ~ total_votes [50; 50; 50] <= 100.
Proof. split; [reflexivity|]. vm_compute. intros H. now apply H. Qed.

(** ** The order of groups that compare equal *)

Lemma sum_voter_counts_inv l : forall acc s,
  sum_voter_counts l acc = Some s -> acc <= INT32_MAX ->
  List.Forall (fun v => 0 <= v) l /\ s = acc + total_votes l /\ s <= INT32_MAX.
Proof.
  induction l as [|v l IH]; simpl; intros acc s Hs Hacc.
  - injection Hs as <-. split; [constructor|lia].
  - destruct (Z.leb_spec 0 v); [|discriminate].
    destruct (Z.leb_spec v (INT32_MAX - acc)); [|discriminate]. simpl in Hs.
    destruct (IH _ _ Hs) as (Hl & -> & Hmax); [lia|].
    split; [now constructor|lia].
Qed.

Lemma option_less_asym gap a b : option_less gap a b = true -> option_less gap b a = false.
Proof.
  unfold option_less.
  destruct (Z.eqb_spec (at_pos gap (pos a)) (at_pos gap (pos b)));
    destruct (Z.eqb_spec (at_pos gap (pos b)) (at_pos gap (pos a))); simpl; lia.
Qed.

Lemma option_less_trans gap a b c :
  option_less gap a b = true -> option_less gap b c = true -> option_less gap a c = true.
Proof.
  unfold option_less.
  destruct (Z.eqb_spec (at_pos gap (pos a)) (at_pos gap (pos b)));
    destruct (Z.eqb_spec (at_pos gap (pos b)) (at_pos gap (pos c)));
    destruct (Z.eqb_spec (at_pos gap (pos a)) (at_pos gap (pos c))); simpl;
    rewrite ?Z.gtb_ltb, ?Z.ltb_lt; lia.
Qed.

Lemma option_less_tie gap a b :
  option_less gap a b = false -> option_less gap b a = false ->
  at_pos gap (pos a) = at_pos gap (pos b) /\ count a = count b.
Proof.
  unfold option_less.
  destruct (Z.eqb_spec (at_pos gap (pos a)) (at_pos gap (pos b)));
    destruct (Z.eqb_spec (at_pos gap (pos b)) (at_pos gap (pos a))); simpl;
    rewrite ?Z.gtb_ltb, ?Z.ltb_ge; lia.
Qed.

Lemma filter_perm {A} (f : A -> bool) (l1 l2 : list A) :
  Permutation l1 l2 -> Permutation (List.filter f l1) (List.filter f l2).
Proof.
  induction 1 as [|x l1 l2 _ IH|x y l|l1 l2 l3 _ IH1 _ IH2]; simpl.
  - constructor.
  - destruct (f x); [now constructor|assumption].
  - destruct (f x), (f y); try reflexivity. apply perm_swap.
  - now transitivity (List.filter f l2).
Qed.

(** Two sorted arrangements of the same elements coincide when elements
    that compare equal are equal. *)
Lemma sorted_perm_unique {A} (R : A -> A -> Prop) (l1 : list A) : forall l2,
  Permutation l1 l2 -> StronglySorted R l1 -> StronglySorted R l2 ->
  (forall a b, In a l1 -> In b l1 -> R a b -> R b a -> a = b) ->
  l1 = l2.
Proof.
  induction l1 as [|x l1 IH]; intros l2 Hperm Hs1 Hs2 Huniq.
  - apply Permutation_nil in Hperm. now subst.
  - destruct l2 as [|y l2]; [apply Permutation_sym, Permutation_nil in Hperm; discriminate|].
    inversion Hs1 as [|? ? Hs1' Hx]; subst. inversion Hs2 as [|? ? Hs2' Hy]; subst.
    rewrite List.Forall_forall in Hx, Hy.
    assert (Hxy : x = y).
    { assert (Hin1 : In y (x :: l1)) by (apply (Permutation_in _ (Permutation_sym Hperm)); now left).
      assert (Hin2 : In x (y :: l2)) by (apply (Permutation_in _ Hperm); now left).
      destruct Hin1 as [|Hin1]; [assumption|]. destruct Hin2 as [|Hin2]; [congruence|].
      apply Huniq; [now left|now right|now apply Hx|now apply Hy]. }
    subst y. f_equal. apply IH; try assumption.
    + now apply Permutation_cons_inv in Hperm.
    + intros a b Ha Hb. apply Huniq; now right.
Qed.

Lemma options_key_unique (options : list (Z * Option)) k a b :
  NoDup (List.map fst options) -> In (k, a) options -> In (k, b) options -> a = b.
Proof.
  induction options as [|[k' o] options IH]; simpl; [tauto|].
  intros [Hnotin Hnd]%NoDup_cons [Ha|Ha] [Hb|Hb].
  - congruence.
  - injection Ha as -> ->. exfalso. apply Hnotin, list_elem_of_In.
    change k with (fst (k, b)). now apply in_map.
  - injection Hb as -> ->. exfalso. apply Hnotin, list_elem_of_In.
    change k with (fst (k, a)). now apply in_map.
  - now apply IH.
Qed.

Lemma at_pos_map (g : Z -> Z) l p :
  0 <= p < Z.of_nat (length l) -> at_pos (List.map g l) p = g (at_pos l p).
Proof.
  intros Hp. unfold at_pos.
  rewrite (nth_indep _ 0 (g 0)) by (rewrite length_map; lia).
  apply map_nth.
Qed.

Lemma at_pos_In l p : 0 <= p < Z.of_nat (length l) -> In (at_pos l p) l.
Proof. intros Hp. unfold at_pos. apply nth_In. lia. Qed.

Lemma get_sorted_options_unique (lib1 lib2 : StdLibrary)
    {laws1 : StdLibraryLaws lib1} {laws2 : StdLibraryLaws lib2}
    voter_counts total result options :
  options_of voter_counts options ->
  no_tied_groups voter_counts -> total = total_votes voter_counts ->
  get_sorted_options (lib := lib1) (List.map (gap_of total) voter_counts) result total options =
  get_sorted_options (lib := lib2) (List.map (gap_of total) voter_counts) result total options.
Proof.
  intros (Hnd & _ & Hall) Hties ->. unfold get_sorted_options.
  set (gap := List.map (gap_of (total_votes voter_counts)) voter_counts).
  apply (sorted_perm_unique (fun a b => option_less gap b a = false)).
  - rewrite !std_sort_perm. apply filter_perm, Permutation_map.
    now rewrite !unordered_map_order_perm.
  - apply std_sort_sorted; [apply option_less_asym|apply option_less_trans].
  - apply std_sort_sorted; [apply option_less_asym|apply option_less_trans].
  - assert (Hentry : forall o,
      In o (std_sort (StdLibrary := lib1) (option_less gap)
              (List.filter (is_kept gap result (total_votes voter_counts))
                 (List.map snd (unordered_map_order (StdLibrary := lib1) options)))) ->
      exists k, In (k, o) options /\ entry_ok voter_counts (k, o)).
    { intros o Ho. apply (Permutation_in _ (std_sort_perm _ _)) in Ho.
      apply filter_In in Ho as [Ho _]. apply in_map_iff in Ho as ([k o'] & <- & Ho).
      apply (Permutation_in _ (unordered_map_order_perm _)) in Ho.
      exists k. split; [assumption|]. rewrite List.Forall_forall in Hall. now apply Hall. }
    intros a b Ha Hb Hba Hab.
    destruct (Hentry a Ha) as (ka & Hina & Hca & Hpa & Hka).
    destruct (Hentry b Hb) as (kb & Hinb & Hcb & Hpb & Hkb).
    simpl in *.
    destruct (option_less_tie gap a b Hab Hba) as [Hgap Hcount].
    unfold gap in Hgap. rewrite !at_pos_map, Hka, Hkb in Hgap by assumption.
    destruct (Z.eq_dec ka kb) as [->|Hne]; [now apply (options_key_unique options kb)|].
    assert (Hva : In ka voter_counts) by (rewrite <- Hka; now apply at_pos_In).
    assert (Hvb : In kb voter_counts) by (rewrite <- Hkb; now apply at_pos_In).
    destruct (Hties ka kb Hva Hvb Hne); congruence.
Qed.

(** The source orders two groups by gap and by number of options only.
    When no two distinct counts agree on both, the result is the same
    whatever order the standard library enumerates the hash map in and
    however its sort arranges equal elements. *)
Lemma get_vote_percentage_library_independent (lib1 lib2 : StdLibrary)
    {laws1 : StdLibraryLaws lib1} {laws2 : StdLibraryLaws lib2}
    voter_counts total_voter_count :
  Z.of_nat (length voter_counts) <= INT32_MAX ->
  no_tied_groups voter_counts ->
  get_vote_percentage (lib := lib1) voter_counts total_voter_count =
  get_vote_percentage (lib := lib2) voter_counts total_voter_count.
Proof.
  intros Hlen Hties. unfold get_vote_percentage.
  destruct (sum_voter_counts voter_counts 0) as [sum|] eqn:Hsum; [|reflexivity].
  apply sum_voter_counts_inv in Hsum as (Hnn & Hsum & Hmax); [|discriminate].
  rewrite Z.add_0_l in Hsum.
  set (total := if total_voter_count >? sum then sum else total_voter_count).
  destruct (Z.eqb_spec total 0) as [|Hnz]; [reflexivity|].
  destruct (Z.eqb_spec total sum) as [Heq|]; [|reflexivity]. cbn [negb].
  pose proof (total_votes_nonneg _ Hnn) as Hpos.
  destruct (floor_percentages voter_counts total 0) as [[[result gap] percent_sum]|] eqn:Hfloor;
    [|reflexivity].
  destruct ((0 <=? percent_sum) && (percent_sum <=? 100)); [|reflexivity].
  destruct (percent_sum =? 100); [reflexivity|].
  destruct (build_options_ok voter_counts [] [] Hlen options_of_nil) as (options & Hbuild & Hopts).
  change (Z.of_nat (length (@nil Z))) with 0 in Hbuild. simpl in Hopts. rewrite Hbuild.
  assert (Hgap : gap = List.map (gap_of total) voter_counts).
  { assert (Hbelow : List.Forall (fun v => 0 <= v <= total) voter_counts)
      by (rewrite Heq, Hsum; now apply counts_below_total).
    destruct (floor_percent_sum total voter_counts) as [Hfs Hfnn]; [lia|assumption|].
    apply total_votes_nonneg in Hfnn.
    rewrite floor_percentages_ok in Hfloor;
      [congruence|lia|lia|assumption|lia|unfold INT32_MAX in *; nia]. }
  subst gap. f_equal. f_equal.
  apply (get_sorted_options_unique lib1 lib2); [assumption|assumption|lia].
Qed.

Lemma get_vote_percentage_library_independent_witness :
  get_vote_percentage (lib := insertion_order_library) [2; 1; 1; 1; 1; 1] 7 =
  get_vote_percentage (lib := reverse_order_library) [2; 1; 1; 1; 1; 1] 7.
Proof.
  apply (get_vote_percentage_library_independent
           insertion_order_library reverse_order_library [2; 1; 1; 1; 1; 1] 7).
  - vm_compute. discriminate.
  - intros v w Hv Hw Hne. simpl in Hv, Hw.
    assert (Hv' : v = 2 \/ v = 1) by lia. assert (Hw' : w = 2 \/ w = 1) by lia.
    destruct Hv' as [-> | ->], Hw' as [-> | ->]; try congruence; right; vm_compute; discriminate.
Defined.



(** The hypothesis on ties cannot be dropped from the comparison of two
    libraries.  With counts 1, 3 and 196 the groups of the first two
    options have the same gap (100) and one option each, and one percent
    is left to give: under the library that enumerates the hash map in
    the order of insertion the second option receives it, under the one
    that enumerates it in reverse the first. *)
Lemma get_vote_percentage_tie_order :
  get_vote_percentage (lib := insertion_order_library) [1; 3; 196] 200 = Some [0; 2; 98] /\
  get_vote_percentage (lib := reverse_order_library) [1; 3; 196] 200 = Some [1; 1; 98] /\
  get_vote_percentage (lib := insertion_order_library) [1; 3; 196] 200 <>
  get_vote_percentage (lib := reverse_order_library) [1; 3; 196] 200.
Proof. repeat split; try reflexivity. vm_compute. discriminate. Qed.

(** The polling interval lies between 70 and 100 percent of 60 when online
    and of 1800 when offline, for each of the 31 values of the draw. *)
Lemma get_polling_timeout_range (online : bool) (random : Z) :
  70 <= random <= 100 ->
  ((7 # 10) * (if online then 60 else 1800) <= get_polling_timeout online random)%Q /\
  (get_polling_timeout online random <= (if online then 60 else 1800))%Q.
Proof.
  intros Hr.
  assert (Hdraw : In random [70; 71; 72; 73; 74; 75; 76; 77; 78; 79; 80; 81; 82; 83; 84; 85;
                             86; 87; 88; 89; 90; 91; 92; 93; 94; 95; 96; 97; 98; 99; 100]).
  { assert (Hk : exists k : nat, (k <= 30)%nat /\ random = 70 + Z.of_nat k)
      by (exists (Z.to_nat (random - 70)); lia).
    destruct Hk as (k & Hk & ->).
    do 31 (destruct k as [|k]; [simpl; tauto|]). lia. }
  simpl in Hdraw.
  destruct online;
    repeat (destruct Hdraw as [<-|Hdraw]; [vm_compute; split; discriminate|]);
    contradiction.
Qed.

(** ** Facts about the poll manager *)

Lemma for_each_emit {A} (f : A -> Event) (l : list A) s events :
  for_each l (fun x => emit (f x)) s events = Some (tt, s, events ++ List.map f l).
Proof.
  revert events. induction l as [|x l IH]; intros events; simpl.
  - now rewrite app_nil_r.
  - unfold mbind, M_bind, emit at 1. rewrite IH. now rewrite <- app_assoc.
Qed.

Section ManagerFacts.
Variable env : Environment.

(** C7.  Stopping a poll that is not local and is already closed sets the
    promise and does nothing else: the state, with the poll, the
    generation counter and the binlog, is the one before the call, and the
    promise is the only event. *)
Theorem stop_poll_already_closed s poll_id full_message_id promise poll :
  is_local_poll_id poll_id = false ->
  polls_ s !! poll_id = Some poll ->
  is_closed poll = true ->
  run (stop_poll env poll_id full_message_id promise) s = Some (tt, s, [PromiseSetValue promise]).
Proof.
  intros Hlocal Hpoll Hclosed. unfold run, stop_poll. rewrite Hlocal.
  unfold mbind, M_bind, get_poll_editable, get_poll, gets. rewrite Hpoll, Hclosed.
  reflexivity.
Qed.

(** C3.  A response for a poll without pending answer, or with a
    generation other than the one of the poll's pending answer, leaves
    the state (polls, pending answers with their promises, binlog) as it
    was and emits nothing. *)
Theorem on_set_poll_answer_stale s poll_id generation result :
  pending_answers_waiting s ->
  (pending_answers_ s !! poll_id = None \/
   exists pending_answer, pending_answers_ s !! poll_id = Some pending_answer /\
                          generation_ pending_answer <> generation) ->
  run (on_set_poll_answer env poll_id generation result) s = Some (tt, s, []).
Proof.
  intros Hwait Hstale. unfold run, on_set_poll_answer.
  destruct (close_flag env && is_error result); [reflexivity|].
  unfold mbind, M_bind, gets.
  destruct Hstale as [Hnone|(pending_answer & Hsome & Hgen)].
  - now rewrite Hnone.
  - rewrite Hsome. unfold CHECK.
    rewrite bool_decide_eq_false_2 by (now apply (Hwait poll_id)). simpl.
    now replace (generation_ pending_answer =? generation) with false
      by (symmetry; now apply Z.eqb_neq).
Qed.

(** C9.  For an account that is not a bot and a draw between 70 and 100:
    a failed fetch for an open poll adds a timeout with a new polling
    interval, which is positive and lies between 70 and 100 percent of 60
    when online and of 1800 when offline; a successful fetch whose
    generation is not the current one sets the timeout of an open poll to
    zero; and in both cases nothing is scheduled for a closed poll. *)
Theorem on_get_poll_results_rearms s random poll_id generation poll :
  is_bot env = false ->
  polls_ s !! poll_id = Some poll ->
  70 <= random <= 100 ->
  let interval := get_polling_timeout (is_online env) random in
  (forall status,
     run (on_get_poll_results env random poll_id generation (Error status)) s =
       Some (tt, s, if is_closed poll then [] else [AddTimeoutIn poll_id interval])) /\
  (0 < interval)%Q /\
  ((7 # 10) * (if is_online env then 60 else 1800) <= interval)%Q /\
  (interval <= (if is_online env then 60 else 1800))%Q /\
  (forall updates, generation <> current_generation_ s ->
     run (on_get_poll_results env random poll_id generation (Ok updates)) s =
       Some (tt, s, if is_closed poll then [] else [SetTimeoutIn poll_id 0%Q])).
Proof.
  intros Hbot Hpoll Hdraw interval. subst interval.
  destruct (get_polling_timeout_range (is_online env) random Hdraw) as [Hlow Hhigh].
  split; [|split; [|split; [exact Hlow|split; [exact Hhigh|]]]].
  - intros status. unfold run, on_get_poll_results, get_poll_is_closed, get_poll.
    unfold mbind, M_bind, gets. rewrite Hpoll, Hbot. simpl.
    now destruct (is_closed poll).
  - eapply Qlt_le_trans; [|exact Hlow]. now destruct (is_online env).
  - intros updates Hgen. unfold run, on_get_poll_results, get_poll_is_closed, get_poll.
    unfold mbind, M_bind, gets.
    replace (generation =? current_generation_ s) with false
      by (symmetry; now apply Z.eqb_neq).
    simpl. rewrite Hpoll, Hbot. simpl. now destruct (is_closed poll).
Qed.

End ManagerFacts.

Lemma notify_on_poll_update_run poll_id s events :
  notify_on_poll_update poll_id s events =
    Some (tt, s, events ++ List.map OnUpdateMessageContent (default [] (poll_messages_ s !! poll_id))).
Proof.
  unfold notify_on_poll_update, mbind, M_bind, gets.
  destruct (poll_messages_ s !! poll_id) as [messages|]; simpl.
  - apply for_each_emit.
  - now rewrite app_nil_r.
Qed.

Lemma emit_run event s events : emit event s events = Some (tt, s, events ++ [event]).
Proof. reflexivity. Qed.

(** Runs the straight-line part of a computation. *)
Ltac run_manager :=
  cbv [mbind M_bind CHECK gets modify mret M_ret binlog_rewrite binlog_add binlog_erase
       negb andb orb];
  repeat (first [ rewrite emit_run | rewrite for_each_emit | rewrite notify_on_poll_update_run ];
          cbv beta iota).

Section AnswerFacts.
Variable env : Environment.

(** The state and the events after each of the three paths of
    [do_set_poll_answer], for a call made by [set_poll_answer]. *)
Lemma do_set_poll_answer_joins s poll_id full_message_id options logevent_id promise
    pending_answer :
  pending_answers_ s !! poll_id = Some pending_answer ->
  promises_ pending_answer <> [] ->
  options_ pending_answer = options ->
  run (do_set_poll_answer env poll_id full_message_id options logevent_id promise) s =
    Some (tt,
          set_pending_answers (fun pending =>
            <[poll_id := mkPendingAnswer (options_ pending_answer)
                           (promises_ pending_answer ++ [promise])
                           (generation_ pending_answer) (logevent_id_ pending_answer)
                           (query_ref_ pending_answer)]> pending) s,
          []).
Proof.
  intros Hsome Hwait Hsame. unfold run, do_set_poll_answer.
  unfold mbind at 1, M_bind at 1, gets at 1. rewrite Hsome.
  change (default new_PendingAnswer (Some pending_answer)) with pending_answer.
  rewrite (bool_decide_eq_false_2 (promises_ pending_answer = [])) by assumption.
  rewrite (bool_decide_eq_true_2 (options_ pending_answer = options)) by assumption.
  reflexivity.
Qed.

Lemma do_set_poll_answer_replaces s poll_id full_message_id options promise
    pending_answer query :
  pending_answers_ s !! poll_id = Some pending_answer ->
  pending_answer_ok env s pending_answer ->
  query_ref_ pending_answer = Some query ->
  options_ pending_answer <> options ->
  let logevent := SetPollAnswerLogEvent poll_id full_message_id options in
  let generation := incr64 (current_generation_ s) in
  run (do_set_poll_answer env poll_id full_message_id options 0 promise) s =
    Some (tt,
          set_pending_answers (fun pending =>
            <[poll_id := mkPendingAnswer options [promise] generation
                           (if use_message_db env then logevent_id_ pending_answer else 0)
                           None]> pending)
            (set_current_generation generation
               (if use_message_db env
                then set_binlog (fun b => <[logevent_id_ pending_answer := logevent]> b)
                       (binlog_last_id_ s) s
                else s)),
          CancelQuery query :: List.map PromiseSetValue (promises_ pending_answer) ++
          List.map OnUpdateMessageContent (default [] (poll_messages_ s !! poll_id)) ++
          [SetPollAnswerActorSend poll_id full_message_id options generation]).
Proof.
  intros Hsome (Hwait & Hpg & Hle) Hquery Hdiff. unfold run, do_set_poll_answer.
  unfold mbind at 1, M_bind at 1, gets at 1. rewrite Hsome.
  change (default new_PendingAnswer (Some pending_answer)) with pending_answer.
  rewrite (bool_decide_eq_false_2 (promises_ pending_answer = [])) by assumption.
  rewrite (bool_decide_eq_false_2 (options_ pending_answer = options)) by assumption.
  cbn [negb andb orb]. rewrite Hquery.
  replace (generation_ pending_answer =? 0) with false by (symmetry; apply Z.eqb_neq; lia).
  rewrite Z.eqb_refl, orb_true_r. cbn [andb].
  destruct (use_message_db env) eqn:Hdb.
  - replace (logevent_id_ pending_answer =? 0) with false
      by (symmetry; apply Z.eqb_neq; now apply Hle).
    run_manager. simpl. now rewrite <- !app_assoc.
  - run_manager. simpl. now rewrite <- !app_assoc.
Qed.

Lemma do_set_poll_answer_starts s poll_id full_message_id options promise :
  pending_answers_ s !! poll_id = None ->
  let logevent := SetPollAnswerLogEvent poll_id full_message_id options in
  let generation := incr64 (current_generation_ s) in
  let logevent_id := binlog_last_id_ s + 1 in
  run (do_set_poll_answer env poll_id full_message_id options 0 promise) s =
    Some (tt,
          set_pending_answers (fun pending =>
            <[poll_id := mkPendingAnswer options [promise] generation
                           (if use_message_db env then logevent_id else 0) None]> pending)
            (set_current_generation generation
               (if use_message_db env
                then set_binlog (fun b => <[logevent_id := logevent]> b) logevent_id s
                else s)),
          List.map OnUpdateMessageContent (default [] (poll_messages_ s !! poll_id)) ++
          [SetPollAnswerActorSend poll_id full_message_id options generation]).
Proof.
  intros Hnone. unfold run, do_set_poll_answer.
  unfold mbind at 1, M_bind at 1, gets at 1. rewrite Hnone.
  change (default new_PendingAnswer None) with new_PendingAnswer.
  cbn [promises_ options_ generation_ logevent_id_ query_ref_ new_PendingAnswer].
  rewrite (bool_decide_eq_true_2 (@nil Promise = [])) by reflexivity.
  cbn [negb andb orb]. rewrite !Z.eqb_refl. cbn [andb orb].
  destruct (use_message_db env) eqn:Hdb.
  - run_manager. simpl. reflexivity.
  - run_manager. simpl. reflexivity.
Qed.

(** C2.  While a submission with options [O] is in flight, a submission
    with other options sets every promise of the first (none receives an
    error) and leaves one pending answer for the poll: it holds the new
    options and the new promise, and its generation, the current one, is
    larger than that of the first.  The generation counter is assumed not
    to be at its last value. *)
Theorem do_set_poll_answer_supersedes s poll_id full_message_id options promise
    pending_answer query :
  state_ok env s ->
  current_generation_ s + 1 < UINT64_MOD ->
  pending_answers_ s !! poll_id = Some pending_answer ->
  query_ref_ pending_answer = Some query ->
  options_ pending_answer <> options ->
  exists s' events pending_answer',
    run (do_set_poll_answer env poll_id full_message_id options 0 promise) s =
      Some (tt, s', events) /\
    (forall old_promise, In old_promise (promises_ pending_answer) ->
       In (PromiseSetValue old_promise) events) /\
    (forall any_promise status, ~ In (PromiseSetError any_promise status) events) /\
    pending_answers_ s' !! poll_id = Some pending_answer' /\
    options_ pending_answer' = options /\
    promises_ pending_answer' = [promise] /\
    generation_ pending_answer < generation_ pending_answer' /\
    generation_ pending_answer' = current_generation_ s'.
Proof.
  intros (Hgen & Hlog & Hall) Hnowrap Hsome Hquery Hdiff.
  pose proof (Hall _ _ Hsome) as Hok. pose proof Hok as (Hwait & Hpg & Hle).
  assert (Hincr : incr64 (current_generation_ s) = current_generation_ s + 1).
  { unfold incr64, to_uint64. apply Z.mod_small. lia. }
  eexists _, _, _. split.
  { apply (do_set_poll_answer_replaces s poll_id full_message_id options promise
             pending_answer query); assumption. }
  split; [|split; [|split; [|split; [|split; [|split]]]]].
  - intros old_promise Hold. right. apply in_or_app. left. now apply in_map.
  - intros any_promise status [Hin|Hin]; [discriminate|].
    rewrite !in_app_iff, !in_map_iff in Hin.
    destruct Hin as [(? & ? & _)|[(? & ? & _)|[?|[]]]]; discriminate.
  - simpl. apply lookup_insert_eq.
  - reflexivity.
  - reflexivity.
  - simpl. lia.
  - simpl. reflexivity.
Qed.
Lemma to_uint64_index option_id size :
  in_int32 option_id -> 0 <= size <= INT32_MAX ->
  option_id < 0 \/ size <= option_id -> (to_uint64 option_id >=? size) = true.
Proof.
  unfold in_int32, INT32_MIN, INT32_MAX, to_uint64, UINT64_MOD. intros Hid Hsize Hout.
  apply Z.geb_le. destruct (Z.lt_ge_cases option_id 0) as [Hneg|Hpos].
  - rewrite <- (Z.mod_unique option_id 18446744073709551616 (-1)
                  (option_id + 18446744073709551616)); lia.
  - rewrite Z.mod_small; lia.
Qed.

Lemma get_option_data_out_of_range poll_options option_ids :
  List.Forall in_int32 option_ids ->
  Z.of_nat (length poll_options) <= INT32_MAX ->
  List.Exists (fun option_id => option_id < 0 \/ Z.of_nat (length poll_options) <= option_id)
    option_ids ->
  get_option_data poll_options option_ids = None.
Proof.
  intros Hids Hsize. induction Hids as [|option_id rest Hid Hrest IH]; intros Hout.
  - inversion Hout.
  - simpl. destruct (to_uint64 option_id >=? Z.of_nat (length poll_options)) eqn:Hge;
      [reflexivity|].
    apply Exists_cons in Hout as [Hout|Hout].
    + rewrite to_uint64_index in Hge; [discriminate|assumption|lia|assumption].
    + rewrite (IH Hout). now destruct (poll_options !! Z.to_nat (to_uint64 option_id)).
Qed.

(** C4.  A call with more than one option identifier, for a local poll,
    for a closed poll, or with an identifier outside the poll's options,
    sets an error on the promise and does nothing else: the state is the
    one before the call and the error is the only event, so that no
    request is sent. *)
Theorem set_poll_answer_rejects s poll_id full_message_id option_ids promise :
  List.Forall in_int32 option_ids ->
  (1 < length option_ids)%nat \/
  is_local_poll_id poll_id = true \/
  (exists poll, polls_ s !! poll_id = Some poll /\
     (is_closed poll = true \/
      Z.of_nat (length (options poll)) <= INT32_MAX /\
      List.Exists (fun option_id =>
        option_id < 0 \/ Z.of_nat (length (options poll)) <= option_id) option_ids)) ->
  exists status,
    run (set_poll_answer env poll_id full_message_id option_ids promise) s =
      Some (tt, s, [PromiseSetError promise status]).
Proof.
  intros Hids Hcases. unfold run, set_poll_answer.
  destruct (Z.ltb_spec 1 (Z.of_nat (length option_ids))) as [|Hone]; [eexists; reflexivity|].
  destruct (is_local_poll_id poll_id) eqn:Hlocal; [eexists; reflexivity|].
  destruct Hcases as [Hmany|[Hloc|(poll & Hpoll & Hbad)]]; [lia|discriminate|].
  unfold mbind, M_bind, get_poll, gets. rewrite Hpoll.
  destruct (is_closed poll) eqn:Hclosed; [eexists; reflexivity|].
  destruct Hbad as [Hbad|[Hsize Hbad]]; [discriminate|].
  rewrite get_option_data_out_of_range by assumption.
  eexists; reflexivity.
Qed.

Lemma do_set_poll_answer_stops s poll_id full_message_id options promise pending_answer :
  pending_answers_ s !! poll_id = Some pending_answer ->
  pending_answer_ok env s pending_answer ->
  query_ref_ pending_answer = None ->
  options_ pending_answer <> options ->
  run (do_set_poll_answer env poll_id full_message_id options 0 promise) s = None.
Proof.
  intros Hsome (Hwait & Hpg & Hle) Hquery Hdiff. unfold run, do_set_poll_answer.
  unfold mbind at 1, M_bind at 1, gets at 1. rewrite Hsome.
  change (default new_PendingAnswer (Some pending_answer)) with pending_answer.
  rewrite (bool_decide_eq_false_2 (promises_ pending_answer = [])) by assumption.
  rewrite (bool_decide_eq_false_2 (options_ pending_answer = options)) by assumption.
  cbn [negb andb orb]. rewrite Hquery.
  replace (generation_ pending_answer =? 0) with false by (symmetry; apply Z.eqb_neq; lia).
  rewrite Z.eqb_refl, orb_true_r. cbn [andb].
  destruct (use_message_db env) eqn:Hdb.
  - replace (logevent_id_ pending_answer =? 0) with false
      by (symmetry; apply Z.eqb_neq; now apply Hle).
    run_manager. reflexivity.
  - run_manager. reflexivity.
Qed.

(** C10, as amended.  An empty selection for an open poll that is not
    local is not rejected: no promise receives an error.  When a
    submission with the same, empty selection is waiting, the promise
    joins its promises and nothing is sent.  When no submission is
    waiting, or one with other options whose query is registered, a
    request with no option identifier is sent under a new generation.
    When a submission with other options is waiting whose query is not
    registered yet, the [CHECK] of line 603 fails and the call aborts. *)
Theorem set_poll_answer_empty_selection s poll_id full_message_id promise poll :
  state_ok env s ->
  is_local_poll_id poll_id = false ->
  polls_ s !! poll_id = Some poll ->
  is_closed poll = false ->
  (forall pending_answer,
     pending_answers_ s !! poll_id = Some pending_answer -> options_ pending_answer = [] ->
     run (set_poll_answer env poll_id full_message_id [] promise) s =
       Some (tt,
             set_pending_answers (fun pending =>
               <[poll_id := mkPendingAnswer [] (promises_ pending_answer ++ [promise])
                              (generation_ pending_answer) (logevent_id_ pending_answer)
                              (query_ref_ pending_answer)]> pending) s,
             [])) /\
  ((forall pending_answer,
      pending_answers_ s !! poll_id = Some pending_answer ->
      options_ pending_answer <> [] /\ query_ref_ pending_answer <> None) ->
   exists s' events,
     run (set_poll_answer env poll_id full_message_id [] promise) s = Some (tt, s', events) /\
     In (SetPollAnswerActorSend poll_id full_message_id [] (incr64 (current_generation_ s)))
        events /\
     forall any_promise status, ~ In (PromiseSetError any_promise status) events) /\
  (forall pending_answer,
     pending_answers_ s !! poll_id = Some pending_answer ->
     options_ pending_answer <> [] -> query_ref_ pending_answer = None ->
     run (set_poll_answer env poll_id full_message_id [] promise) s = None).
Proof.
  intros (Hgen & Hlog & Hall) Hlocal Hpoll Hopen.
  assert (Hcall : forall s0, set_poll_answer env poll_id full_message_id [] promise s0 =
                    (get_poll poll_id ≫= fun found =>
                       match found with
                       | None => CHECK false
                       | Some poll =>
                           if is_closed poll
                           then emit (PromiseSetError promise (mkStatus 400 "Can't answer closed poll"))
                           else do_set_poll_answer env poll_id full_message_id [] 0 promise
                       end) s0).
  { intros s0. unfold set_poll_answer. now rewrite Hlocal. }
  assert (Hrun : run (set_poll_answer env poll_id full_message_id [] promise) s =
                 run (do_set_poll_answer env poll_id full_message_id [] 0 promise) s).
  { unfold run. rewrite Hcall. unfold mbind, M_bind, get_poll, gets.
    now rewrite Hpoll, Hopen. }
  rewrite Hrun. split; [|split].
  - intros pending_answer Hsome Hempty.
    rewrite (do_set_poll_answer_joins s poll_id full_message_id [] 0 promise pending_answer
               Hsome (proj1 (Hall _ _ Hsome)) Hempty).
    now rewrite Hempty.
  - intros Hother. destruct (pending_answers_ s !! poll_id) as [pending_answer|] eqn:Hsome.
    + destruct (Hother _ eq_refl) as [Hdiff Hquery].
      destruct (query_ref_ pending_answer) as [query|] eqn:Hq; [|congruence].
      eexists _, _. split.
      { apply (do_set_poll_answer_replaces s poll_id full_message_id [] promise
                 pending_answer query); try assumption. now apply (Hall poll_id). }
      split.
      * right. rewrite !in_app_iff. right. right. now left.
      * intros any_promise status [Hin|Hin]; [discriminate|].
        rewrite !in_app_iff, !in_map_iff in Hin.
        destruct Hin as [(? & ? & _)|[(? & ? & _)|[?|[]]]]; discriminate.
    + eexists _, _. split; [now apply do_set_poll_answer_starts|]. split.
      * rewrite in_app_iff. right. now left.
      * intros any_promise status Hin.
        rewrite in_app_iff, in_map_iff in Hin.
        destruct Hin as [(? & ? & _)|[?|[]]]; discriminate.
  - intros pending_answer Hsome Hdiff Hquery.
    apply (do_set_poll_answer_stops s poll_id full_message_id [] promise pending_answer);
      [assumption|now apply (Hall poll_id)|assumption|assumption].
Qed.

End AnswerFacts.

(** ** The invariant is kept *)

Section Invariant.
Variable env : Environment.

Lemma initial_state_ok : state_ok env initial_state.
Proof.
  repeat split; try (vm_compute; congruence).
  all: intros; simpl in *; rewrite lookup_empty in *; discriminate.
Qed.

Lemma state_ok_step s s' :
  state_ok env s ->
  current_generation_ s <= current_generation_ s' < UINT64_MOD ->
  0 <= binlog_last_id_ s' ->
  (forall poll_id pending_answer,
     pending_answers_ s' !! poll_id = Some pending_answer ->
     pending_answers_ s !! poll_id = Some pending_answer \/
     pending_answer_ok env s' pending_answer) ->
  state_ok env s'.
Proof.
  intros (Hgen & Hlog & Hall) Hgen' Hlog' Hstep. split; [lia|]. split; [assumption|].
  intros poll_id pending_answer Hsome.
  destruct (Hstep _ _ Hsome) as [Hold|Hnew]; [|assumption].
  destruct (Hall _ _ Hold) as (Hwait & Hpg & Hle). repeat split; try assumption; lia.
Qed.

(** A submission made through [set_poll_answer] keeps the invariant, as
    long as the generation counter does not wrap around. *)
Lemma do_set_poll_answer_keeps_ok s poll_id full_message_id options promise s' events :
  state_ok env s ->
  current_generation_ s + 1 < UINT64_MOD ->
  run (do_set_poll_answer env poll_id full_message_id options 0 promise) s =
    Some (tt, s', events) ->
  state_ok env s'.
Proof.
  intros Hstate Hnowrap Hrun. pose proof Hstate as (Hgen & Hlog & Hall).
  assert (Hincr : incr64 (current_generation_ s) = current_generation_ s + 1).
  { unfold incr64, to_uint64. apply Z.mod_small. lia. }
  destruct (pending_answers_ s !! poll_id) as [pending_answer|] eqn:Hsome.
  - pose proof (Hall _ _ Hsome) as Hok. pose proof Hok as (Hwait & Hpg & Hle).
    destruct (decide (options_ pending_answer = options)) as [Hsame|Hdiff].
    + rewrite (do_set_poll_answer_joins env s poll_id full_message_id options 0 promise
                 pending_answer Hsome Hwait Hsame) in Hrun.
      injection Hrun as <- <-. apply (state_ok_step s); [assumption|simpl; lia|assumption|].
      intros p pa Hp. simpl in Hp.
      apply lookup_insert_Some in Hp as [[_ <-]|[_ Hp]]; [right|now left].
      repeat split; simpl; try assumption; try lia. now destruct (promises_ pending_answer).
    + destruct (query_ref_ pending_answer) as [query|] eqn:Hquery.
      * rewrite (do_set_poll_answer_replaces env s poll_id full_message_id options promise
                   pending_answer query Hsome Hok Hquery Hdiff) in Hrun.
        injection Hrun as <- <-. rewrite Hincr. apply (state_ok_step s); [assumption|simpl; lia| |].
        { simpl. destruct (use_message_db env); simpl; lia. }
        intros p pa Hp. simpl in Hp.
        apply lookup_insert_Some in Hp as [[_ <-]|[_ Hp]].
        -- right. repeat split; simpl; try discriminate; try lia.
           intros Hdb. rewrite Hdb. now apply Hle.
        -- left. now destruct (use_message_db env).
      * now rewrite (do_set_poll_answer_stops env s poll_id full_message_id options promise
                       pending_answer Hsome Hok Hquery Hdiff) in Hrun.
  - rewrite (do_set_poll_answer_starts env s poll_id full_message_id options promise Hsome)
      in Hrun.
    injection Hrun as <- <-. rewrite Hincr. apply (state_ok_step s); [assumption|simpl; lia| |].
    { simpl. destruct (use_message_db env); simpl; lia. }
    intros p pa Hp. simpl in Hp.
    apply lookup_insert_Some in Hp as [[_ <-]|[_ Hp]].
    + right. repeat split; simpl; try discriminate; try lia.
      intros Hdb. rewrite Hdb. lia.
    + left. now destruct (use_message_db env).
Qed.

(** A response keeps the invariant. *)
Lemma on_set_poll_answer_keeps_ok s poll_id generation result s' events :
  state_ok env s ->
  run (on_set_poll_answer env poll_id generation result) s = Some (tt, s', events) ->
  state_ok env s'.
Proof.
  intros Hok Hrun. pose proof Hok as (Hgen & Hlog & Hall).
  unfold run, on_set_poll_answer in Hrun.
  destruct (close_flag env && is_error result); [now injection Hrun as <- <-|].
  unfold mbind at 1, M_bind at 1, gets at 1 in Hrun.
  destruct (pending_answers_ s !! poll_id) as [pending_answer|] eqn:Hsome;
    [|now injection Hrun as <- <-].
  destruct (Hall _ _ Hsome) as (Hwait & _).
  rewrite (bool_decide_eq_false_2 (promises_ pending_answer = [])) in Hrun by assumption.
  cbn [negb] in Hrun. unfold mbind at 1, M_bind at 1, CHECK at 1 in Hrun.
  destruct (generation_ pending_answer =? generation); cbn [negb] in Hrun;
    [|now injection Hrun as <- <-].
  assert (Hs' : exists s1, current_generation_ s1 = current_generation_ s /\
                           binlog_last_id_ s1 = binlog_last_id_ s /\
                           pending_answers_ s1 = pending_answers_ s /\
                           s' = set_pending_answers (fun pending => delete poll_id pending) s1).
  { destruct (logevent_id_ pending_answer =? 0); cbn [negb] in Hrun; revert Hrun; run_manager;
      destruct result; rewrite for_each_emit; intros [= <- _]; eexists;
      (split; [|split; [|split; [|reflexivity]]]); reflexivity. }
  destruct Hs' as (s1 & Hg1 & Hb1 & Hp1 & ->).
  apply (state_ok_step s); [assumption|simpl; lia|simpl; lia|].
  intros p pa Hp. simpl in Hp. rewrite Hp1 in Hp.
  apply lookup_delete_Some in Hp as [_ Hp]. now left.
Qed.

(** The invariant gives what [on_set_poll_answer] checks before it compares
    generations. *)
Lemma state_ok_waiting s : state_ok env s -> pending_answers_waiting s.
Proof. intros (_ & _ & Hall) poll_id pending_answer Hsome. now destruct (Hall _ _ Hsome). Qed.

End Invariant.

(** ** Further facts about the answer coordinator *)

Section ResponseFacts.
Variable env : Environment.

Lemma on_set_poll_answer_run s poll_id result pending_answer :
  pending_answers_ s !! poll_id = Some pending_answer ->
  promises_ pending_answer <> [] ->
  close_flag env && is_error result = false ->
  run (on_set_poll_answer env poll_id (generation_ pending_answer) result) s =
    Some (tt,
          set_pending_answers (fun pending => delete poll_id pending)
            (if logevent_id_ pending_answer =? 0 then s
             else set_binlog (fun b => delete (logevent_id_ pending_answer) b)
                    (binlog_last_id_ s) s),
          List.map (resolve_promise result) (promises_ pending_answer)).
Proof.
  intros Hsome Hwait Hflag. unfold run, on_set_poll_answer. rewrite Hflag.
  unfold mbind at 1, M_bind at 1, gets at 1. rewrite Hsome.
  rewrite (bool_decide_eq_false_2 (promises_ pending_answer = [])) by assumption.
  rewrite Z.eqb_refl. cbn [negb].
  assert (Hbody : (fun promise : Promise =>
                     match result with
                     | Ok _ => emit (PromiseSetValue promise)
                     | Error status => emit (PromiseSetError promise status)
                     end) = (fun promise => emit (resolve_promise result promise))).
  { destruct result; reflexivity. }
  rewrite Hbody.
  destruct (logevent_id_ pending_answer =? 0); cbn [negb]; run_manager; reflexivity.
Qed.

(** The response of the current generation: unless it is a failure during
    shutdown, which changes nothing, it resolves every waiting promise
    with the result, in order, removes the pending answer of the poll and
    erases its log entry; polls, generation counter and the pending
    answers of other polls stay as they are. *)
Theorem on_set_poll_answer_resolves s poll_id result pending_answer :
  pending_answers_ s !! poll_id = Some pending_answer ->
  promises_ pending_answer <> [] ->
  (close_flag env && is_error result = true ->
   run (on_set_poll_answer env poll_id (generation_ pending_answer) result) s =
     Some (tt, s, [])) /\
  (close_flag env && is_error result = false ->
   exists s',
     run (on_set_poll_answer env poll_id (generation_ pending_answer) result) s =
       Some (tt, s', List.map (resolve_promise result) (promises_ pending_answer)) /\
     pending_answers_ s' = delete poll_id (pending_answers_ s) /\
     binlog_ s' = (if logevent_id_ pending_answer =? 0 then binlog_ s
                   else delete (logevent_id_ pending_answer) (binlog_ s)) /\
     polls_ s' = polls_ s /\
     current_generation_ s' = current_generation_ s).
Proof.
  intros Hsome Hwait. split; intros Hflag.
  - unfold run, on_set_poll_answer. now rewrite Hflag.
  - eexists. split; [now apply on_set_poll_answer_run|].
    destruct (logevent_id_ pending_answer =? 0); repeat split.
Qed.

Lemma get_option_data_single (poll_options : list PollOption) option_id poll_option :
  0 <= option_id <= INT32_MAX ->
  poll_options !! Z.to_nat option_id = Some poll_option ->
  get_option_data poll_options [option_id] = Some [data poll_option].
Proof.
  intros Hid Hlookup. simpl.
  assert (Hlt : (Z.to_nat option_id < length poll_options)%nat)
    by (apply lookup_lt_is_Some; eauto).
  assert (Hindex : to_uint64 option_id = option_id).
  { unfold to_uint64, UINT64_MOD. apply Z.mod_small. unfold INT32_MAX in Hid. lia. }
  rewrite Hindex.
  replace (option_id >=? Z.of_nat (length poll_options)) with false by lia.
  now rewrite Hlookup.
Qed.

(** A vote for one option of an open poll that is not local and has no
    answer pending: the index is translated to the identifier of the
    option, the pending answer is created under the next generation, the
    log entry is appended when the message database is in use, the
    messages of the poll are notified and one request is sent; no promise
    is resolved yet. *)
Theorem set_poll_answer_submits s poll_id full_message_id option_id promise poll poll_option :
  is_local_poll_id poll_id = false ->
  polls_ s !! poll_id = Some poll ->
  is_closed poll = false ->
  0 <= option_id <= INT32_MAX ->
  options poll !! Z.to_nat option_id = Some poll_option ->
  pending_answers_ s !! poll_id = None ->
  let generation := incr64 (current_generation_ s) in
  let logevent_id := if use_message_db env then binlog_last_id_ s + 1 else 0 in
  exists s',
    run (set_poll_answer env poll_id full_message_id [option_id] promise) s =
      Some (tt, s',
            List.map OnUpdateMessageContent (default [] (poll_messages_ s !! poll_id)) ++
            [SetPollAnswerActorSend poll_id full_message_id [data poll_option] generation]) /\
    pending_answers_ s' =
      <[poll_id := mkPendingAnswer [data poll_option] [promise] generation logevent_id None]>
        (pending_answers_ s) /\
    current_generation_ s' = generation /\
    binlog_ s' =
      (if use_message_db env
       then <[logevent_id := SetPollAnswerLogEvent poll_id full_message_id [data poll_option]]>
              (binlog_ s)
       else binlog_ s) /\
    polls_ s' = polls_ s.
Proof.
  intros Hlocal Hpoll Hopen Hid Hoption Hidle generation logevent_id.
  assert (Hrun : run (set_poll_answer env poll_id full_message_id [option_id] promise) s =
                 run (do_set_poll_answer env poll_id full_message_id [data poll_option] 0
                        promise) s).
  { unfold run, set_poll_answer. rewrite Hlocal.
    change (1 <? Z.of_nat (length [option_id])) with false. cbv iota.
    unfold mbind at 1, M_bind at 1, get_poll, gets. rewrite Hpoll, Hopen.
    now rewrite (get_option_data_single _ _ _ Hid Hoption). }
  rewrite Hrun, (do_set_poll_answer_starts env s poll_id full_message_id _ promise Hidle).
  eexists. split; [reflexivity|]. subst generation logevent_id.
  destruct (use_message_db env); repeat split.
Qed.

(** A submission that replaces the one in flight keeps the log entry of
    the poll: no entry is appended, and when the message database is in
    use the entry of the first submission now holds the new options and
    stays the entry of the pending answer. *)
Theorem do_set_poll_answer_rewrites_log s poll_id full_message_id options promise
    pending_answer query :
  pending_answers_ s !! poll_id = Some pending_answer ->
  pending_answer_ok env s pending_answer ->
  query_ref_ pending_answer = Some query ->
  options_ pending_answer <> options ->
  exists s' events pending_answer',
    run (do_set_poll_answer env poll_id full_message_id options 0 promise) s =
      Some (tt, s', events) /\
    binlog_last_id_ s' = binlog_last_id_ s /\
    binlog_ s' =
      (if use_message_db env
       then <[logevent_id_ pending_answer :=
                SetPollAnswerLogEvent poll_id full_message_id options]> (binlog_ s)
       else binlog_ s) /\
    pending_answers_ s' !! poll_id = Some pending_answer' /\
    logevent_id_ pending_answer' =
      (if use_message_db env then logevent_id_ pending_answer else 0).
Proof.
  intros Hsome Hok Hquery Hdiff.
  eexists _, _, (mkPendingAnswer options [promise] (incr64 (current_generation_ s))
                   (if use_message_db env then logevent_id_ pending_answer else 0) None).
  split.
  { now apply (do_set_poll_answer_replaces env s poll_id full_message_id options promise
                 pending_answer query). }
  destruct (use_message_db env); simpl;
    (split; [reflexivity|]; split; [reflexivity|]; split; [apply lookup_insert_eq|reflexivity]).
Qed.

(** A submission with the options of the one in flight emits nothing and
    leaves generation and log alone; the response to the first request
    then resolves the earlier promises and the new one alike. *)
Theorem do_set_poll_answer_shares_result s poll_id full_message_id promise result
    pending_answer :
  pending_answers_ s !! poll_id = Some pending_answer ->
  promises_ pending_answer <> [] ->
  close_flag env && is_error result = false ->
  exists s1 s2,
    run (do_set_poll_answer env poll_id full_message_id (options_ pending_answer) 0 promise) s =
      Some (tt, s1, []) /\
    current_generation_ s1 = current_generation_ s /\
    binlog_ s1 = binlog_ s /\
    run (on_set_poll_answer env poll_id (generation_ pending_answer) result) s1 =
      Some (tt, s2, List.map (resolve_promise result) (promises_ pending_answer ++ [promise])) /\
    pending_answers_ s2 !! poll_id = None.
Proof.
  intros Hsome Hwait Hflag. eexists _, _. split.
  { now apply (do_set_poll_answer_joins env s poll_id full_message_id _ 0 promise
                 pending_answer). }
  split; [reflexivity|]. split; [reflexivity|]. split.
  - match goal with
    | |- run _ ?s1 = _ =>
        pose proof (on_set_poll_answer_run s1 poll_id result
                      (mkPendingAnswer (options_ pending_answer)
                         (promises_ pending_answer ++ [promise])
                         (generation_ pending_answer) (logevent_id_ pending_answer)
                         (query_ref_ pending_answer))) as Hrun
    end.
    simpl in Hrun. rewrite Hrun; [reflexivity|apply lookup_insert_eq| |assumption].
    now destruct (promises_ pending_answer).
  - simpl. destruct (logevent_id_ pending_answer =? 0); simpl; apply lookup_delete_eq.
Qed.

End ResponseFacts.

(** ** Further facts about closing and storing polls *)

Section CloseFacts.
Variable env : Environment.

(** Closing an open poll that is not local: the poll is marked closed, the
    generation moves on, the messages of the poll are notified, the poll
    is stored and the log entry appended when the message database is in
    use, and one request is handed to the actor, whose promise erases the
    log entry before passing the result on.  The caller's promise is not
    resolved yet, pending answers are left alone, and a further call only
    sets its promise. *)
Theorem stop_poll_closes s poll_id full_message_id promise poll :
  is_local_poll_id poll_id = false ->
  polls_ s !! poll_id = Some poll ->
  is_closed poll = false ->
  let closed := mkPoll (question poll) (options poll) (total_voter_count poll) true in
  let logevent_id := if use_message_db env then binlog_last_id_ s + 1 else 0 in
  exists s',
    run (stop_poll env poll_id full_message_id promise) s =
      Some (tt, s',
            List.map OnUpdateMessageContent (default [] (poll_messages_ s !! poll_id)) ++
            [StopPollActorSend full_message_id (EraseLogeventPromise logevent_id promise)]) /\
    polls_ s' = <[poll_id := closed]> (polls_ s) /\
    current_generation_ s' = incr64 (current_generation_ s) /\
    binlog_ s' =
      (if use_message_db env
       then <[logevent_id := StopPollLogEvent poll_id full_message_id]> (binlog_ s)
       else binlog_ s) /\
    database_ s' =
      (if use_message_db env
       then <[get_poll_database_key poll_id := closed]> (database_ s)
       else database_ s) /\
    pending_answers_ s' = pending_answers_ s /\
    forall promise',
      run (stop_poll env poll_id full_message_id promise') s' =
        Some (tt, s', [PromiseSetValue promise']).
Proof.
  intros Hlocal Hpoll Hopen closed logevent_id. subst closed logevent_id.
  unfold run, stop_poll. rewrite Hlocal.
  unfold mbind at 1, M_bind at 1, get_poll_editable, get_poll, gets at 1.
  rewrite Hpoll, Hopen. unfold save_poll, do_stop_poll, get_erase_logevent_promise.
  rewrite Hlocal. rewrite Z.eqb_refl.
  destruct (use_message_db env); run_manager; simpl.
  - eexists. split; [reflexivity|]. repeat split. intros promise'.
    unfold gets. simpl. now rewrite lookup_insert_eq.
  - eexists. split; [reflexivity|]. repeat split. intros promise'.
    unfold gets. simpl. now rewrite lookup_insert_eq.
Qed.

(** Closing a local poll: the draft is marked closed and its messages are
    notified if it was open, and the promise is set; nothing is sent,
    logged or stored, and the generation stays. *)
Theorem stop_poll_local s poll_id full_message_id promise poll :
  is_local_poll_id poll_id = true ->
  polls_ s !! poll_id = Some poll ->
  let closed := mkPoll (question poll) (options poll) (total_voter_count poll) true in
  run (stop_poll env poll_id full_message_id promise) s =
    Some (tt,
          (if is_closed poll then s
           else set_polls (fun polls => <[poll_id := closed]> polls) s),
          (if is_closed poll then []
           else List.map OnUpdateMessageContent (default [] (poll_messages_ s !! poll_id))) ++
          [PromiseSetValue promise]).
Proof.
  intros Hlocal Hpoll closed. subst closed.
  unfold run, stop_poll, stop_local_poll. rewrite Hlocal.
  unfold get_poll_editable, get_poll.
  destruct (is_closed poll) eqn:Hclosed.
  - run_manager. rewrite Hpoll, Hclosed. run_manager. reflexivity.
  - run_manager. rewrite Hpoll, Hclosed. run_manager. simpl. reflexivity.
Qed.

Lemma get_poll_database_key_inj poll_id other :
  get_poll_database_key poll_id = get_poll_database_key other -> poll_id = other.
Proof.
  unfold get_poll_database_key. simpl. intros [= Hkey]. now apply pretty_Z_inj in Hkey.
Qed.

(** A poll that is neither in memory nor in the database is looked up in
    the database once: the failed load is remembered and later calls
    return nothing without reading the database, whatever it holds by
    then. *)
Theorem get_poll_force_remembers_miss s poll_id :
  use_message_db env = true ->
  polls_ s !! poll_id = None ->
  poll_id ∉ loaded_from_database_polls_ s ->
  database_ s !! get_poll_database_key poll_id = None ->
  exists s',
    run (get_poll_force env poll_id) s = Some (None, s', []) /\
    polls_ s' = polls_ s /\
    forall s2,
      polls_ s2 = polls_ s' ->
      loaded_from_database_polls_ s2 = loaded_from_database_polls_ s' ->
      run (get_poll_force env poll_id) s2 = Some (None, s2, []).
Proof.
  intros Hdb Hnone Hfresh Hmiss. unfold run, get_poll_force, on_load_poll_from_database.
  unfold get_poll_editable, get_poll, have_poll, get_poll. rewrite Hdb.
  run_manager. rewrite Hnone. run_manager.
  rewrite (bool_decide_eq_false_2 _ Hfresh). simpl. rewrite Hmiss, Hnone.
  rewrite bool_decide_eq_false_2 by (intros [? [=]]). simpl. rewrite Hnone.
  eexists. split; [reflexivity|]. split; [reflexivity|].
  intros s2 Hpolls Hloaded. simpl in Hpolls, Hloaded. rewrite Hpolls, Hnone, Hloaded.
  rewrite bool_decide_eq_true_2
    by (apply elem_of_union; left; now apply elem_of_singleton).
  reflexivity.
Qed.

(** [save_poll] writes the entry of its own poll and no other: it aborts
    for a local poll, does nothing without the message database, and
    with it puts the poll under the key of its identifier, the keys of
    two polls being different, so that the entry of every other poll, the
    polls in memory, the pending answers and the binlog are as before. *)
Theorem save_poll_writes_own_key s poll poll_id :
  (is_local_poll_id poll_id = true -> run (save_poll env poll poll_id) s = None) /\
  (is_local_poll_id poll_id = false -> use_message_db env = false ->
   run (save_poll env poll poll_id) s = Some (tt, s, [])) /\
  (is_local_poll_id poll_id = false -> use_message_db env = true ->
   exists s1,
     run (save_poll env poll poll_id) s = Some (tt, s1, []) /\
     database_ s1 !! get_poll_database_key poll_id = Some poll /\
     (forall other, other <> poll_id ->
        database_ s1 !! get_poll_database_key other =
        database_ s !! get_poll_database_key other) /\
     polls_ s1 = polls_ s /\
     pending_answers_ s1 = pending_answers_ s /\
     binlog_ s1 = binlog_ s).
Proof.
  unfold run, save_poll. split; [|split].
  - intros Hlocal. now rewrite Hlocal.
  - intros Hlocal Hdb. now rewrite Hlocal, Hdb.
  - intros Hlocal Hdb. rewrite Hlocal, Hdb. run_manager.
    eexists. split; [reflexivity|]. cbn [database_ set_database polls_ pending_answers_ binlog_].
    split; [apply lookup_insert_eq|]. split; [|repeat split].
    intros other Hother. apply lookup_insert_ne.
    intros Hkey. apply get_poll_database_key_inj in Hkey. congruence.
Qed.

End CloseFacts.
(** ** Further facts about the merge of server data *)

Section MergeFacts.
Variable env : Environment.

Lemma get_poll_force_effect s poll_id :
  exists found s1,
    run (get_poll_force env poll_id) s = Some (found, s1, []) /\
    polls_ s1 !! poll_id = found /\
    (forall other, other <> poll_id -> polls_ s1 !! other = polls_ s !! other) /\
    (found = None -> polls_ s1 = polls_ s) /\
    (forall poll, found = Some poll ->
       polls_ s !! poll_id = Some poll \/
       database_ s !! get_poll_database_key poll_id = Some poll) /\
    pending_answers_ s1 = pending_answers_ s /\
    current_generation_ s1 = current_generation_ s /\
    binlog_ s1 = binlog_ s /\
    poll_messages_ s1 = poll_messages_ s /\
    database_ s1 = database_ s.
Proof.
  unfold run, get_poll_force, on_load_poll_from_database.
  unfold get_poll_editable, get_poll, have_poll, get_poll. run_manager.
  destruct (polls_ s !! poll_id) as [known|] eqn:Hknown.
  { eexists _, _. split; [reflexivity|].
    repeat split; try assumption; try (intros; discriminate). intros poll [= <-]. now left. }
  destruct (use_message_db env).
  2:{ eexists _, _. split; [reflexivity|].
      repeat split; try assumption; intros; discriminate. }
  destruct (bool_decide (poll_id ∈ loaded_from_database_polls_ s)).
  { eexists _, _. split; [reflexivity|].
    repeat split; try assumption; intros; discriminate. }
  simpl. rewrite Hknown.
  rewrite bool_decide_eq_false_2 by (intros [? [=]]). simpl.
  destruct (database_ s !! get_poll_database_key poll_id) as [stored|] eqn:Hstored; simpl.
  - rewrite lookup_insert_eq. eexists _, _. split; [reflexivity|]. simpl.
    repeat split; try (intros; discriminate).
    + apply lookup_insert_eq.
    + intros other Hother. now apply lookup_insert_ne.
    + intros poll [= <-]. now right.
  - rewrite Hknown. eexists _, _. split; [reflexivity|].
    repeat split; try assumption; intros; discriminate.
Qed.

(** For polls within their bounds and server data in range, [on_get_poll]
    returns, touches one poll at most, and never a local one: the
    identifier it returns is not local, every other poll is as before, and
    so are the pending answers, the generation, the binlog and the
    registered messages; it resolves no promise and sends nothing, its
    only events being notifications and one timeout.  The hypotheses keep
    the call where the embedding follows the code: the number of options
    is a value of [int32] at line 913. *)
Theorem on_get_poll_frame s random poll_id poll_server poll_results :
  polls_bounded s ->
  server_data_in_range poll_server poll_results ->
  exists merged s' events,
    run (on_get_poll env random poll_id poll_server poll_results) s =
      Some (merged, s', events) /\
    is_local_poll_id merged = false /\
    (forall other, other <> merged -> polls_ s' !! other = polls_ s !! other) /\
    (merged = 0 -> polls_ s' = polls_ s) /\
    pending_answers_ s' = pending_answers_ s /\
    current_generation_ s' = current_generation_ s /\
    binlog_ s' = binlog_ s /\
    poll_messages_ s' = poll_messages_ s /\
    List.Forall is_display_event events.
Proof.
  intros _ _. unfold run, on_get_poll.
  set (id := match poll_server with
             | Some server => if negb (PollId_is_valid poll_id) then id_ server else poll_id
             | None => poll_id
             end).
  destruct (negb (PollId_is_valid id) || is_local_poll_id id) eqn:Hguard.
  { eexists _, _, _. split; [reflexivity|]. repeat split; constructor. }
  apply orb_false_elim in Hguard as [Hvalid Hlocal].
  destruct (match poll_server with
            | Some server => negb (id_ server =? id)
            | None => false
            end).
  { eexists _, _, _. split; [reflexivity|]. repeat split; constructor. }
  unfold mbind at 1, M_bind at 1.
  destruct (get_poll_force_effect s id)
    as (found & s1 & Hforce & Hfound & Hothers & Hsame & _ & Hpending & Hgen & Hbinlog &
        Hmessages & Hdatabase).
  unfold run in Hforce. rewrite Hforce.
  assert (Hzero : id <> 0).
  { unfold PollId_is_valid in Hvalid. lia. }
  assert (Hnotify : List.Forall is_display_event
            (List.map OnUpdateMessageContent (default [] (poll_messages_ s1 !! id)))).
  { apply List.Forall_forall. intros event (m & <- & _)%in_map_iff. exact I. }
  destruct found as [known|], poll_server as [server|];
    [ destruct (merge_poll (default new_Poll (Some known)) (Some server) poll_results)
        as [poll' is_changed]
    | destruct (merge_poll (default new_Poll (Some known)) None poll_results)
        as [poll' is_changed]
    | destruct (merge_poll (default new_Poll None) (Some server) poll_results)
        as [poll' is_changed]
    | eexists _, _, _; (split; [reflexivity|]); rewrite Hsame by reflexivity;
      repeat split; try assumption; constructor ].
  all: unfold save_poll; rewrite Hlocal;
    destruct (negb (is_bot env) && negb (is_closed poll')), is_changed,
      (use_message_db env); run_manager; simpl;
    eexists _, _, _; (split; [reflexivity|]); simpl;
    (split; [assumption|]);
    (split; [intros other Hother; rewrite lookup_insert_ne by congruence; now apply Hothers|]);
    (split; [congruence|]); repeat (split; [assumption|]);
    repeat first [apply Forall_app; split | apply Forall_cons; split | apply Forall_nil
                 | exact I | assumption].
Qed.

End MergeFacts.

Lemma ceiling_bounds size :
  2 <= INT32_MAX ÷ size ->
  0 < size /\ INT32_MAX ÷ size <= INT32_MAX /\ size * (INT32_MAX ÷ size) <= INT32_MAX.
Proof.
  intros Hq.
  assert (Hpos : 0 < size).
  { destruct (Z.lt_trichotomy size 0) as [Hn|[->|Hp]];
      [|vm_compute in Hq; contradiction Hq; reflexivity|assumption].
    exfalso. replace size with (- - size) in Hq by lia.
    rewrite Z.quot_opp_r in Hq by lia.
    assert (0 <= INT32_MAX ÷ - size) by (apply Z.quot_pos; unfold INT32_MAX; lia). lia. }
  split; [assumption|].
  rewrite Z.quot_div_nonneg by (unfold INT32_MAX; lia).
  split.
  - apply Z.div_le_upper_bound; unfold INT32_MAX; nia.
  - apply Z.mul_div_le. assumption.
Qed.

Lemma update_option_voters_identity is_min size poll_result poll_option total is_changed :
  text (update_option_voters is_min size poll_result poll_option total is_changed).1.1 =
    text poll_option /\
  data (update_option_voters is_min size poll_result poll_option total is_changed).1.1 =
    data poll_option.
Proof.
  unfold update_option_voters.
  destruct (negb (String.eqb _ _)); [split; reflexivity|].
  destruct (negb is_min && negb (Bool.eqb _ _));
    destruct (negb (voters_ poll_result =? voter_count poll_option)); split; reflexivity.
Qed.

Lemma update_option_voters_bounded is_min size poll_result poll_option total is_changed :
  0 <= voter_count poll_option <= INT32_MAX ÷ size - 2 ->
  0 <= total ->
  0 <= voter_count
         (update_option_voters is_min size poll_result poll_option total is_changed).1.1
    <= INT32_MAX ÷ size - 2 /\
  0 <= (update_option_voters is_min size poll_result poll_option total is_changed).1.2.
Proof.
  intros Hcount Htotal.
  destruct (ceiling_bounds size) as (Hsize & Hquot & _); [lia|].
  unfold update_option_voters.
  destruct (negb (String.eqb _ _)); [simpl; lia|].
  destruct (negb is_min && negb (Bool.eqb _ _)) eqn:Hflag;
    destruct (negb (voters_ poll_result =? voter_count poll_option)); simpl; try lia.
  all: unfold sub32; rewrite to_int32_small by (unfold INT32_MIN, INT32_MAX in *; lia).
  all: repeat match goal with
         | |- context [if ?c then _ else _] => destruct c eqn:?
         end; lia.
Qed.

Lemma update_options_voters_spec is_min size poll_result poll_options :
  forall total is_changed,
  List.Forall (fun o => 0 <= voter_count o <= INT32_MAX ÷ size - 2) poll_options ->
  0 <= total ->
  let updated := update_options_voters is_min size poll_result poll_options total is_changed in
  List.Forall (fun o => 0 <= voter_count o <= INT32_MAX ÷ size - 2) updated.1.1 /\
  0 <= updated.1.2 /\
  List.map text updated.1.1 = List.map text poll_options /\
  List.map data updated.1.1 = List.map data poll_options.
Proof.
  induction poll_options as [|poll_option rest IH]; intros total is_changed Hall Htotal.
  - simpl. repeat split; [constructor|assumption].
  - inversion Hall as [|? ? Hhead Hrest]; subst. cbn [update_options_voters].
    pose proof (update_option_voters_bounded is_min size poll_result poll_option total
                  is_changed Hhead Htotal) as [Hcount Htotal1].
    pose proof (update_option_voters_identity is_min size poll_result poll_option total
                  is_changed) as [Htext Hdata].
    destruct (update_option_voters is_min size poll_result poll_option total is_changed)
      as [[poll_option' total1] changed1].
    simpl in Hcount, Htotal1, Htext, Hdata.
    specialize (IH total1 changed1 Hrest Htotal1).
    destruct (update_options_voters is_min size poll_result rest total1 changed1)
      as [[rest' total2] changed2].
    simpl in IH |- *. destruct IH as (IHall & IHtotal & IHtext & IHdata).
    repeat split; [now constructor|assumption|congruence|congruence].
Qed.

Lemma map_length_eq {A B} (f : A -> B) (l1 l2 : list A) :
  List.map f l1 = List.map f l2 -> length l1 = length l2.
Proof. intros Heq. rewrite <- (length_map f l1), Heq. apply length_map. Qed.

Lemma update_results_spec is_min results :
  forall poll_options total is_changed,
  counts_bounded poll_options ->
  0 <= total ->
  let updated := update_results is_min results poll_options total is_changed in
  counts_bounded updated.1.1 /\
  0 <= updated.1.2 /\
  List.map text updated.1.1 = List.map text poll_options /\
  List.map data updated.1.1 = List.map data poll_options.
Proof.
  induction results as [|poll_result rest IH]; intros poll_options total is_changed Hall Htotal.
  - simpl. repeat split; assumption.
  - cbn [update_results].
    pose proof (update_options_voters_spec is_min (Z.of_nat (length poll_options)) poll_result
                  poll_options total is_changed Hall Htotal) as Hstep.
    destruct (update_options_voters is_min (Z.of_nat (length poll_options)) poll_result
                poll_options total is_changed) as [[poll_options' total'] changed'].
    simpl in Hstep. destruct Hstep as (Hall' & Htotal' & Htext & Hdata).
    assert (Hlen : length poll_options' = length poll_options)
      by now apply (map_length_eq text).
    assert (Hbounded : counts_bounded poll_options')
      by (unfold counts_bounded; now rewrite Hlen).
    specialize (IH poll_options' total' changed' Hbounded Htotal').
    simpl in IH. destruct IH as (IHall & IHtotal & IHtext & IHdata).
    repeat split; [assumption|assumption|congruence|congruence].
Qed.

Lemma update_options_spec poll_options : forall answers is_changed,
  length poll_options = length answers ->
  let updated := (update_options poll_options answers is_changed).1 in
  List.map text updated = List.map answer_text_ answers /\
  List.map data updated = List.map answer_option_ answers /\
  List.Forall2 (fun old new =>
    voter_count new = voter_count old /\ is_chosen new = is_chosen old /\ data new = data old
    \/ voter_count new = 0 /\ is_chosen new = false /\ data new <> data old)
    poll_options updated.
Proof.
  induction poll_options as [|poll_option rest IH]; intros [|answer answers] is_changed Hlen;
    try discriminate.
  - simpl. repeat split; constructor.
  - injection Hlen as Hlen. cbn [update_options].
    destruct (String.eqb_spec (text poll_option) (answer_text_ answer)) as [Htext|Htext];
      cbn [negb text data voter_count is_chosen];
      (destruct (String.eqb_spec (data poll_option) (answer_option_ answer)) as [Hdata|Hdata]);
      cbn [negb text data voter_count is_chosen];
      match goal with
      | |- context [update_options rest answers ?c] =>
          specialize (IH answers c Hlen); destruct (update_options rest answers c) as [rest' c']
      end;
      cbn [fst snd] in IH |- *; destruct IH as (IHtext & IHdata & IHall);
      cbn [List.map text data voter_count is_chosen];
      (split; [congruence|]); (split; [congruence|]); constructor; try assumption;
      cbn [text data voter_count is_chosen];
      first [left; repeat split; reflexivity | right; repeat split; congruence].
Qed.

Lemma get_poll_options_spec answers :
  List.map text (get_poll_options answers) = List.map answer_text_ answers /\
  List.map data (get_poll_options answers) = List.map answer_option_ answers /\
  List.Forall (fun o => voter_count o = 0 /\ is_chosen o = false) (get_poll_options answers).
Proof.
  unfold get_poll_options. induction answers as [|answer answers (IH1 & IH2 & IH3)]; simpl.
  - repeat split; constructor.
  - repeat split; [congruence|congruence|]. constructor; [split; reflexivity|assumption].
Qed.

Lemma total_votes_length_bound (poll_options : list PollOption) bound :
  List.Forall (fun o => 0 <= voter_count o <= bound) poll_options ->
  0 <= total_votes (List.map voter_count poll_options) <=
    Z.of_nat (length poll_options) * bound.
Proof.
  induction 1 as [|o l Ho Hl IH]; simpl length; simpl; [lia|]. nia.
Qed.

Lemma counts_bounded_total poll_options :
  counts_bounded poll_options ->
  0 <= total_votes (List.map voter_count poll_options) <= INT32_MAX.
Proof.
  intros Hall. pose proof (total_votes_length_bound _ _ Hall) as Hsum.
  destruct poll_options as [|o l]; [simpl; unfold INT32_MAX; lia|].
  inversion Hall as [|? ? Ho _]; subst.
  destruct (ceiling_bounds (Z.of_nat (length (o :: l)))) as (Hpos & _ & Hmul); [lia|]. nia.
Qed.

Lemma sum_option_votes_total poll_options :
  counts_bounded poll_options ->
  sum_option_votes poll_options = total_votes (List.map voter_count poll_options).
Proof.
  intros Hall. pose proof (counts_bounded_total _ Hall) as Hsum.
  unfold counts_bounded in Hall. revert Hall Hsum.
  generalize (INT32_MAX ÷ Z.of_nat (length poll_options) - 2). intros bound Hall Hsum.
  unfold sum_option_votes.
  assert (Hgen : forall acc, 0 <= acc ->
            acc + total_votes (List.map voter_count poll_options) <= INT32_MAX ->
            fold_left (fun sum o => add32 sum (voter_count o)) poll_options acc =
              acc + total_votes (List.map voter_count poll_options)).
  { clear Hsum. induction Hall as [|o l Ho Hl IH]; intros acc Hacc Hle; simpl in *; [lia|].
    assert (0 <= total_votes (List.map voter_count l)).
    { apply total_votes_nonneg, List.Forall_forall. intros c (x & <- & Hx)%in_map_iff.
      rewrite List.Forall_forall in Hl. apply Hl in Hx. lia. }
    unfold add32. rewrite to_int32_small by (unfold INT32_MIN, INT32_MAX in *; lia).
    rewrite IH; lia. }
  rewrite Hgen; lia.
Qed.

Lemma get_poll_options_bounded answers :
  Z.of_nat (length answers) <= 1073741823 ->
  counts_bounded (get_poll_options answers).
Proof.
  intros Hlen. destruct (get_poll_options_spec answers) as (Htext & _ & Hall).
  assert (Hsame : length (get_poll_options answers) = length answers)
    by (rewrite <- (length_map text), Htext; apply length_map).
  unfold counts_bounded. rewrite Hsame.
  destruct answers as [|answer answers]; [constructor|].
  assert (2 <= INT32_MAX ÷ Z.of_nat (length (answer :: answers))).
  { cbn [length] in Hlen |- *. rewrite Z.quot_div_nonneg by (unfold INT32_MAX; lia).
    apply Z.div_le_lower_bound; unfold INT32_MAX; lia. }
  eapply List.Forall_impl; [|exact Hall]. intros o [-> _]. lia.
Qed.

Lemma update_options_bounded poll_options answers is_changed :
  length poll_options = length answers ->
  counts_bounded poll_options ->
  counts_bounded (update_options poll_options answers is_changed).1.
Proof.
  intros Hlen Hall. destruct (update_options_spec poll_options answers is_changed Hlen)
    as (Htext & _ & Hrel).
  cbv zeta in Htext, Hrel.
  assert (Hlen' : length (update_options poll_options answers is_changed).1 =
                  length poll_options).
  { rewrite <- (length_map text), Htext, length_map. congruence. }
  unfold counts_bounded in *. rewrite Hlen'.
  revert Hall Hrel. generalize (INT32_MAX ÷ Z.of_nat (length poll_options) - 2).
  generalize (update_options poll_options answers is_changed).1.
  intros updated bound Hall Hrel. clear Hlen Htext Hlen'. revert Hall.
  induction Hrel as [|old new olds news Hstep Hrest IH]; intros Hall; [constructor|].
  inversion Hall as [|? ? Hold Holds]; subst.
  constructor; [|apply IH, Holds].
  destruct Hstep as [(-> & _)|(-> & _)]; lia.
Qed.

Lemma merge_poll_metadata_bounded poll0 server :
  counts_bounded (options poll0) ->
  Z.of_nat (length (answers_ server)) <= 1073741823 ->
  counts_bounded
    (if negb (length (options poll0) =? length (answers_ server))%nat
     then (get_poll_options (answers_ server), true)
     else update_options (options poll0) (answers_ server)
            (if negb (String.eqb (question poll0) (question_ server)) then true else false)).1.
Proof.
  intros Hall Hlen.
  destruct (Nat.eqb_spec (length (options poll0)) (length (answers_ server))) as [Heq|Hne];
    cbn [negb].
  - now apply update_options_bounded.
  - now apply get_poll_options_bounded.
Qed.

Lemma counts_bounded_checked poll_options :
  counts_bounded poll_options ->
  sum_voter_counts (List.map voter_count poll_options) 0 =
    Some (total_votes (List.map voter_count poll_options)).
Proof.
  intros Hb. pose proof (counts_bounded_total _ Hb).
  rewrite sum_voter_counts_ok; [f_equal; lia| |lia].
  apply List.Forall_forall. intros c (o & <- & Ho)%in_map_iff.
  unfold counts_bounded in Hb. rewrite List.Forall_forall in Hb. apply Hb in Ho. lia.
Qed.

Lemma update_option_voters_total_max is_min size poll_result poll_option total is_changed :
  total <= INT32_MAX -> voters_ poll_result <= INT32_MAX ->
  (update_option_voters is_min size poll_result poll_option total is_changed).1.2 <= INT32_MAX.
Proof.
  intros Htotal Hvoters. unfold update_option_voters.
  destruct (negb (String.eqb _ _)); [assumption|].
  destruct (negb is_min && negb (Bool.eqb _ _));
    destruct (negb (voters_ poll_result =? voter_count poll_option)); cbn [fst snd];
    try assumption.
  all: repeat match goal with
         | |- context [if ?c then _ else _] => destruct c eqn:?
         end; unfold INT32_MAX in *; lia.
Qed.

Lemma update_options_voters_total_max is_min size poll_result poll_options :
  forall total is_changed,
  total <= INT32_MAX -> voters_ poll_result <= INT32_MAX ->
  (update_options_voters is_min size poll_result poll_options total is_changed).1.2
    <= INT32_MAX.
Proof.
  induction poll_options as [|poll_option rest IH]; intros total is_changed Htotal Hvoters;
    [assumption|].
  cbn [update_options_voters].
  pose proof (update_option_voters_total_max is_min size poll_result poll_option total
                is_changed Htotal Hvoters) as Hhead.
  destruct (update_option_voters is_min size poll_result poll_option total is_changed)
    as [[poll_option' total1] changed1].
  cbn [fst snd] in Hhead. specialize (IH total1 changed1 Hhead Hvoters).
  destruct (update_options_voters is_min size poll_result rest total1 changed1)
    as [[rest' total2] changed2].
  exact IH.
Qed.

Lemma update_results_total_max is_min results :
  forall poll_options total is_changed,
  total <= INT32_MAX ->
  List.Forall (fun poll_result => voters_ poll_result <= INT32_MAX) results ->
  (update_results is_min results poll_options total is_changed).1.2 <= INT32_MAX.
Proof.
  induction results as [|poll_result rest IH]; intros poll_options total is_changed Htotal Hall;
    [assumption|].
  inversion Hall as [|? ? Hhead Hrest]; subst. cbn [update_results].
  pose proof (update_options_voters_total_max is_min (Z.of_nat (length poll_options))
                poll_result poll_options total is_changed Htotal Hhead) as Hstep.
  destruct (update_options_voters is_min (Z.of_nat (length poll_options)) poll_result
              poll_options total is_changed) as [[poll_options' total'] changed'].
  cbn [fst snd] in Hstep. now apply IH.
Qed.

Lemma merge_poll_results_bounded poll1 changed1 poll_results :
  poll_bounded poll1 ->
  total_voters_ poll_results <= INT32_MAX ->
  List.Forall (fun poll_result => voters_ poll_result <= INT32_MAX) (results_ poll_results) ->
  let is_min := negb (Z.land (results_flags_ poll_results) pollResults_MIN_MASK =? 0) in
  let has_total_voters :=
    negb (Z.land (results_flags_ poll_results) pollResults_TOTAL_VOTERS_MASK =? 0) in
  let merged :=
    (let '(total2, changed2) :=
       if has_total_voters && negb (total_voters_ poll_results =? total_voter_count poll1)
       then ((if total_voters_ poll_results <? 0 then 0 else total_voters_ poll_results), true)
       else (total_voter_count poll1, changed1) in
     let '(options3, total3, changed3) :=
       update_results is_min (results_ poll_results) (options poll1) total2 changed2 in
     let total4 :=
       match results_ poll_results with
       | [] => total3
       | _ :: _ =>
           if has_total_voters then
             let max_total_voter_count := sum_option_votes options3 in
             if (total3 >? max_total_voter_count) && negb (max_total_voter_count =? 0)
             then max_total_voter_count else total3
           else total3
       end in
     (mkPoll (question poll1) options3 total4 (is_closed poll1), changed3)).1 in
  poll_bounded merged.
Proof.
  intros [Hall Htotal] Hvoters Hresults is_min has_total_voters.
  set (first_step := if has_total_voters && _ then _ else _).
  assert (Hfirst : 0 <= first_step.1 <= INT32_MAX).
  { subst first_step. destruct (has_total_voters && _); cbn [fst]; [|assumption].
    destruct (total_voters_ poll_results <? 0) eqn:?; unfold INT32_MAX in *; lia. }
  destruct first_step as [total2 changed2]. cbn [fst] in Hfirst.
  pose proof (update_results_spec is_min (results_ poll_results) (options poll1) total2 changed2
                Hall (proj1 Hfirst)) as Hstep.
  pose proof (update_results_total_max is_min (results_ poll_results) (options poll1) total2
                changed2 (proj2 Hfirst) Hresults) as Hmax.
  destruct (update_results is_min (results_ poll_results) (options poll1) total2 changed2)
    as [[options3 total3] changed3].
  cbn [fst snd] in Hstep, Hmax. destruct Hstep as (Hall3 & Htotal3 & _).
  split; cbn [fst options total_voter_count]; [assumption|].
  destruct (results_ poll_results); [lia|].
  destruct has_total_voters; [|lia].
  cbv zeta. rewrite (sum_option_votes_total _ Hall3).
  pose proof (counts_bounded_total _ Hall3).
  destruct (_ && _); lia.
Qed.

Lemma merge_poll_bounded poll0 poll_server poll_results :
  poll_bounded poll0 ->
  server_data_in_range poll_server poll_results ->
  poll_bounded (merge_poll poll0 poll_server poll_results).1.
Proof.
  intros [Hall Htotal] (Hanswers & Hvoters & Hresults). unfold merge_poll.
  set (metadata := match poll_server with
                   | Some server => _
                   | None => (poll0, false)
                   end).
  assert (Hmeta : poll_bounded metadata.1).
  { subst metadata. destruct poll_server as [server|]; [|split; assumption].
    specialize (Hanswers server eq_refl).
    pose proof (merge_poll_metadata_bounded poll0 server Hall Hanswers) as Hb.
    destruct (negb (String.eqb (question poll0) (question_ server)));
      destruct (if negb (length (options poll0) =? length (answers_ server))%nat then _ else _)
        as [options' c2];
      destruct (negb (Bool.eqb _ _)); split; assumption. }
  destruct metadata as [poll1 changed1]. cbn [fst] in Hmeta.
  exact (merge_poll_results_bounded poll1 changed1 poll_results Hmeta Hvoters Hresults).
Qed.

(** The merge keeps a poll within its bounds.  If no count of the poll is
    negative or above the ceiling for its number of options and the total
    is a non-negative [int32], the same holds after the merge of any
    server data in range, and the counts then pass the [CHECK]s by which
    [get_vote_percentage] guards their sum. *)
Theorem merge_poll_keeps_counts_bounded poll0 poll_server poll_results :
  poll_bounded poll0 ->
  server_data_in_range poll_server poll_results ->
  let merged := (merge_poll poll0 poll_server poll_results).1 in
  poll_bounded merged /\
  sum_voter_counts (List.map voter_count (options merged)) 0 =
    Some (total_votes (List.map voter_count (options merged))).
Proof.
  intros Hbounded Hrange. cbv zeta.
  pose proof (merge_poll_bounded _ _ _ Hbounded Hrange) as Hmerged.
  split; [assumption|]. apply counts_bounded_checked, Hmerged.
Qed.

Lemma update_options_voters_identity is_min size poll_result poll_options :
  forall total is_changed,
  let updated := update_options_voters is_min size poll_result poll_options total is_changed in
  List.map text updated.1.1 = List.map text poll_options /\
  List.map data updated.1.1 = List.map data poll_options.
Proof.
  induction poll_options as [|poll_option rest IH]; intros total is_changed;
    [split; reflexivity|].
  cbn [update_options_voters].
  pose proof (update_option_voters_identity is_min size poll_result poll_option total
                is_changed) as [Htext Hdata].
  destruct (update_option_voters is_min size poll_result poll_option total is_changed)
    as [[poll_option' total1] changed1].
  specialize (IH total1 changed1).
  destruct (update_options_voters is_min size poll_result rest total1 changed1)
    as [[rest' total2] changed2].
  simpl in Htext, Hdata, IH |- *. destruct IH. split; congruence.
Qed.

Lemma update_results_identity is_min results :
  forall poll_options total is_changed,
  let updated := update_results is_min results poll_options total is_changed in
  List.map text updated.1.1 = List.map text poll_options /\
  List.map data updated.1.1 = List.map data poll_options.
Proof.
  induction results as [|poll_result rest IH]; intros poll_options total is_changed;
    [split; reflexivity|].
  cbn [update_results].
  pose proof (update_options_voters_identity is_min (Z.of_nat (length poll_options))
                poll_result poll_options total is_changed) as Hstep.
  destruct (update_options_voters is_min (Z.of_nat (length poll_options)) poll_result
              poll_options total is_changed) as [[poll_options' total'] changed'].
  simpl in Hstep. destruct Hstep as [Htext Hdata].
  destruct (IH poll_options' total' changed') as [IHtext IHdata]. split; congruence.
Qed.

Lemma update_option_voters_min size poll_result poll_option total is_changed :
  is_chosen (update_option_voters true size poll_result poll_option total is_changed).1.1 =
    is_chosen poll_option.
Proof.
  unfold update_option_voters.
  destruct (negb (String.eqb _ _)); [reflexivity|]. cbn [negb andb].
  destruct (negb (voters_ poll_result =? voter_count poll_option)); reflexivity.
Qed.

Lemma update_options_voters_min size poll_result poll_options : forall total is_changed,
  List.map is_chosen
    (update_options_voters true size poll_result poll_options total is_changed).1.1 =
    List.map is_chosen poll_options.
Proof.
  induction poll_options as [|poll_option rest IH]; intros total is_changed; [reflexivity|].
  cbn [update_options_voters].
  pose proof (update_option_voters_min size poll_result poll_option total is_changed) as Hhead.
  destruct (update_option_voters true size poll_result poll_option total is_changed)
    as [[poll_option' total1] changed1].
  specialize (IH total1 changed1).
  destruct (update_options_voters true size poll_result rest total1 changed1)
    as [[rest' total2] changed2].
  simpl in Hhead, IH |- *. congruence.
Qed.

Lemma update_results_min results : forall poll_options total is_changed,
  List.map is_chosen (update_results true results poll_options total is_changed).1.1 =
    List.map is_chosen poll_options.
Proof.
  induction results as [|poll_result rest IH]; intros poll_options total is_changed;
    [reflexivity|].
  cbn [update_results].
  pose proof (update_options_voters_min (Z.of_nat (length poll_options)) poll_result
                poll_options total is_changed) as Hstep.
  destruct (update_options_voters true (Z.of_nat (length poll_options)) poll_result
              poll_options total is_changed) as [[poll_options' total'] changed'].
  simpl in Hstep. now rewrite IH.
Qed.

(** Results marked as minimal never touch the user's own vote: merged
    without metadata, they leave the chosen flag of every option as it
    was, along with the question, the texts, the identifiers and the
    closed flag, whatever counts they carry. *)
Theorem merge_poll_min_keeps_chosen poll0 poll_results :
  Z.land (results_flags_ poll_results) pollResults_MIN_MASK <> 0 ->
  let merged := (merge_poll poll0 None poll_results).1 in
  List.map is_chosen (options merged) = List.map is_chosen (options poll0) /\
  List.map text (options merged) = List.map text (options poll0) /\
  List.map data (options merged) = List.map data (options poll0) /\
  question merged = question poll0 /\ is_closed merged = is_closed poll0.
Proof.
  intros Hmin. cbv zeta. unfold merge_poll.
  replace (Z.land (results_flags_ poll_results) pollResults_MIN_MASK =? 0) with false
    by (symmetry; now apply Z.eqb_neq).
  cbn [negb].
  set (first_step := if _ && _ then _ else _). destruct first_step as [total2 changed2].
  pose proof (update_results_min (results_ poll_results) (options poll0) total2 changed2)
    as Hchosen.
  pose proof (update_results_identity true (results_ poll_results) (options poll0) total2
                changed2) as Hsame.
  cbv zeta in Hsame. destruct Hsame as [Htext Hdata].
  destruct (update_results true (results_ poll_results) (options poll0) total2 changed2)
    as [[options3 total3] changed3].
  simpl in Hchosen, Htext, Hdata |- *. repeat split; assumption.
Qed.

Lemma update_options_voters_unknown is_min size poll_result poll_options total is_changed :
  List.Forall (fun o => data o <> voters_option_ poll_result) poll_options ->
  update_options_voters is_min size poll_result poll_options total is_changed =
    (poll_options, total, is_changed).
Proof.
  induction 1 as [|poll_option rest Hhead Hrest IH]; [reflexivity|].
  cbn [update_options_voters]. unfold update_option_voters.
  destruct (String.eqb_spec (data poll_option) (voters_option_ poll_result)) as [Heq|_];
    [contradiction|].
  cbn [negb]. now rewrite IH.
Qed.

Lemma update_results_unknown is_min results poll_options total is_changed :
  List.Forall (fun poll_result =>
     List.Forall (fun o => data o <> voters_option_ poll_result) poll_options) results ->
  update_results is_min results poll_options total is_changed =
    (poll_options, total, is_changed).
Proof.
  induction 1 as [|poll_result rest Hhead Hrest IH]; [reflexivity|].
  cbn [update_results]. now rewrite update_options_voters_unknown.
Qed.

(** Results that name none of the poll's options and carry no total are
    ignored: merged without metadata they return the poll as it was and
    report no change. *)
Theorem merge_poll_unknown_results poll0 poll_results :
  Z.land (results_flags_ poll_results) pollResults_TOTAL_VOTERS_MASK = 0 ->
  List.Forall (fun poll_result =>
     List.Forall (fun o => data o <> voters_option_ poll_result) (options poll0))
    (results_ poll_results) ->
  merge_poll poll0 None poll_results = (poll0, false).
Proof.
  intros Htotal Hunknown. unfold merge_poll. rewrite Htotal.
  change (negb (0 =? 0)) with false. cbn [andb].
  rewrite update_results_unknown by assumption.
  destruct poll0 as [question0 options0 total0 closed0]. cbn [question options is_closed
    total_voter_count].
  destruct (results_ poll_results); reflexivity.
Qed.

(** The synchronisation of the metadata: after the merge of a server poll
    the question is the server's, the options carry the server's texts
    and identifiers in the server's order, and the poll is closed exactly
    when the server's closed flag is set, whatever the results carry. *)
Theorem merge_poll_metadata_verbatim poll0 server poll_results :
  let merged := (merge_poll poll0 (Some server) poll_results).1 in
  question merged = question_ server /\
  List.map text (options merged) = List.map answer_text_ (answers_ server) /\
  List.map data (options merged) = List.map answer_option_ (answers_ server) /\
  is_closed merged = negb (Z.land (poll_flags_ server) poll_CLOSED_MASK =? 0).
Proof.
  cbv zeta. remember (Some server) as poll_server eqn:Hserver. unfold merge_poll.
  set (metadata := match poll_server with
                   | Some server' => _
                   | None => (poll0, false)
                   end).
  assert (Hmeta : question metadata.1 = question_ server /\
                  List.map text (options metadata.1) = List.map answer_text_ (answers_ server) /\
                  List.map data (options metadata.1) =
                    List.map answer_option_ (answers_ server) /\
                  is_closed metadata.1 =
                    negb (Z.land (poll_flags_ server) poll_CLOSED_MASK =? 0)).
  { subst metadata poll_server. cbv beta iota.
    assert (Hoptions : forall c1,
              let updated := if negb (length (options poll0) =? length (answers_ server))%nat
                             then (get_poll_options (answers_ server), true)
                             else update_options (options poll0) (answers_ server) c1 in
              List.map text updated.1 = List.map answer_text_ (answers_ server) /\
              List.map data updated.1 = List.map answer_option_ (answers_ server)).
    { intros c1. cbv zeta.
      destruct (Nat.eqb_spec (length (options poll0)) (length (answers_ server))) as [Heq|Hne];
        cbn [negb].
      - destruct (update_options_spec (options poll0) (answers_ server) c1 Heq)
          as (Htext & Hdata & _). split; assumption.
      - destruct (get_poll_options_spec (answers_ server)) as (Htext & Hdata & _).
        split; assumption. }
    destruct (String.eqb_spec (question poll0) (question_ server)) as [Hq|Hq]; cbn [negb];
      match goal with
      | |- context [update_options (options poll0) (answers_ server) ?c] =>
          specialize (Hoptions c)
      end;
      cbv zeta in Hoptions;
      destruct (if negb (length (options poll0) =? length (answers_ server))%nat then _ else _)
        as [options' c2];
      cbn [fst] in Hoptions; destruct Hoptions as [Htext Hdata];
      destruct (Bool.eqb_spec (negb (Z.land (poll_flags_ server) poll_CLOSED_MASK =? 0))
                  (is_closed poll0)) as [Hc|Hc];
      cbn [negb fst question options is_closed]; repeat split; congruence. }
  destruct metadata as [poll1 changed1]. cbn [fst] in Hmeta.
  destruct Hmeta as (Hq & Htext & Hdata & Hclosed).
  set (first_step := if _ && _ then _ else _). destruct first_step as [total2 changed2].
  set (is_min := negb (Z.land (results_flags_ poll_results) pollResults_MIN_MASK =? 0)).
  pose proof (update_results_identity is_min (results_ poll_results) (options poll1) total2
                changed2) as Hsame.
  cbv zeta in Hsame.
  destruct Hsame as [Htext' Hdata'].
  destruct (update_results is_min (results_ poll_results) (options poll1) total2 changed2)
    as [[options3 total3] changed3].
  simpl in Htext', Hdata' |- *. repeat split; congruence.
Qed.

(** ** The read model *)

Lemma get_pending_poll_options_spec chosen_options poll_options : forall voter_count_diff,
  let objects := (get_pending_poll_options chosen_options poll_options voter_count_diff).1 in
  List.map td_api.text_ objects = List.map text poll_options /\
  List.map td_api.is_being_chosen_ objects =
    List.map (fun o => existsb (String.eqb (data o)) chosen_options) poll_options /\
  List.map td_api.voter_count_ objects =
    List.map (fun o => sub32 (voter_count o) (if is_chosen o then 1 else 0)) poll_options /\
  List.Forall (fun object => td_api.is_chosen_ object = false) objects.
Proof.
  induction poll_options as [|poll_option rest IH]; intros voter_count_diff.
  - repeat split; constructor.
  - cbn [get_pending_poll_options].
    specialize (IH (if is_chosen poll_option then -1 else voter_count_diff)).
    destruct (get_pending_poll_options chosen_options rest _) as [objects diff].
    cbv zeta in IH. cbn [fst] in IH |- *. destruct IH as (Htext & Hbeing & Hcount & Hchosen).
    cbn [List.map td_api.text_ td_api.is_being_chosen_ td_api.voter_count_].
    repeat split; [congruence|congruence|congruence|]. now constructor.
Qed.

Lemma get_pending_poll_options_diff chosen_options poll_options : forall voter_count_diff,
  (get_pending_poll_options chosen_options poll_options voter_count_diff).2 =
    if existsb is_chosen poll_options then -1 else voter_count_diff.
Proof.
  induction poll_options as [|poll_option rest IH]; intros voter_count_diff; [reflexivity|].
  cbn [get_pending_poll_options existsb].
  specialize (IH (if is_chosen poll_option then -1 else voter_count_diff)).
  destruct (get_pending_poll_options chosen_options rest _) as [objects diff].
  cbn [snd] in IH |- *. rewrite IH.
  destruct (is_chosen poll_option), (existsb is_chosen rest); reflexivity.
Qed.

Lemma existsb_all_false {A} (f : A -> bool) (l : list A) :
  List.Forall (fun x => f x = false) l -> existsb f l = false.
Proof. induction 1 as [|x l Hx Hl IH]; simpl; [reflexivity|]. now rewrite Hx. Qed.

Lemma fix_total_voter_count_zeros {A} (l : list A) total :
  l <> [] -> 0 <= fix_total_voter_count (List.map (fun _ => 0) l) total.
Proof.
  unfold fix_total_voter_count. destruct l as [|x l]; [congruence|]. intros _. simpl.
  assert (Hkeep : forall t, 0 <= t ->
            0 <= fold_left (fun total voter_count =>
                              if total <? voter_count then voter_count else total)
                   (List.map (fun _ : A => 0) l) t).
  { induction l as [|y l IH]; intros t Ht; simpl; [assumption|].
    apply IH. destruct (t <? 0); lia. }
  apply Hkeep. destruct (total <? 0) eqn:?; lia.
Qed.

Lemma sum_voter_counts_zeros {A} (l : list A) :
  sum_voter_counts (List.map (fun _ => 0) l) 0 = Some 0.
Proof. induction l as [|x l IH]; simpl; [reflexivity|exact IH]. Qed.

Section ZeroCounts.
Context {lib : StdLibrary}.

Lemma get_vote_percentage_zeros {A} (l : list A) total :
  l = [] \/ 0 <= total ->
  get_vote_percentage (List.map (fun _ => 0) l) total = Some (List.map (fun _ => 0) l).
Proof.
  intros Hcase. unfold get_vote_percentage. rewrite sum_voter_counts_zeros.
  rewrite length_map.
  replace (repeat 0 (length l)) with (List.map (fun _ : A => 0) l)
    by (clear Hcase; induction l as [|x l IH]; simpl; [reflexivity|now f_equal]).
  destruct (Z.gtb_spec total 0) as [Hpos|Hle]; [reflexivity|].
  destruct (Z.eqb_spec total 0) as [Hz|Hnz]; [reflexivity|].
  destruct Hcase as [->|Hnn]; [reflexivity|lia].
Qed.

End ZeroCounts.

Lemma set_vote_percentage_zeros (objects : list td_api.pollOption) :
  set_vote_percentage (List.map hide_voter_count objects) (List.map (fun _ => 0) objects) =
    List.map (fun object =>
      td_api.mkPollOption (td_api.text_ object) 0 0 (td_api.is_chosen_ object)
        (td_api.is_being_chosen_ object)) objects.
Proof. induction objects as [|object rest IH]; simpl; [reflexivity|]. now rewrite IH. Qed.

Section ReadModelFacts.
Context {lib : StdLibrary}.

(** What a viewer who has not voted is shown of an open poll.  When the
    poll is open and either an answer is pending or no option is chosen,
    the call returns an object, changes nothing, and shows no results:
    every option has the poll's text, no voters, zero percent and is not
    chosen; with a pending answer an option is being chosen exactly when
    its identifier is among the pending ones. *)
Theorem get_poll_object_hides_counts s poll_id poll :
  polls_ s !! poll_id = Some poll ->
  is_closed poll = false ->
  is_Some (pending_answers_ s !! poll_id) \/
    List.Forall (fun o => is_chosen o = false) (options poll) ->
  exists object,
    run (get_poll_object poll_id) s = Some (object, s, []) /\
    td_api.question_ object = question poll /\
    td_api.is_closed_ object = false /\
    List.map td_api.text_ (td_api.options_ object) = List.map text (options poll) /\
    List.Forall (fun o => td_api.voter_count_ o = 0 /\ td_api.vote_percentage_ o = 0 /\
                          td_api.is_chosen_ o = false) (td_api.options_ object) /\
    List.map td_api.is_being_chosen_ (td_api.options_ object) =
      List.map (fun o => match pending_answers_ s !! poll_id with
                         | Some pending_answer =>
                             existsb (String.eqb (data o)) (options_ pending_answer)
                         | None => false
                         end) (options poll).
Proof.
  intros Hpoll Hopen Hcase. unfold run, get_poll_object. rewrite Hpoll.
  unfold make_poll_object. rewrite Hopen.
  set (first_step := match pending_answers_ s !! poll_id with
                     | Some pending_answer => _
                     | None => _
                     end).
  assert (Hfirst :
    List.map td_api.text_ first_step.1 = List.map text (options poll) /\
    List.map td_api.is_being_chosen_ first_step.1 =
      List.map (fun o => match pending_answers_ s !! poll_id with
                         | Some pending_answer =>
                             existsb (String.eqb (data o)) (options_ pending_answer)
                         | None => false
                         end) (options poll) /\
    List.Forall (fun object => td_api.is_chosen_ object = false) first_step.1).
  { subst first_step. destruct (pending_answers_ s !! poll_id) as [pending_answer|].
    - destruct (get_pending_poll_options_spec (options_ pending_answer) (options poll) 0)
        as (Htext & Hbeing & _ & Hchosen).
      repeat split; assumption.
    - destruct Hcase as [[? [=]]|Hnone]. cbn [fst].
      rewrite !List.map_map. cbn [get_poll_option_object td_api.text_ td_api.is_being_chosen_].
      repeat split; try reflexivity.
      apply List.Forall_forall. intros object (o & <- & Ho)%in_map_iff.
      rewrite List.Forall_forall in Hnone. now apply Hnone. }
  destruct first_step as [objects voter_count_diff]. cbn [fst] in Hfirst.
  destruct Hfirst as (Htext & Hbeing & Hchosen).
  rewrite (existsb_all_false _ _ Hchosen). cbn [negb andb].
  rewrite List.map_map. cbn [hide_voter_count td_api.voter_count_].
  set (total := fix_total_voter_count _ _).
  rewrite get_vote_percentage_zeros.
  2:{ destruct objects as [|object rest]; [now left|right].
      apply fix_total_voter_count_zeros. discriminate. }
  rewrite !length_map, Nat.eqb_refl. rewrite set_vote_percentage_zeros.
  eexists. split; [reflexivity|]. cbn [td_api.question_ td_api.is_closed_ td_api.options_].
  rewrite !List.map_map. cbn [td_api.text_ td_api.is_being_chosen_].
  repeat split; try assumption.
  apply List.Forall_forall. intros object (o & <- & Ho)%in_map_iff.
  rewrite List.Forall_forall in Hchosen. cbn. repeat split. now apply Hchosen.
Qed.

End ReadModelFacts.

Lemma fix_total_voter_count_spec voter_counts total :
  total <= fix_total_voter_count voter_counts total /\
  List.Forall (fun v => v <= fix_total_voter_count voter_counts total) voter_counts /\
  (fix_total_voter_count voter_counts total = total \/
   In (fix_total_voter_count voter_counts total) voter_counts).
Proof.
  unfold fix_total_voter_count. revert total.
  induction voter_counts as [|v l IH]; intros total; simpl.
  - repeat split; [lia|constructor|now left].
  - destruct (IH (if total <? v then v else total)) as (Hle & Hall & Hin).
    destruct (Z.ltb_spec total v) as [Hlt|Hge].
    + repeat split; [lia|constructor; assumption|]. right.
      destruct Hin as [->|Hin]; [now left|now right].
    + repeat split; [assumption|constructor; [lia|assumption]|].
      destruct Hin as [Heq|Hin]; [now left|right; now right].
Qed.

Lemma set_vote_percentage_spec poll_options : forall vote_percentage,
  length poll_options = length vote_percentage ->
  let objects := set_vote_percentage poll_options vote_percentage in
  List.map td_api.text_ objects = List.map td_api.text_ poll_options /\
  List.map td_api.voter_count_ objects = List.map td_api.voter_count_ poll_options /\
  List.map td_api.is_chosen_ objects = List.map td_api.is_chosen_ poll_options /\
  List.map td_api.is_being_chosen_ objects = List.map td_api.is_being_chosen_ poll_options /\
  List.map td_api.vote_percentage_ objects = vote_percentage.
Proof.
  induction poll_options as [|poll_option rest IH]; intros [|percentage percentages] Hlen;
    try discriminate; [repeat split|].
  injection Hlen as Hlen. destruct (IH percentages Hlen) as (H1 & H2 & H3 & H4 & H5).
  cbn. repeat split; congruence.
Qed.

Lemma shown_counts_le (shown : bool) bound (poll_options : list PollOption) :
  List.Forall (fun o => 0 <= voter_count o <= bound) poll_options ->
  List.Forall2 (fun o v => 0 <= v <= voter_count o) poll_options
    (List.map (fun o => if shown then voter_count o else 0) poll_options).
Proof.
  induction 1 as [|o l Ho Hl IH]; simpl; constructor; [destruct shown; lia|assumption].
Qed.

Lemma shown_counts_total (poll_options : list PollOption) (voter_counts : list Z) :
  List.Forall2 (fun o v => 0 <= v <= voter_count o) poll_options voter_counts ->
  List.Forall (fun v => 0 <= v) voter_counts /\
  total_votes voter_counts <= total_votes (List.map voter_count poll_options).
Proof.
  induction 1 as [|o v l counts Hhead Hrest [IHnn IHle]]; [split; [constructor|simpl; lia]|].
  split; [constructor; [lia|assumption]|].
  cbn [List.map]. unfold total_votes in *. cbn [fold_right]. lia.
Qed.

Section CoveredTotal.
Context {lib : StdLibrary} {laws : StdLibraryLaws lib}.

Lemma get_vote_percentage_covered voter_counts total_voter_count :
  List.Forall (fun v => 0 <= v <= total_voter_count) voter_counts ->
  total_votes voter_counts <= INT32_MAX -> total_voter_count <= INT32_MAX ->
  Z.of_nat (length voter_counts) <= INT32_MAX ->
  exists result,
    get_vote_percentage voter_counts total_voter_count = Some result /\
    length result = length voter_counts /\
    List.Forall (fun p => 0 <= p <= 100) result.
Proof.
  intros Hall Hsum Hmax Hlen.
  assert (Hnn : List.Forall (fun v => 0 <= v) voter_counts)
    by (eapply List.Forall_impl; [|exact Hall]; simpl; intros; lia).
  destruct (Z.le_gt_cases (total_votes voter_counts) total_voter_count) as [Hge|Hlt].
  { destruct (get_vote_percentage_by_count _ _ Hnn Hge Hmax Hlen) as (f & Hres & Hf & Hs).
    exists (List.map f voter_counts). split; [assumption|]. split; [apply length_map|].
    assert (Hpos : List.Forall (fun p => 0 <= p) (List.map f voter_counts)).
    { apply List.Forall_forall. intros p (v & <- & Hv)%in_map_iff. now apply Hf. }
    apply List.Forall_forall. intros p Hp. split.
    - rewrite List.Forall_forall in Hpos. now apply Hpos.
    - pose proof (total_votes_bound _ p Hpos Hp). lia. }
  unfold get_vote_percentage.
  rewrite sum_voter_counts_ok by (simpl; try assumption; lia).
  rewrite Z.add_0_l.
  replace (total_voter_count >? total_votes voter_counts) with false
    by (symmetry; rewrite Z.gtb_ltb; apply Z.ltb_ge; lia).
  destruct (Z.eqb_spec total_voter_count 0) as [Hz|Hnz].
  { exists (repeat 0 (length voter_counts)). split; [reflexivity|].
    split; [apply repeat_length|].
    rewrite repeat_zero_map. apply List.Forall_forall. intros p (v & <- & Hv)%in_map_iff. lia. }
  replace (total_voter_count =? total_votes voter_counts) with false
    by (symmetry; apply Z.eqb_neq; lia).
  cbn [negb]. eexists. split; [reflexivity|]. split; [apply length_map|].
  apply List.Forall_forall. intros p (v & <- & Hv)%in_map_iff.
  rewrite List.Forall_forall in Hall. specialize (Hall v Hv).
  apply round_to_nearest_bounds; lia.
Qed.

(** The read model of a poll whose counts are within their bounds.  With
    no answer pending, counts that are non-negative and below the ceiling
    for the number of options, and a total within [int32], the call
    returns an object and changes nothing; the object has the poll's
    texts and chosen flags in order, shows the voter counts when the poll
    is closed or the user has voted and zeros otherwise, gives every
    option a percentage between 0 and 100, and reports a total that is at
    least the poll's and at least every count shown. *)
Theorem get_poll_object_shows_results s poll_id poll :
  polls_ s !! poll_id = Some poll ->
  pending_answers_ s !! poll_id = None ->
  poll_bounded poll ->
  exists object,
    run (get_poll_object poll_id) s = Some (object, s, []) /\
    List.map td_api.text_ (td_api.options_ object) = List.map text (options poll) /\
    List.map td_api.is_chosen_ (td_api.options_ object) = List.map is_chosen (options poll) /\
    List.map td_api.voter_count_ (td_api.options_ object) =
      List.map (fun o => if existsb is_chosen (options poll) || is_closed poll
                         then voter_count o else 0) (options poll) /\
    List.Forall (fun o => 0 <= td_api.vote_percentage_ o <= 100 /\
                          td_api.voter_count_ o <= td_api.total_voter_count_ object)
      (td_api.options_ object) /\
    total_voter_count poll <= td_api.total_voter_count_ object <= INT32_MAX.
Proof.
  intros Hpoll Hpending [Hbounded Htotal]. unfold run, get_poll_object. rewrite Hpoll, Hpending.
  unfold make_poll_object.
  set (objects := List.map get_poll_option_object (options poll)).
  assert (Hvoted : existsb td_api.is_chosen_ objects = existsb is_chosen (options poll)).
  { subst objects. generalize (options poll). clear. intros l.
    induction l as [|o l IH]; simpl; [reflexivity|]. now rewrite IH. }
  rewrite Hvoted.
  set (shown := existsb is_chosen (options poll) || is_closed poll).
  assert (Hshown : negb (existsb is_chosen (options poll)) && negb (is_closed poll) =
                   negb shown)
    by (subst shown; now destruct (existsb is_chosen (options poll)), (is_closed poll)).
  rewrite Hshown.
  set (shown_options := if negb shown then List.map hide_voter_count objects else objects).
  assert (Hobjects :
    List.map td_api.text_ shown_options = List.map text (options poll) /\
    List.map td_api.is_chosen_ shown_options = List.map is_chosen (options poll) /\
    List.map td_api.voter_count_ shown_options =
      List.map (fun o => if shown then voter_count o else 0) (options poll)).
  { subst shown_options objects. destruct shown; cbn [negb]; rewrite ?List.map_map;
      repeat split; reflexivity. }
  destruct Hobjects as (Htext & Hchosen & Hcounts).
  unfold add32. rewrite Z.add_0_r, to_int32_small by (unfold INT32_MIN, INT32_MAX in *; lia).
  set (voter_counts := List.map td_api.voter_count_ shown_options) in *.
  pose proof (counts_bounded_total _ Hbounded) as Hsum.
  assert (Hcounts_le : List.Forall2 (fun o v => 0 <= v <= voter_count o) (options poll)
                         voter_counts).
  { rewrite Hcounts. now apply (shown_counts_le shown _ _ Hbounded). }
  assert (Hnn : List.Forall (fun v => 0 <= v) voter_counts).
  { exact (proj1 (shown_counts_total _ _ Hcounts_le)). }
  assert (Hbelow : total_votes voter_counts <=
                   total_votes (List.map voter_count (options poll))).
  { exact (proj2 (shown_counts_total _ _ Hcounts_le)). }
  assert (Hlen : length voter_counts = length (options poll)).
  { rewrite Hcounts. apply length_map. }
  assert (Hlen32 : Z.of_nat (length voter_counts) <= INT32_MAX).
  { rewrite Hlen. destruct (options poll) as [|o l] eqn:Hoptions;
      [simpl; unfold INT32_MAX; lia|].
    unfold counts_bounded in Hbounded. inversion Hbounded as [|? ? Ho _]; subst.
    destruct (ceiling_bounds (Z.of_nat (length (o :: l)))) as (Hpos & _ & Hmul); [lia|]. nia. }
  destruct (fix_total_voter_count_spec voter_counts (total_voter_count poll))
    as (Hfix_le & Hfix_all & Hfix_in).
  set (total := fix_total_voter_count voter_counts (total_voter_count poll)) in *.
  assert (Hfix_max : total <= INT32_MAX).
  { destruct Hfix_in as [->|Hin]; [lia|].
    pose proof (total_votes_bound _ _ Hnn Hin). lia. }
  destruct (get_vote_percentage_covered voter_counts total) as (result & Hres & Hrlen & Hrange);
    [|lia|assumption|assumption|].
  { rewrite List.Forall_forall in Hnn, Hfix_all |- *. intros v Hv.
    specialize (Hnn v Hv). specialize (Hfix_all v Hv). lia. }
  rewrite Hres.
  assert (Hsame : length shown_options = length result).
  { rewrite Hrlen. subst voter_counts. now rewrite length_map. }
  rewrite Hsame, Nat.eqb_refl.
  destruct (set_vote_percentage_spec shown_options result Hsame) as (H1 & H2 & H3 & _ & H5).
  eexists. split; [reflexivity|]. cbn [td_api.options_ td_api.total_voter_count_].
  cbv zeta in H1, H2, H3, H5. fold voter_counts in H2.
  split; [congruence|]. split; [congruence|]. split; [now rewrite H2|]. split; [|lia].
  revert H2 H5 Hrange Hfix_all.
  generalize (set_vote_percentage shown_options result). generalize voter_counts.
  generalize total. clear.
  intros total counts objects. revert counts result.
  induction objects as [|object rest IH]; intros [|v l] [|p result]; simpl;
    intros H2 H5 Hrange Hfix; try discriminate; constructor.
  - injection H2 as Hv H2. injection H5 as Hp H5.
    inversion Hrange; inversion Hfix; subst. split; assumption.
  - injection H2 as Hv H2. injection H5 as Hp H5.
    inversion Hrange; inversion Hfix; subst. now apply (IH _ _ eq_refl eq_refl).
Qed.

End CoveredTotal.

(** ** The bounds of the polls the manager holds *)

Section BoundsFacts.
Variable env : Environment.

(** Every poll that [on_get_poll] leaves in memory or in the database is
    within its bounds, if the polls were and the server data is in range;
    the call returns, and the poll it names is known afterwards. *)
Theorem on_get_poll_keeps_polls_bounded s random poll_id poll_server poll_results :
  polls_bounded s ->
  server_data_in_range poll_server poll_results ->
  exists merged s' events,
    run (on_get_poll env random poll_id poll_server poll_results) s =
      Some (merged, s', events) /\
    polls_bounded s' /\
    (merged <> 0 -> exists poll, polls_ s' !! merged = Some poll /\ poll_bounded poll).
Proof.
  intros [Hpolls Hstored] Hrange. unfold run, on_get_poll.
  set (id := match poll_server with
             | Some server => if negb (PollId_is_valid poll_id) then id_ server else poll_id
             | None => poll_id
             end).
  destruct (negb (PollId_is_valid id) || is_local_poll_id id) eqn:Hguard.
  { eexists _, _, _. split; [reflexivity|]. split; [split; assumption|congruence]. }
  apply orb_false_elim in Hguard as [Hvalid Hlocal].
  destruct (match poll_server with
            | Some server => negb (id_ server =? id)
            | None => false
            end).
  { eexists _, _, _. split; [reflexivity|]. split; [split; assumption|congruence]. }
  unfold mbind at 1, M_bind at 1.
  destruct (get_poll_force_effect env s id)
    as (found & s1 & Hforce & Hfound & Hothers & Hsame & Hfrom & _ & _ & _ & _ & Hdatabase).
  unfold run in Hforce. rewrite Hforce.
  assert (Hpolls1 : forall other poll, polls_ s1 !! other = Some poll -> poll_bounded poll).
  { intros other poll Hother. destruct (decide (other = id)) as [->|Hne].
    - rewrite Hfound in Hother. destruct (Hfrom poll Hother) as [Hin|Hin]; eauto.
    - rewrite Hothers in Hother by assumption. eauto. }
  assert (Hfound_ok : poll_bounded (default new_Poll found)).
  { destruct found as [known|]; cbn.
    - apply (Hpolls1 id). now rewrite Hfound.
    - split; [constructor|]. cbn. unfold INT32_MAX. lia. }
  pose proof (merge_poll_bounded _ poll_server poll_results Hfound_ok Hrange) as Hmerged.
  assert (Hnone : found = None -> poll_server = None ->
            exists merged s' events,
              Some (0, s1, @nil Event) = Some (merged, s', events) /\
              polls_bounded s' /\
              (merged <> 0 -> exists poll, polls_ s' !! merged = Some poll /\
                                           poll_bounded poll)).
  { intros _ _. eexists _, _, _. split; [reflexivity|].
    split; [split; [assumption|now rewrite Hdatabase]|congruence]. }
  destruct found as [known|], poll_server as [server|];
    [ | | |now apply Hnone].
  all: cbn [default] in Hmerged |- *;
    match goal with
    | |- context [merge_poll ?p ?srv ?res] =>
        destruct (merge_poll p srv res) as [poll' is_changed]
    end;
    cbn [fst] in Hmerged; unfold save_poll; rewrite Hlocal;
    destruct (negb (is_bot env) && negb (is_closed poll')), is_changed,
      (use_message_db env); run_manager; simpl;
    eexists _, _, _; (split; [reflexivity|]); simpl;
    (split; [split; simpl|intros _; exists poll'; split;
                            [apply lookup_insert_eq|assumption]]);
    try (intros other poll [[_ <-]|[_ Hother]]%lookup_insert_Some;
         [assumption|rewrite ?Hdatabase in Hother; eauto]);
    try (rewrite Hdatabase; assumption).
Qed.

End BoundsFacts.

(** ** Drafts *)

Section DraftFacts.
Variable CHAR_MAX : Z.

Lemma create_poll_options_spec option_texts : forall pos,
  0 <= pos -> pos + Z.of_nat (length option_texts) <= CHAR_MAX + 1 ->
  exists poll_options,
    create_poll_options CHAR_MAX option_texts pos = Some poll_options /\
    List.map text poll_options = option_texts /\
    List.map data poll_options =
      List.map (fun k => String (Ascii.ascii_of_nat k) EmptyString)
        (seq (Z.to_nat pos) (length option_texts)) /\
    List.Forall (fun o => voter_count o = 0 /\ is_chosen o = false) poll_options.
Proof.
  induction option_texts as [|option_text rest IH]; intros pos Hpos Hlen.
  - exists []. repeat split. constructor.
  - cbn [length] in Hlen. cbn [create_poll_options].
    replace ((0 <=? pos) && (pos <=? CHAR_MAX)) with true by lia.
    destruct (IH (pos + 1)) as (poll_options & -> & Htext & Hdata & Hall); [lia|lia|].
    eexists. split; [reflexivity|]. cbn [List.map text data length seq].
    replace (S (Z.to_nat pos)) with (Z.to_nat (pos + 1)) by lia.
    repeat split; [congruence|congruence|]. constructor; [split; reflexivity|assumption].
Qed.

Lemma create_poll_options_overflow option_texts : forall pos,
  0 <= pos <= CHAR_MAX + 1 -> CHAR_MAX + 1 < pos + Z.of_nat (length option_texts) ->
  create_poll_options CHAR_MAX option_texts pos = None.
Proof.
  induction option_texts as [|option_text rest IH]; intros pos Hpos Hlen.
  - cbn [length] in Hlen. lia.
  - cbn [length] in Hlen. cbn [create_poll_options].
    destruct ((0 <=? pos) && (pos <=? CHAR_MAX)) eqn:Hrange; [|reflexivity].
    rewrite IH by lia. reflexivity.
Qed.

Lemma option_data_NoDup first count :
  (first + count <= 256)%nat ->
  NoDup (List.map (fun k => String (Ascii.ascii_of_nat k) EmptyString) (seq first count)).
Proof.
  intros Hrange. apply (NoDup_fmap_2_strong _ (seq first count)); [|apply NoDup_seq].
  intros j k Hj%elem_of_seq Hk%elem_of_seq [= Heq].
  rewrite <- (Ascii.nat_ascii_embedding j), <- (Ascii.nat_ascii_embedding k) by lia.
  now rewrite Heq.
Qed.

(** A draft: with no more options than [char] has non-negative values and
    a counter of local identifiers that has room, [create_poll] returns
    the next identifier below the counter, which is local, and stores
    under it an open poll with the question, the option texts in order,
    pairwise distinct option identifiers, no votes and no chosen option;
    every other poll is as before and nothing is emitted. *)
Theorem create_poll_fresh s question_text option_texts :
  CHAR_MAX <= 255 ->
  Z.of_nat (length option_texts) <= CHAR_MAX + 1 ->
  INT32_MIN + 1 < current_local_poll_id_ s <= 0 ->
  polls_ s !! (current_local_poll_id_ s - 1) = None ->
  let poll_id := current_local_poll_id_ s - 1 in
  exists s' poll,
    run (create_poll CHAR_MAX question_text option_texts) s = Some (poll_id, s', []) /\
    is_local_poll_id poll_id = true /\
    polls_ s' = <[poll_id := poll]> (polls_ s) /\
    current_local_poll_id_ s' = poll_id /\
    question poll = question_text /\
    List.map text (options poll) = option_texts /\
    NoDup (List.map data (options poll)) /\
    List.Forall (fun o => voter_count o = 0 /\ is_chosen o = false) (options poll) /\
    total_voter_count poll = 0 /\ is_closed poll = false.
Proof.
  intros Hchar Hlen Hcounter Hfresh poll_id. subst poll_id.
  destruct (create_poll_options_spec option_texts 0) as (poll_options & Hcreate & Htext & Hdata
                                                         & Hall); [lia|lia|].
  unfold run, create_poll. rewrite Hcreate.
  assert (Hid : to_int64 (current_local_poll_id_ s - 1) = current_local_poll_id_ s - 1).
  { unfold to_int64. unfold INT32_MIN in Hcounter.
    rewrite Z.mod_small by lia. lia. }
  unfold have_poll, get_poll. run_manager. cbn [current_local_poll_id_ polls_ set_current_local_poll_id].
  rewrite Hid.
  assert (Hlocal : is_local_poll_id (current_local_poll_id_ s - 1) = true).
  { unfold is_local_poll_id, INT32_MIN in *. lia. }
  rewrite Hlocal. cbv iota.
  change (polls_ (set_current_local_poll_id (current_local_poll_id_ s - 1) s))
    with (polls_ s).
  rewrite Hfresh.
  rewrite bool_decide_eq_false_2 by (intros [? [=]]). cbv iota.
  eexists _, _. split; [reflexivity|].
  cbn [polls_ set_polls set_current_local_poll_id current_local_poll_id_ question options
       total_voter_count is_closed].
  repeat split; try assumption.
  cbn [options]. rewrite Hdata. apply option_data_NoDup. lia.
Qed.

(** More options than [char] has non-negative values abort the call. *)
Theorem create_poll_too_many_options s question_text option_texts :
  0 <= CHAR_MAX ->
  CHAR_MAX + 1 < Z.of_nat (length option_texts) ->
  run (create_poll CHAR_MAX question_text option_texts) s = None.
Proof.
  intros Hchar Hlen. unfold run, create_poll.
  now rewrite create_poll_options_overflow by lia.
Qed.

End DraftFacts.

(** ** Registration of messages and the polling of results *)

#[local] Instance append_set_laws : StdSetLibraryLaws append_set_library.
Proof.
  constructor. intros full_message_id messages. simpl.
  symmetry. apply Permutation_cons_append.
Qed.

Lemma unordered_set_erase_absent full_message_id messages :
  full_message_id ∉ messages -> unordered_set_erase full_message_id messages = messages.
Proof.
  unfold unordered_set_erase. induction messages as [|other rest IH]; intros Hnot;
    [reflexivity|].
  apply not_elem_of_cons in Hnot as [Hne Hrest]. cbn [List.filter].
  rewrite bool_decide_eq_false_2 by congruence. cbn [negb]. now rewrite IH.
Qed.

Lemma unordered_set_erase_perm full_message_id messages messages' :
  Permutation messages' (full_message_id :: messages) ->
  full_message_id ∉ messages ->
  Permutation (unordered_set_erase full_message_id messages') messages.
Proof.
  intros Hperm Hnot. unfold unordered_set_erase.
  rewrite (filter_perm _ _ _ Hperm). cbn [List.filter].
  rewrite bool_decide_eq_true_2 by reflexivity. cbn [negb].
  fold (unordered_set_erase full_message_id messages).
  now rewrite unordered_set_erase_absent.
Qed.

Section RegistrationFacts.
Variable env : Environment.
Context {set_lib : StdSetLibrary} {set_laws : StdSetLibraryLaws set_lib}.

Lemma register_poll_run s poll_id full_message_id poll :
  polls_ s !! poll_id = Some poll ->
  full_message_id ∉ default [] (poll_messages_ s !! poll_id) ->
  run (register_poll env poll_id full_message_id) s =
    Some (tt,
          set_poll_messages (fun all =>
            <[poll_id := unordered_set_insert full_message_id
                           (default [] (poll_messages_ s !! poll_id))]> all) s,
          if negb (is_bot env) && negb (is_local_poll_id poll_id) && negb (is_closed poll)
          then [AddTimeoutIn poll_id 0%Q] else []).
Proof.
  intros Hpoll Hnew. unfold run, register_poll, have_poll, get_poll_is_closed, get_poll.
  run_manager. rewrite Hpoll.
  rewrite bool_decide_eq_true_2 by eauto. cbv iota.
  rewrite bool_decide_eq_false_2 by assumption. cbv iota.
  destruct (is_bot env), (is_local_poll_id poll_id); cbn [negb andb]; try reflexivity.
  run_manager. cbn [polls_ set_poll_messages]. rewrite Hpoll.
  destruct (is_closed poll); reflexivity.
Qed.

Lemma unregister_poll_run s poll_id full_message_id poll :
  polls_ s !! poll_id = Some poll ->
  full_message_id ∈ default [] (poll_messages_ s !! poll_id) ->
  run (unregister_poll poll_id full_message_id) s =
    Some (tt,
          set_poll_messages (fun all =>
            match unordered_set_erase full_message_id
                    (default [] (poll_messages_ s !! poll_id)) with
            | [] => delete poll_id all
            | message_ids => <[poll_id := message_ids]> all
            end) s,
          match unordered_set_erase full_message_id
                  (default [] (poll_messages_ s !! poll_id)) with
          | [] => [CancelTimeout poll_id]
          | _ => []
          end).
Proof.
  intros Hpoll Hold. unfold run, unregister_poll, have_poll, get_poll.
  run_manager. rewrite Hpoll.
  rewrite bool_decide_eq_true_2 by eauto. cbv iota.
  rewrite bool_decide_eq_true_2 by assumption. cbv iota.
  destruct (unordered_set_erase full_message_id _); run_manager; reflexivity.
Qed.

(** Registering a message of a known poll: the message joins the messages
    of the poll, those of other polls are as before, a first fetch is
    scheduled at once exactly when the account is a user's and the poll is
    a server poll that is open, and a later update of the poll notifies
    the new message and the earlier ones, each once. *)
Theorem register_poll_notifies s poll_id full_message_id poll :
  polls_ s !! poll_id = Some poll ->
  full_message_id ∉ default [] (poll_messages_ s !! poll_id) ->
  exists s' messages,
    run (register_poll env poll_id full_message_id) s =
      Some (tt, s',
            if negb (is_bot env) && negb (is_local_poll_id poll_id) && negb (is_closed poll)
            then [AddTimeoutIn poll_id 0%Q] else []) /\
    poll_messages_ s' !! poll_id = Some messages /\
    Permutation messages (full_message_id :: default [] (poll_messages_ s !! poll_id)) /\
    (forall other, other <> poll_id -> poll_messages_ s' !! other = poll_messages_ s !! other) /\
    polls_ s' = polls_ s /\
    run (notify_on_poll_update poll_id) s' =
      Some (tt, s', List.map OnUpdateMessageContent messages).
Proof.
  intros Hpoll Hnew. eexists _, _. split; [now apply register_poll_run|].
  cbn [poll_messages_ set_poll_messages polls_].
  split; [apply lookup_insert_eq|]. split; [apply unordered_set_insert_perm|].
  split; [intros other Hother; now apply lookup_insert_ne|]. split; [reflexivity|].
  unfold run. rewrite notify_on_poll_update_run. cbn [poll_messages_ set_poll_messages].
  now rewrite lookup_insert_eq.
Qed.

(** Unregistering undoes registering: after both calls every poll has the
    messages it had, up to the order of their enumeration, and a poll
    that had none is no longer registered and has its timeout cancelled;
    while other messages remain, no timeout is cancelled. *)
Theorem unregister_poll_undoes_register s poll_id full_message_id poll :
  polls_ s !! poll_id = Some poll ->
  full_message_id ∉ default [] (poll_messages_ s !! poll_id) ->
  exists s1 events1 s2,
    run (register_poll env poll_id full_message_id) s = Some (tt, s1, events1) /\
    run (unregister_poll poll_id full_message_id) s1 =
      Some (tt, s2,
            match default [] (poll_messages_ s !! poll_id) with
            | [] => [CancelTimeout poll_id]
            | _ => []
            end) /\
    (forall other,
       Permutation (default [] (poll_messages_ s2 !! other))
                   (default [] (poll_messages_ s !! other))) /\
    (default [] (poll_messages_ s !! poll_id) = [] -> poll_messages_ s2 !! poll_id = None) /\
    polls_ s2 = polls_ s.
Proof.
  intros Hpoll Hnew.
  remember (default [] (poll_messages_ s !! poll_id)) as messages eqn:Hmessages.
  set (s1 := set_poll_messages (fun all =>
               <[poll_id := unordered_set_insert full_message_id messages]> all) s).
  exists s1. eexists.
  exists (set_poll_messages (fun all =>
            match unordered_set_erase full_message_id
                    (unordered_set_insert full_message_id messages) with
            | [] => delete poll_id all
            | message_ids => <[poll_id := message_ids]> all
            end) s1).
  split; [subst messages; now apply (register_poll_run _ _ _ poll)|].
  pose proof (unordered_set_erase_perm full_message_id messages _
                (unordered_set_insert_perm full_message_id messages) Hnew) as Hperm.
  assert (Hlook : default [] (poll_messages_ s1 !! poll_id) =
                  unordered_set_insert full_message_id messages).
  { subst s1. cbn [poll_messages_ set_poll_messages]. now rewrite lookup_insert_eq. }
  rewrite (unregister_poll_run s1 poll_id full_message_id poll);
    [|exact Hpoll|rewrite Hlook, (unordered_set_insert_perm full_message_id messages); left].
  rewrite Hlook.
  destruct (unordered_set_erase full_message_id
              (unordered_set_insert full_message_id messages)) as [|first others] eqn:Herase.
  - apply Permutation_nil in Hperm. rewrite Hperm.
    split; [reflexivity|]. subst s1. cbn [poll_messages_ set_poll_messages polls_].
    split; [|split; [intros _; apply lookup_delete_eq|reflexivity]].
    intros other. destruct (decide (other = poll_id)) as [->|Hne].
    + rewrite lookup_delete_eq. now rewrite <- Hmessages, Hperm.
    + rewrite lookup_delete_ne, lookup_insert_ne by congruence. reflexivity.
  - destruct messages as [|m ms].
    { symmetry in Hperm. now apply Permutation_nil in Hperm. }
    split; [reflexivity|]. subst s1. cbn [poll_messages_ set_poll_messages polls_].
    split; [|split; [discriminate|reflexivity]].
    intros other. destruct (decide (other = poll_id)) as [->|Hne].
    + rewrite lookup_insert_eq. now rewrite <- Hmessages.
    + rewrite !lookup_insert_ne by congruence. reflexivity.
Qed.

(** Registration never leaves an empty set of messages behind: for a
    known poll, registering a new message and unregistering a registered
    one both return and keep the invariant, so that the fetch of a
    timeout always finds a message to name. *)
Theorem registration_keeps_messages_nonempty s poll_id full_message_id poll :
  poll_messages_nonempty s ->
  polls_ s !! poll_id = Some poll ->
  (full_message_id ∉ default [] (poll_messages_ s !! poll_id) ->
   exists s' events,
     run (register_poll env poll_id full_message_id) s = Some (tt, s', events) /\
     poll_messages_nonempty s') /\
  (full_message_id ∈ default [] (poll_messages_ s !! poll_id) ->
   exists s' events,
     run (unregister_poll poll_id full_message_id) s = Some (tt, s', events) /\
     poll_messages_nonempty s').
Proof.
  intros Hinv Hpoll. split.
  - intros Hnew. eexists _, _. split; [now apply (register_poll_run _ _ _ poll)|].
    intros other messages. cbn [poll_messages_ set_poll_messages].
    intros [[_ <-]|[_ Hother]]%lookup_insert_Some; [|now apply (Hinv other)].
    intros Hnil.
    pose proof (unordered_set_insert_perm full_message_id
                  (default [] (poll_messages_ s !! poll_id))) as Hperm.
    rewrite Hnil in Hperm. now apply Permutation_nil in Hperm.
  - intros Hold. eexists _, _. split; [now apply (unregister_poll_run _ _ _ poll)|].
    intros other messages. cbn [poll_messages_ set_poll_messages].
    destruct (unordered_set_erase full_message_id _) as [|first others].
    + intros [_ Hother]%lookup_delete_Some. now apply (Hinv other).
    + intros [[_ <-]|[_ Hother]]%lookup_insert_Some; [discriminate|now apply (Hinv other)].
Qed.

End RegistrationFacts.

Section PollingFacts.
Variable env : Environment.

(** The fetch of a timeout.  For a user's account and a known server
    poll, with no empty set of messages registered, the call returns;
    it makes no call when the poll is closed or has no message, and
    otherwise sends one query that names a registered message of the
    poll and carries the current generation.  A result of that query is
    passed on as updates while the generation stays, and once a vote has
    been submitted in between it is dropped and the poll is fetched again
    at once. *)
Theorem on_update_poll_timeout_fetches s poll_id poll :
  is_bot env = false ->
  is_local_poll_id poll_id = false ->
  polls_ s !! poll_id = Some poll ->
  poll_messages_nonempty s ->
  0 <= current_generation_ s < UINT64_MOD ->
  exists calls,
    on_update_poll_timeout env poll_id s = Some calls /\
    (is_closed poll = true \/ poll_messages_ s !! poll_id = None -> calls = []) /\
    (is_closed poll = false ->
     forall messages, poll_messages_ s !! poll_id = Some messages ->
       exists full_message_id,
         full_message_id ∈ messages /\
         calls = [GetPollResultsQuerySend poll_id full_message_id (current_generation_ s)]) /\
    (forall random updates,
       run (on_get_poll_results env random poll_id (current_generation_ s) (Ok updates)) s =
         Some (tt, s, [OnGetUpdates updates])) /\
    (is_closed poll = false -> pending_answers_ s !! poll_id = None ->
     forall random updates full_message_id options promise,
     exists s1 events1,
       run (do_set_poll_answer env poll_id full_message_id options 0 promise) s =
         Some (tt, s1, events1) /\
       run (on_get_poll_results env random poll_id (current_generation_ s) (Ok updates)) s1 =
         Some (tt, s1, [SetTimeoutIn poll_id 0%Q])).
Proof.
  intros Hbot Hlocal Hpoll Hinv Hgen. unfold on_update_poll_timeout.
  rewrite Hbot, Hlocal, Hpoll.
  assert (Hcalls : exists calls,
    (if is_closed poll then Some []
     else match poll_messages_ s !! poll_id with
          | Some [] => None
          | Some (full_message_id :: _) =>
              Some [GetPollResultsQuerySend poll_id full_message_id (current_generation_ s)]
          | None => Some []
          end) = Some calls /\
    (is_closed poll = true \/ poll_messages_ s !! poll_id = None -> calls = []) /\
    (is_closed poll = false ->
     forall messages, poll_messages_ s !! poll_id = Some messages ->
       exists full_message_id,
         full_message_id ∈ messages /\
         calls = [GetPollResultsQuerySend poll_id full_message_id (current_generation_ s)])).
  { destruct (is_closed poll).
    { eexists. split; [reflexivity|]. split; [reflexivity|discriminate]. }
    destruct (poll_messages_ s !! poll_id) as [[|first others]|] eqn:Hmessages.
    - now destruct (Hinv poll_id [] Hmessages).
    - eexists. split; [reflexivity|]. split; [intros [|]; discriminate|].
      intros _ messages [= <-]. exists first. split; [left|reflexivity].
    - eexists. split; [reflexivity|]. split; [reflexivity|discriminate]. }
  destruct Hcalls as (calls & Hsome & Hnone & Hquery).
  exists calls. split; [assumption|]. split; [assumption|]. split; [assumption|]. split.
  - intros random updates. unfold run, on_get_poll_results. run_manager.
    now rewrite Z.eqb_refl.
  - intros Hopen Hidle random updates full_message_id options promise.
    pose proof (do_set_poll_answer_starts env s poll_id full_message_id options promise Hidle)
      as Hrun.
    cbv zeta in Hrun.
    match type of Hrun with
    | _ = Some (tt, ?state, _) => set (s1 := state) in *
    end.
    assert (Hpolls1 : polls_ s1 = polls_ s)
      by (subst s1; destruct (use_message_db env); reflexivity).
    assert (Hgen1 : current_generation_ s1 = incr64 (current_generation_ s))
      by (subst s1; destruct (use_message_db env); reflexivity).
    clearbody s1. exists s1. eexists. split; [exact Hrun|].
    assert (Hincr : incr64 (current_generation_ s) <> current_generation_ s).
    { unfold incr64, to_uint64, UINT64_MOD in *.
      destruct (Z.eq_dec (current_generation_ s + 1) 18446744073709551616) as [Hwrap|Hsmall].
      - rewrite Hwrap, Z.mod_same by lia. lia.
      - rewrite Z.mod_small by lia. lia. }
    unfold run, on_get_poll_results, get_poll_is_closed, get_poll. run_manager.
    rewrite Hgen1.
    replace (current_generation_ s =? incr64 (current_generation_ s)) with false
      by (symmetry; apply Z.eqb_neq; congruence).
    cbv iota. now rewrite Hpolls1, Hpoll, Hopen, Hbot.
Qed.

End PollingFacts.

(** ** The replay of the binlog *)

Section ReplayFacts.
Variable env : Environment.

Lemma do_set_poll_answer_replays s poll_id full_message_id options logevent_id promise :
  pending_answers_ s !! poll_id = None ->
  logevent_id <> 0 ->
  run (do_set_poll_answer env poll_id full_message_id options logevent_id promise) s =
    Some (tt,
          set_pending_answers (fun pending =>
            <[poll_id := mkPendingAnswer options [promise] (incr64 (current_generation_ s))
                           logevent_id None]> pending)
            (set_current_generation (incr64 (current_generation_ s)) s),
          List.map OnUpdateMessageContent (default [] (poll_messages_ s !! poll_id)) ++
          [SetPollAnswerActorSend poll_id full_message_id options
             (incr64 (current_generation_ s))]).
Proof.
  intros Hidle Hid. unfold run, do_set_poll_answer.
  unfold mbind at 1, M_bind at 1, gets at 1. rewrite Hidle.
  change (default new_PendingAnswer None) with new_PendingAnswer.
  cbn [new_PendingAnswer promises_ options_ generation_ logevent_id_ query_ref_].
  rewrite (bool_decide_eq_true_2 (@nil Promise = [])) by reflexivity.
  replace (logevent_id =? 0) with false by (symmetry; now apply Z.eqb_neq).
  cbn [negb andb orb]. rewrite !Z.eqb_refl. cbn [andb orb].
  run_manager. simpl. reflexivity.
Qed.

(** The replay with the message database in use.  The entry of a vote
    for a poll without pending answer resolves the dependencies of the
    dialog and then submits the vote again: the request carries the
    logged message and options, the pending answer takes over the entry
    instead of logging a new one, and the successful response erases the
    entry.  The entry of a stopped poll sends the request again, with a
    promise that erases the entry, and logs nothing either. *)
Theorem on_binlog_events_resends s event_id poll_id full_message_id options :
  use_message_db env = true ->
  event_id <> 0 ->
  (pending_answers_ s !! poll_id = None ->
   exists s',
     on_binlog_events env
       [mkBinlogEvent event_id SetPollAnswer
          (SetPollAnswerLogEvent poll_id full_message_id options)] s =
       Some (s',
             AddDialogDependencies (fst full_message_id) :: ResolveDependenciesForce ::
             List.map ManagerEvent
               (List.map OnUpdateMessageContent (default [] (poll_messages_ s !! poll_id)) ++
                [SetPollAnswerActorSend poll_id full_message_id options
                   (incr64 (current_generation_ s))])) /\
     pending_answers_ s' !! poll_id =
       Some (mkPendingAnswer options [AutoPromise] (incr64 (current_generation_ s))
               event_id None) /\
     binlog_ s' = binlog_ s /\ binlog_last_id_ s' = binlog_last_id_ s /\
     exists s'',
       run (on_set_poll_answer env poll_id (incr64 (current_generation_ s)) (Ok tt)) s' =
         Some (tt, s'', [PromiseSetValue AutoPromise]) /\
       binlog_ s'' = delete event_id (binlog_ s) /\
       pending_answers_ s'' !! poll_id = None) /\
  on_binlog_events env
    [mkBinlogEvent event_id StopPoll (StopPollLogEvent poll_id full_message_id)] s =
    Some (s,
          [AddDialogDependencies (fst full_message_id); ResolveDependenciesForce;
           ManagerEvent (StopPollActorSend full_message_id
                           (EraseLogeventPromise event_id AutoPromise))]).
Proof.
  intros Hdb Hid. split.
  - intros Hidle. cbn [on_binlog_events type_ data_ event_id_]. rewrite Hdb. cbn [negb].
    rewrite do_set_poll_answer_replays by assumption.
    eexists. split; [now rewrite app_nil_r|].
    cbn [pending_answers_ set_pending_answers binlog_ binlog_last_id_ set_current_generation].
    split; [apply lookup_insert_eq|]. split; [reflexivity|]. split; [reflexivity|].
    match goal with
    | |- context [run _ ?s1] =>
        pose proof (on_set_poll_answer_run env s1 poll_id (Ok tt)
                      (mkPendingAnswer options [AutoPromise] (incr64 (current_generation_ s))
                         event_id None)) as Hrun
    end.
    cbn [generation_ promises_ logevent_id_] in Hrun.
    rewrite Hrun; [|apply lookup_insert_eq|discriminate|now rewrite andb_false_r].
    replace (event_id =? 0) with false by (symmetry; now apply Z.eqb_neq).
    eexists. split; [reflexivity|].
    cbn [pending_answers_ set_pending_answers binlog_ set_binlog set_current_generation].
    split; [reflexivity|apply lookup_delete_eq].
  - cbn [on_binlog_events type_ data_ event_id_]. rewrite Hdb. cbn [negb].
    unfold run, do_stop_poll, get_erase_logevent_promise.
    replace (event_id =? 0) with false by (symmetry; now apply Z.eqb_neq).
    cbn [andb]. run_manager. reflexivity.
Qed.

(** The replay without the message database erases every entry and does
    nothing else: no request is sent, and polls, pending answers and the
    generation are as before. *)
Theorem on_binlog_events_erases events : forall s,
  use_message_db env = false ->
  List.Forall (fun event => type_ event = SetPollAnswer \/ type_ event = StopPoll) events ->
  exists s',
    on_binlog_events env events s = Some (s', []) /\
    (forall id, binlog_ s' !! id =
                if bool_decide (id ∈ List.map event_id_ events) then None
                else binlog_ s !! id) /\
    polls_ s' = polls_ s /\
    pending_answers_ s' = pending_answers_ s /\
    current_generation_ s' = current_generation_ s.
Proof.
  intros s Hdb Hall. revert s.
  induction Hall as [|event rest Htype Hrest IH]; intros s.
  - exists s. split; [reflexivity|]. repeat split.
  - cbn [on_binlog_events]. rewrite Hdb. cbn [negb].
    set (s1 := set_binlog (fun b => delete (event_id_ event) b) (binlog_last_id_ s) s).
    assert (Hstep : run (binlog_erase (event_id_ event)) s = Some (tt, s1, [])) by reflexivity.
    destruct (IH s1) as (s' & Hreplay & Hbinlog & Hpolls & Hpending & Hgen).
    exists s'. split.
    { destruct Htype as [Htype|Htype]; rewrite Htype; destruct (data_ event);
        rewrite Hstep, Hreplay; reflexivity. }
    split; [|now rewrite Hpolls, Hpending, Hgen].
    intros id. rewrite Hbinlog. cbn [List.map].
    destruct (decide (id ∈ List.map event_id_ rest)) as [Hin|Hnot].
    + rewrite !bool_decide_eq_true_2; [reflexivity|now right|assumption].
    + rewrite (bool_decide_eq_false_2 _ Hnot). subst s1. cbn [binlog_ set_binlog].
      destruct (decide (id = event_id_ event)) as [->|Hne].
      * rewrite bool_decide_eq_true_2 by left. apply lookup_delete_eq.
      * rewrite bool_decide_eq_false_2 by (intros [?|?]%elem_of_cons; contradiction).
        now apply lookup_delete_ne.
Qed.

(** An entry of a type that the manager does not handle aborts the
    replay, wherever it stands in the log. *)
Theorem on_binlog_events_unsupported events event type : forall s,
  In event events ->
  type_ event = OtherHandler type ->
  on_binlog_events env events s = None.
Proof.
  induction events as [|first rest IH]; intros s Hin Htype; [contradiction|].
  cbn [on_binlog_events].
  match goal with
  | |- match ?step with _ => _ end = None => destruct step as [[s1 calls]|] eqn:Hstep
  end; [|reflexivity].
  destruct Hin as [->|Hin].
  - rewrite Htype in Hstep. discriminate.
  - now rewrite (IH s1 Hin Htype).
Qed.

End ReplayFacts.

(** ** The poll as it is sent *)

(** What is sent for a poll comes back as the same poll: the media built
    for a known poll carries its question, and the options read back from
    it have the texts and identifiers of the poll's options, in order,
    with no votes. *)
Theorem get_input_media_round_trip s poll_id poll :
  polls_ s !! poll_id = Some poll ->
  exists media,
    run (get_input_media poll_id) s = Some (media, s, []) /\
    question_ media = question poll /\
    List.map text (get_poll_options (answers_ media)) = List.map text (options poll) /\
    List.map data (get_poll_options (answers_ media)) = List.map data (options poll) /\
    List.Forall (fun o => voter_count o = 0 /\ is_chosen o = false)
      (get_poll_options (answers_ media)).
Proof.
  intros Hpoll. unfold run, get_input_media, get_poll. run_manager. rewrite Hpoll.
  eexists. split; [reflexivity|]. cbn [question_ answers_].
  destruct (get_poll_options_spec (List.map get_input_poll_option (options poll)))
    as (Htext & Hdata & Hall).
  rewrite List.map_map in Htext, Hdata. split; [reflexivity|].
  split; [exact Htext|]. split; [exact Hdata|exact Hall].
Qed.

(** ** The closeness of the percentages *)

Lemma filter_keys_NoDup {A} (key : A -> Z) (f : A -> bool) (l : list A) :
  NoDup (List.map key l) -> NoDup (List.map key (List.filter f l)).
Proof.
  induction l as [|x l IH]; simpl; [trivial|].
  intros [Hnotin Hnd]%NoDup_cons. destruct (f x); simpl; [|now apply IH].
  apply NoDup_cons. split; [|now apply IH].
  intros Hin%list_elem_of_In. apply Hnotin, list_elem_of_In.
  apply in_map_iff in Hin as (y & Hy & Hin). apply filter_In in Hin as [Hin _].
  rewrite <- Hy. now apply in_map.
Qed.

Section Closeness.
Context {lib : StdLibrary} {laws : StdLibraryLaws lib}.

Lemma sorted_options_keys voter_counts gap result total options :
  options_of voter_counts options ->
  NoDup (List.map (fun option => at_pos voter_counts (pos option))
           (get_sorted_options gap result total options)) /\
  List.Forall (fun option => is_kept gap result total option = true /\
                             0 <= pos option < Z.of_nat (length voter_counts))
    (get_sorted_options gap result total options).
Proof.
  intros (Hnd & _ & Hall). unfold get_sorted_options. split.
  - rewrite (Permutation_map _ (std_sort_perm _ _)).
    apply filter_keys_NoDup.
    rewrite (Permutation_map _ (Permutation_map _ (unordered_map_order_perm _))).
    rewrite List.map_map.
    replace (List.map (fun entry => at_pos voter_counts (pos (snd entry))) options)
      with (List.map fst options); [assumption|].
    apply map_ext_in. intros entry Hentry. rewrite List.Forall_forall in Hall.
    now destruct (Hall entry Hentry) as (_ & _ & ->).
  - apply List.Forall_forall. intros option Hin.
    apply (Permutation_in _ (std_sort_perm _ _)) in Hin.
    apply filter_In in Hin as [Hin Hkept]. split; [assumption|].
    apply in_map_iff in Hin as (entry & <- & Hin).
    apply (Permutation_in _ (unordered_map_order_perm _)) in Hin.
    rewrite List.Forall_forall in Hall. now destruct (Hall entry Hin) as (_ & Hpos & _).
Qed.

End Closeness.

Lemma distribute_near voter_counts sorted_options :
  NoDup (List.map (fun option => at_pos voter_counts (pos option)) sorted_options) ->
  forall left_percent (f : Z -> Z),
  (forall v, In v (List.map (fun option => at_pos voter_counts (pos option)) sorted_options) ->
     0 <= f v <= 100) ->
  exists f',
    distribute voter_counts sorted_options left_percent (List.map f voter_counts) =
      List.map f' voter_counts /\
    forall v, f' v = f v \/
              (f' v = f v + 1 /\
               In v (List.map (fun option => at_pos voter_counts (pos option))
                       sorted_options)).
Proof.
  induction sorted_options as [|option rest IH]; intros Hnd left_percent f Hf.
  - exists f. split; [reflexivity|]. now left.
  - cbn [List.map] in Hnd, Hf. apply NoDup_cons in Hnd as [Hnotin Hnd].
    set (k := at_pos voter_counts (pos option)) in *.
    cbn [distribute List.map]. fold k.
    destruct (count option <=? left_percent).
    2:{ destruct (IH Hnd left_percent f) as (f' & Hres & Hnear).
        { intros v Hv. apply Hf. now right. }
        exists f'. split; [assumption|].
        intros v. destruct (Hnear v) as [Heq|[Heq Hin]]; [now left|right].
        split; [assumption|now right]. }
    rewrite add_percent_map.
    set (f1 := fun v => if v =? k then add32 (f v) 1 else f v).
    assert (Hf1 : forall v, f1 v = if v =? k then f v + 1 else f v).
    { intros v. unfold f1. destruct (Z.eqb_spec v k) as [->|_]; [|reflexivity].
      unfold add32. specialize (Hf k (or_introl eq_refl)).
      apply to_int32_small. unfold INT32_MIN, INT32_MAX. lia. }
    assert (Hstop : forall v, f1 v = f v \/ (f1 v = f v + 1 /\ In v (k :: List.map
                      (fun option => at_pos voter_counts (pos option)) rest))).
    { intros v. rewrite Hf1. destruct (Z.eqb_spec v k) as [->|_]; [right|now left].
      split; [reflexivity|now left]. }
    destruct (sub32 left_percent (count option) =? 0).
    { exists f1. split; [reflexivity|exact Hstop]. }
    destruct (IH Hnd (sub32 left_percent (count option)) f1) as (f' & Hres & Hnear).
    { intros v Hv. rewrite Hf1. destruct (Z.eqb_spec v k) as [->|_].
      - exfalso. now apply Hnotin, list_elem_of_In.
      - apply Hf. now right. }
    exists f'. split; [assumption|].
    intros v. destruct (Hnear v) as [Heq|[Heq Hin]].
    + rewrite Heq. apply Hstop.
    + rewrite Heq, Hf1. destruct (Z.eqb_spec v k) as [->|_].
      * exfalso. now apply Hnotin, list_elem_of_In.
      * right. split; [reflexivity|now right].
Qed.

Lemma floor_or_next_close sum (f : Z -> Z) (l : list Z) :
  0 < sum -> List.Forall (fun v => 0 <= v <= sum) l ->
  (forall v, In v l ->
     f v = floor_percent sum v \/
     (f v = floor_percent sum v + 1 /\ 2 * gap_of sum v <= sum)) ->
  List.Forall2 (fun v p => - sum < p * sum - 100 * v /\ 2 * (p * sum - 100 * v) <= sum)
    l (List.map f l).
Proof.
  intros Hsum Hbelow. induction Hbelow as [|v l Hv Hl IH]; intros Hf; [constructor|].
  cbn [List.map]. constructor.
  - pose proof (gap_of_bounds sum v Hsum Hv) as Hgap.
    destruct (floor_percent_bounds sum v Hsum Hv) as [_ Hfloor].
    unfold gap_of in *.
    destruct (Hf v (or_introl eq_refl)) as [->|[-> Hhalf]]; lia.
  - apply IH. intros w Hw. apply Hf. now right.
Qed.

Section NearExact.
Context {lib : StdLibrary} {laws : StdLibraryLaws lib}.

(** How close the percentages are to the exact shares.  With at least one
    vote and a total that covers the votes, the percentage of every
    option is its exact share of the votes rounded down or up: it is less
    than one point below the share and at most half a point above it. *)
Theorem get_vote_percentage_near_exact voter_counts total_voter_count :
  List.Forall (fun v => 0 <= v) voter_counts ->
  0 < total_votes voter_counts <= total_voter_count ->
  total_voter_count <= INT32_MAX ->
  Z.of_nat (length voter_counts) <= INT32_MAX ->
  exists result,
    get_vote_percentage voter_counts total_voter_count = Some result /\
    List.Forall2 (fun v p =>
      - total_votes voter_counts < p * total_votes voter_counts - 100 * v /\
      2 * (p * total_votes voter_counts - 100 * v) <= total_votes voter_counts)
      voter_counts result.
Proof.
  intros Hnn [Hpos Htotal] Hmax Hlen. unfold get_vote_percentage.
  rewrite sum_voter_counts_ok by (simpl; try assumption; lia).
  rewrite Z.add_0_l. set (sum := total_votes voter_counts) in *.
  replace (if total_voter_count >? sum then sum else total_voter_count) with sum
    by (destruct (Z.gtb_spec total_voter_count sum); lia).
  replace (sum =? 0) with false by (symmetry; apply Z.eqb_neq; lia).
  rewrite Z.eqb_refl. cbn [negb].
  pose proof (counts_below_total _ Hnn) as Hbelow. fold sum in Hbelow.
  destruct (floor_percent_sum sum voter_counts Hpos Hbelow) as [Hfs Hfnn].
  fold sum in Hfs. pose proof (total_votes_nonneg _ Hfnn) as Hps.
  assert (Hps100 : total_votes (List.map (floor_percent sum) voter_counts) <= 100) by nia.
  rewrite (floor_percentages_ok sum voter_counts 0)
    by (try assumption; unfold INT32_MAX in *; lia).
  rewrite Z.add_0_l.
  replace (0 <=? total_votes (List.map (floor_percent sum) voter_counts)) with true
    by (symmetry; apply Z.leb_le; lia).
  replace (total_votes (List.map (floor_percent sum) voter_counts) <=? 100) with true
    by (symmetry; apply Z.leb_le; lia).
  cbn [andb].
  pose proof (fun f => floor_or_next_close sum f voter_counts Hpos Hbelow) as Hclose.
  destruct (Z.eqb_spec (total_votes (List.map (floor_percent sum) voter_counts)) 100)
    as [H100|Hlt].
  { eexists. split; [reflexivity|]. apply Hclose. intros v _. now left. }
  destruct (build_options_ok voter_counts [] [] Hlen options_of_nil) as (options & Hbuild & Hopts).
  change (Z.of_nat (length (@nil Z))) with 0 in Hbuild.
  simpl in Hopts. rewrite Hbuild.
  set (gap := List.map (gap_of sum) voter_counts).
  set (floors := List.map (floor_percent sum) voter_counts).
  destruct (sorted_options_keys voter_counts gap floors sum options Hopts) as [Hkeys Hkept].
  destruct (distribute_near voter_counts (get_sorted_options gap floors sum options) Hkeys
              (sub32 100 (total_votes floors)) (floor_percent sum)) as (f' & Hres & Hnear).
  { intros v (option & <- & Hin)%in_map_iff. rewrite List.Forall_forall in Hkept.
    destruct (Hkept option Hin) as [_ Hrange].
    apply floor_percent_bounds; [assumption|].
    rewrite List.Forall_forall in Hbelow. now apply Hbelow, at_pos_In. }
  subst floors. rewrite Hres. eexists. split; [reflexivity|]. apply Hclose.
  intros v Hv. destruct (Hnear v) as [Heq|[Heq Hin]]; [now left|right].
  split; [assumption|].
  apply in_map_iff in Hin as (option & <- & Hin). rewrite List.Forall_forall in Hkept.
  destruct (Hkept option Hin) as [Hkeep Hrange].
  unfold is_kept in Hkeep. subst gap.
  rewrite !at_pos_map in Hkeep by assumption.
  destruct (Z.gtb_spec (gap_of sum (at_pos voter_counts (pos option))) (sum ÷ 2))
    as [Hgt|Hle]; [discriminate|].
  rewrite Z.quot_div_nonneg in Hle by lia.
  pose proof (Z.mul_div_le sum 2 ltac:(lia)). lia.
Qed.

End NearExact.

(** ** The invariant of the answer coordinator, end to end *)

Section InvariantFacts.
Variable env : Environment.

Lemma on_set_poll_answer_returns s poll_id generation result :
  pending_answers_waiting s ->
  exists s' events,
    run (on_set_poll_answer env poll_id generation result) s = Some (tt, s', events).
Proof.
  intros Hwait.
  destruct (close_flag env && is_error result) eqn:Hflag.
  { unfold run, on_set_poll_answer. rewrite Hflag. now eexists _, _. }
  destruct (pending_answers_ s !! poll_id) as [pending_answer|] eqn:Hsome.
  2:{ unfold run, on_set_poll_answer. rewrite Hflag.
      unfold mbind, M_bind, gets. rewrite Hsome. now eexists _, _. }
  pose proof (Hwait _ _ Hsome) as Hpromises.
  destruct (Z.eq_dec (generation_ pending_answer) generation) as [<-|Hne].
  - eexists _, _. now apply on_set_poll_answer_run.
  - unfold run, on_set_poll_answer. rewrite Hflag.
    unfold mbind, M_bind, gets. rewrite Hsome. unfold CHECK.
    rewrite bool_decide_eq_false_2 by assumption. cbn [negb].
    replace (generation_ pending_answer =? generation) with false
      by (symmetry; now apply Z.eqb_neq).
    now eexists _, _.
Qed.

(** Every response is handled: in a state that satisfies the invariant of
    the answer coordinator, [on_set_poll_answer] returns for any poll,
    generation and result, and leaves a state that satisfies it. *)
Theorem on_set_poll_answer_keeps_state_ok s poll_id generation result :
  state_ok env s ->
  exists s' events,
    run (on_set_poll_answer env poll_id generation result) s = Some (tt, s', events) /\
    state_ok env s'.
Proof.
  intros Hok.
  destruct (on_set_poll_answer_returns s poll_id generation result (state_ok_waiting env s Hok))
    as (s' & events & Hrun).
  exists s', events. split; [assumption|].
  now apply (on_set_poll_answer_keeps_ok env s poll_id generation result s' events).
Qed.

Lemma do_set_poll_answer_returns s poll_id full_message_id options promise :
  state_ok env s ->
  (forall pending_answer,
     pending_answers_ s !! poll_id = Some pending_answer ->
     query_ref_ pending_answer <> None) ->
  exists s' events,
    run (do_set_poll_answer env poll_id full_message_id options 0 promise) s =
      Some (tt, s', events).
Proof.
  intros (_ & _ & Hall) Hsent.
  destruct (pending_answers_ s !! poll_id) as [pending_answer|] eqn:Hsome.
  - pose proof (Hall _ _ Hsome) as Hok. pose proof Hok as (Hwait & _).
    destruct (decide (options_ pending_answer = options)) as [Hsame|Hdiff].
    + eexists _, _. now apply (do_set_poll_answer_joins env s poll_id full_message_id options 0
                                 promise pending_answer).
    + destruct (query_ref_ pending_answer) as [query|] eqn:Hquery.
      * eexists _, _. now apply (do_set_poll_answer_replaces env s poll_id full_message_id
                                   options promise pending_answer query).
      * now destruct (Hsent _ eq_refl).
  - eexists _, _. now apply do_set_poll_answer_starts.
Qed.

(** Every vote is handled: for a known poll, in a state that satisfies
    the invariant, with room in the generation counter and the request of
    the pending answer of the poll, if any, already sent,
    [set_poll_answer] returns for any selection and leaves a state that
    satisfies the invariant. *)
Theorem set_poll_answer_keeps_state_ok s poll_id full_message_id option_ids promise poll :
  state_ok env s ->
  current_generation_ s + 1 < UINT64_MOD ->
  polls_ s !! poll_id = Some poll ->
  (forall pending_answer,
     pending_answers_ s !! poll_id = Some pending_answer ->
     query_ref_ pending_answer <> None) ->
  exists s' events,
    run (set_poll_answer env poll_id full_message_id option_ids promise) s =
      Some (tt, s', events) /\
    state_ok env s'.
Proof.
  intros Hok Hroom Hpoll Hsent. unfold run, set_poll_answer.
  destruct (1 <? Z.of_nat (length option_ids)).
  { eexists _, _. split; [reflexivity|assumption]. }
  destruct (is_local_poll_id poll_id).
  { eexists _, _. split; [reflexivity|assumption]. }
  unfold mbind at 1, M_bind at 1, get_poll, gets. rewrite Hpoll.
  destruct (is_closed poll).
  { eexists _, _. split; [reflexivity|assumption]. }
  destruct (get_option_data (options poll) option_ids) as [options|].
  2:{ eexists _, _. split; [reflexivity|assumption]. }
  destruct (do_set_poll_answer_returns s poll_id full_message_id options promise Hok Hsent)
    as (s' & events & Hrun).
  exists s', events. split; [exact Hrun|].
  now apply (do_set_poll_answer_keeps_ok env s poll_id full_message_id options promise s'
               events).
Qed.

End InvariantFacts.

(** ** The search text *)

Lemma string_append_assoc (a b c : string) : (a +:+ b) +:+ c = a +:+ (b +:+ c).
Proof.
  induction a as [|x a IH]; [reflexivity|].
  change (String x ((a +:+ b) +:+ c) = String x (a +:+ (b +:+ c))). now f_equal.
Qed.

Lemma search_text_join (poll_options : list PollOption) : forall result,
  fold_left (fun result poll_option => result +:+ " " +:+ text poll_option) poll_options result =
    String.concat " " (result :: List.map text poll_options).
Proof.
  induction poll_options as [|poll_option rest IH]; intros result; [reflexivity|].
  cbn [fold_left List.map]. rewrite IH.
  destruct rest as [|next rest]; [reflexivity|].
  cbn [List.map String.concat]. now rewrite string_append_assoc.
Qed.

(** The search text of a known poll is the question and the texts of the
    options, in order, joined by single spaces; the call changes nothing. *)
Theorem get_poll_search_text_joins s poll_id poll :
  polls_ s !! poll_id = Some poll ->
  run (get_poll_search_text poll_id) s =
    Some (String.concat " " (question poll :: List.map text (options poll)), s, []).
Proof.
  intros Hpoll. unfold run, get_poll_search_text, get_poll. run_manager. rewrite Hpoll.
  now rewrite search_text_join.
Qed.

(** ** Examples *)

Lemma submitting_state_ok chosen : state_ok example_env (submitting_state chosen).
Proof.
  repeat split; try (vm_compute; congruence).
  all: simpl in H; apply lookup_singleton_Some in H as [_ <-]; simpl; try discriminate; lia.
Qed.

Lemma unsent_state_ok : state_ok example_env unsent_state.
Proof.
  repeat split; try (vm_compute; congruence).
  all: simpl in H; apply lookup_singleton_Some in H as [_ <-]; simpl; try discriminate; lia.
Qed.

Lemma do_set_poll_answer_supersedes_witness :
  exists s' events pending_answer',
    run (do_set_poll_answer example_env 5 (10, 20) ["1"] 0 (CallerPromise 2))
        (submitting_state ["0"]) = Some (tt, s', events) /\
    (forall old_promise, In old_promise [CallerPromise 1] ->
       In (PromiseSetValue old_promise) events) /\
    (forall any_promise status, ~ In (PromiseSetError any_promise status) events) /\
    pending_answers_ s' !! 5 = Some pending_answer' /\
    options_ pending_answer' = ["1"] /\
    promises_ pending_answer' = [CallerPromise 2] /\
    1 < generation_ pending_answer' /\
    generation_ pending_answer' = current_generation_ s'.
Proof.
  apply (do_set_poll_answer_supersedes example_env (submitting_state ["0"]) 5 (10, 20) ["1"]
           (CallerPromise 2) (mkPendingAnswer ["0"] [CallerPromise 1] 1 0 (Some 77)) 77).
  - apply submitting_state_ok.
  - vm_compute. reflexivity.
  - reflexivity.
  - reflexivity.
  - discriminate.
Defined.

Lemma on_set_poll_answer_stale_witness :
  run (on_set_poll_answer example_env 5 9 (Ok tt)) (submitting_state ["0"]) =
    Some (tt, submitting_state ["0"], []).
Proof.
  apply (on_set_poll_answer_stale example_env (submitting_state ["0"]) 5 9 (Ok tt)).
  - intros poll_id pending_answer Hsome.
    now destruct (proj2 (proj2 (submitting_state_ok ["0"])) _ _ Hsome).
  - right. exists (mkPendingAnswer ["0"] [CallerPromise 1] 1 0 (Some 77)).
    split; [reflexivity|discriminate].
Defined.

Lemma set_poll_answer_rejects_witness :
  exists status,
    run (set_poll_answer example_env 5 (10, 20) [2] (CallerPromise 1)) (idle_state false) =
      Some (tt, idle_state false, [PromiseSetError (CallerPromise 1) status]).
Proof.
  apply (set_poll_answer_rejects example_env (idle_state false) 5 (10, 20) [2] (CallerPromise 1)).
  - repeat constructor; vm_compute; discriminate.
  - right. right. exists (example_poll false). split; [reflexivity|]. right. split.
    + vm_compute. discriminate.
    + constructor. right. vm_compute. discriminate.
Defined.

Lemma stop_poll_already_closed_witness :
  run (stop_poll example_env 5 (10, 20) (CallerPromise 1)) (idle_state true) =
    Some (tt, idle_state true, [PromiseSetValue (CallerPromise 1)]).
Proof.
  apply (stop_poll_already_closed example_env (idle_state true) 5 (10, 20) (CallerPromise 1)
           (example_poll true)); reflexivity.
Defined.

Lemma on_get_poll_results_rearms_witness :
  (forall status,
     run (on_get_poll_results example_env 85 5 3 (Error status)) (idle_state false) =
       Some (tt, idle_state false, [AddTimeoutIn 5 (get_polling_timeout true 85)])) /\
  (0 < get_polling_timeout true 85)%Q /\
  ((7 # 10) * 60 <= get_polling_timeout true 85)%Q /\
  (get_polling_timeout true 85 <= 60)%Q /\
  (forall updates, 3 <> current_generation_ (idle_state false) ->
     run (on_get_poll_results example_env 85 5 3 (Ok updates)) (idle_state false) =
       Some (tt, idle_state false, [SetTimeoutIn 5 0%Q])).
Proof.
  apply (on_get_poll_results_rearms example_env (idle_state false) 85 5 3 (example_poll false)).
  - reflexivity.
  - reflexivity.
  - lia.
Defined.

Lemma set_poll_answer_empty_selection_witness :
  (exists s' events,
     run (set_poll_answer example_env 5 (10, 20) [] (CallerPromise 2)) (submitting_state ["0"]) =
       Some (tt, s', events) /\
     In (SetPollAnswerActorSend 5 (10, 20) [] 2) events /\
     forall any_promise status, ~ In (PromiseSetError any_promise status) events) /\
  run (set_poll_answer example_env 5 (10, 20) [] (CallerPromise 2)) unsent_state = None.
Proof.
  split.
  - apply (set_poll_answer_empty_selection example_env (submitting_state ["0"]) 5 (10, 20)
             (CallerPromise 2) (example_poll false)).
    + apply submitting_state_ok.
    + reflexivity.
    + reflexivity.
    + reflexivity.
    + intros pending_answer Hsome. simpl in Hsome.
      apply lookup_singleton_Some in Hsome as [_ <-]. split; discriminate.
  - apply (proj2 (proj2 (set_poll_answer_empty_selection example_env unsent_state 5 (10, 20)
                            (CallerPromise 2) (example_poll false)
                            unsent_state_ok eq_refl eq_refl eq_refl))
             (mkPendingAnswer ["0"] [CallerPromise 1] 1 0 None)).
    + reflexivity.
    + discriminate.
    + reflexivity.
Defined.

(** C10, counterexample.  An empty selection is waiting for poll 5 when a
    second empty selection is submitted: the second promise joins the
    first and no event is emitted, so that no request is sent. *)
Lemma set_poll_answer_empty_joins :
  run (set_poll_answer example_env 5 (10, 20) [] (CallerPromise 2)) (submitting_state []) =
    Some (tt,
          mkState {[5 := example_poll false]}
            {[5 := mkPendingAnswer [] [CallerPromise 1; CallerPromise 2] 1 0 (Some 77)]}
            {[5 := [(10, 20)]]} ∅ 0 1 ∅ 0 ∅,
          []).
Proof. vm_compute. reflexivity. Qed.

(** C8, the code at a failing input.  The server sends a new poll with one
    option and results that mark the option as chosen with no voters: the
    count received equals the count stored, the block holding the clamps
    is skipped, and the merged option is chosen with a count of zero. *)
Lemma on_get_poll_chosen_without_voters :
  exists s' events,
    run (on_get_poll example_env 85 1 (Some (mkServerPoll 1 0 "Q" [mkPollAnswer "A" "a"]))
           (mkPollResults 6 [mkPollAnswerVoters 1 "a" 0] 1)) initial_state =
      Some (1, s', events) /\
    polls_ s' !! 1 = Some (mkPoll "Q" [mkPollOption "A" "a" 0 true] 1 false).
Proof. eexists _, _. split; vm_compute; reflexivity. Qed.

(** The same block is skipped when the server lowers the total and repeats
    the stored count of an option: the count then exceeds the total. *)
Lemma on_get_poll_count_above_total :
  exists s' events,
    run (on_get_poll example_env 85 5 None (mkPollResults 6 [mkPollAnswerVoters 0 "1" 4] 3))
        (idle_state false) = Some (5, s', events) /\
    polls_ s' !! 5 =
      Some (mkPoll "Tea or coffee?"
              [mkPollOption "Tea" "0" 3 false; mkPollOption "Coffee" "1" 4 false] 3 false).
Proof. eexists _, _. split; vm_compute; reflexivity. Qed.

(** The two examples of the specification, under either library. *)
Example get_vote_percentage_exact :
  get_vote_percentage (lib := insertion_order_library) [10; 10; 5] 25 = Some [40; 40; 20] /\
  get_vote_percentage (lib := reverse_order_library) [10; 10; 5] 25 = Some [40; 40; 20].
Proof. split; reflexivity. Qed.

Example get_vote_percentage_thirds :
  get_vote_percentage (lib := insertion_order_library) [1; 1; 1] 3 = Some [33; 33; 33] /\
  get_vote_percentage (lib := reverse_order_library) [1; 1; 1] 3 = Some [33; 33; 33].
Proof. split; reflexivity. Qed.

(** A count that does not fit the running sum fails the [CHECK] of line 320. *)
Example get_vote_percentage_overflow :
  get_vote_percentage (lib := insertion_order_library) [2147483647; 1] 0 = None.
Proof. reflexivity. Qed.

(** Stopping the open poll 5: the generation moves on, the poll is closed,
    its message is notified and the request is handed to the actor. *)
Example stop_poll_open :
  run (stop_poll example_env 5 (10, 20) (CallerPromise 1)) (idle_state false) =
    Some (tt,
          mkState {[5 := example_poll true]} ∅ {[5 := [(10, 20)]]} ∅ 0 1 ∅ 0 ∅,
          [OnUpdateMessageContent (10, 20);
           StopPollActorSend (10, 20) (EraseLogeventPromise 0 (CallerPromise 1))]).
Proof. vm_compute. reflexivity. Qed.

(** The response of the current generation resolves the waiting promise and
    removes the pending answer. *)
Example on_set_poll_answer_current :
  run (on_set_poll_answer example_env 5 1 (Ok tt)) (submitting_state ["0"]) =
    Some (tt, idle_state_after_answer, [PromiseSetValue (CallerPromise 1)]).
Proof. vm_compute. reflexivity. Qed.

(** ** Further examples *)

Lemma logged_state_ok : state_ok database_env logged_state.
Proof.
  repeat split; try (vm_compute; congruence).
  all: simpl in H; apply lookup_singleton_Some in H as [_ <-]; simpl; try discriminate; lia.
Qed.

Lemma example_poll_bounded closed : poll_bounded (example_poll closed).
Proof. split; [repeat constructor; vm_compute; discriminate|vm_compute; split; discriminate]. Qed.

Lemma on_set_poll_answer_resolves_witness :
  exists s',
    run (on_set_poll_answer example_env 5 1 (Ok tt)) (submitting_state ["0"]) =
      Some (tt, s', [PromiseSetValue (CallerPromise 1)]) /\
    pending_answers_ s' = delete 5 (pending_answers_ (submitting_state ["0"])).
Proof.
  destruct (on_set_poll_answer_resolves example_env (submitting_state ["0"]) 5 (Ok tt)
              (mkPendingAnswer ["0"] [CallerPromise 1] 1 0 (Some 77))) as [_ Hresolves].
  - reflexivity.
  - discriminate.
  - destruct Hresolves as (s' & Hrun & Hpending & _); [reflexivity|].
    exists s'. split; assumption.
Defined.

Lemma set_poll_answer_submits_witness :
  exists s',
    run (set_poll_answer example_env 5 (10, 20) [1] (CallerPromise 1)) (idle_state false) =
      Some (tt, s',
            [OnUpdateMessageContent (10, 20); SetPollAnswerActorSend 5 (10, 20) ["1"] 1]) /\
    pending_answers_ s' =
      <[5 := mkPendingAnswer ["1"] [CallerPromise 1] 1 0 None]> ∅.
Proof.
  destruct (set_poll_answer_submits example_env (idle_state false) 5 (10, 20) 1
              (CallerPromise 1) (example_poll false) (mkPollOption "Coffee" "1" 4 false))
    as (s' & Hrun & Hpending & _).
  - reflexivity.
  - reflexivity.
  - reflexivity.
  - vm_compute. split; discriminate.
  - reflexivity.
  - reflexivity.
  - exists s'. split; assumption.
Defined.

Lemma do_set_poll_answer_rewrites_log_witness :
  exists s' events pending_answer',
    run (do_set_poll_answer database_env 5 (10, 20) ["1"] 0 (CallerPromise 2)) logged_state =
      Some (tt, s', events) /\
    binlog_last_id_ s' = 1 /\
    binlog_ s' = <[1 := SetPollAnswerLogEvent 5 (10, 20) ["1"]]> (binlog_ logged_state) /\
    pending_answers_ s' !! 5 = Some pending_answer' /\
    logevent_id_ pending_answer' = 1.
Proof.
  apply (do_set_poll_answer_rewrites_log database_env logged_state 5 (10, 20) ["1"]
           (CallerPromise 2) (mkPendingAnswer ["0"] [CallerPromise 1] 1 1 (Some 77)) 77).
  - reflexivity.
  - apply (proj2 (proj2 logged_state_ok) 5). reflexivity.
  - reflexivity.
  - discriminate.
Defined.

Lemma do_set_poll_answer_shares_result_witness :
  exists s1 s2,
    run (do_set_poll_answer example_env 5 (10, 20) ["0"] 0 (CallerPromise 2))
        (submitting_state ["0"]) = Some (tt, s1, []) /\
    current_generation_ s1 = 1 /\
    binlog_ s1 = ∅ /\
    run (on_set_poll_answer example_env 5 1 (Ok tt)) s1 =
      Some (tt, s2, [PromiseSetValue (CallerPromise 1); PromiseSetValue (CallerPromise 2)]) /\
    pending_answers_ s2 !! 5 = None.
Proof.
  apply (do_set_poll_answer_shares_result example_env (submitting_state ["0"]) 5 (10, 20)
           (CallerPromise 2) (Ok tt) (mkPendingAnswer ["0"] [CallerPromise 1] 1 0 (Some 77))).
  - reflexivity.
  - discriminate.
  - reflexivity.
Defined.

Lemma stop_poll_closes_witness :
  exists s',
    run (stop_poll database_env 5 (10, 20) (CallerPromise 1)) (idle_state false) =
      Some (tt, s',
            [OnUpdateMessageContent (10, 20);
             StopPollActorSend (10, 20) (EraseLogeventPromise 1 (CallerPromise 1))]) /\
    polls_ s' = <[5 := example_poll true]> (polls_ (idle_state false)) /\
    current_generation_ s' = 1.
Proof.
  destruct (stop_poll_closes database_env (idle_state false) 5 (10, 20) (CallerPromise 1)
              (example_poll false)) as (s' & Hrun & Hpolls & Hgen & _).
  - reflexivity.
  - reflexivity.
  - reflexivity.
  - exists s'. repeat split; assumption.
Defined.

Lemma stop_poll_local_witness :
  run (stop_poll example_env (-1) (10, 20) (CallerPromise 1)) draft_state =
    Some (tt,
          set_polls (fun polls => <[-1 := example_poll true]> polls) draft_state,
          [OnUpdateMessageContent (10, 20); PromiseSetValue (CallerPromise 1)]).
Proof.
  apply (stop_poll_local example_env draft_state (-1) (10, 20) (CallerPromise 1)
           (example_poll false)); reflexivity.
Defined.

Lemma get_poll_force_remembers_miss_witness :
  exists s',
    run (get_poll_force database_env 5) initial_state = Some (None, s', []) /\
    polls_ s' = ∅ /\
    forall s2,
      polls_ s2 = polls_ s' ->
      loaded_from_database_polls_ s2 = loaded_from_database_polls_ s' ->
      run (get_poll_force database_env 5) s2 = Some (None, s2, []).
Proof.
  apply (get_poll_force_remembers_miss database_env initial_state 5).
  - reflexivity.
  - reflexivity.
  - apply not_elem_of_empty.
  - reflexivity.
Defined.

Lemma save_poll_writes_own_key_witness :
  exists s1,
    run (save_poll database_env (example_poll true) 5) logged_state = Some (tt, s1, []) /\
    database_ s1 !! get_poll_database_key 5 = Some (example_poll true) /\
    (forall other, other <> 5 ->
       database_ s1 !! get_poll_database_key other =
       database_ logged_state !! get_poll_database_key other) /\
    polls_ s1 = polls_ logged_state /\
    pending_answers_ s1 = pending_answers_ logged_state /\
    binlog_ s1 = binlog_ logged_state.
Proof.
  apply (save_poll_writes_own_key database_env logged_state (example_poll true) 5);
    reflexivity.
Defined.

Lemma merge_poll_keeps_counts_bounded_witness :
  let merged :=
    (merge_poll (example_poll false) None
       (mkPollResults 4 [mkPollAnswerVoters 1 "1" 2000000000] 2000000000)).1 in
  poll_bounded merged /\
  sum_voter_counts (List.map voter_count (options merged)) 0 =
    Some (total_votes (List.map voter_count (options merged))).
Proof.
  apply (merge_poll_keeps_counts_bounded (example_poll false) None
           (mkPollResults 4 [mkPollAnswerVoters 1 "1" 2000000000] 2000000000)).
  - apply example_poll_bounded.
  - split; [discriminate|]. split; [vm_compute; discriminate|].
    repeat constructor. vm_compute. discriminate.
Defined.

Lemma merge_poll_min_keeps_chosen_witness :
  let merged :=
    (merge_poll (example_poll false) None (mkPollResults 1 [mkPollAnswerVoters 1 "1" 9] 0)).1 in
  List.map is_chosen (options merged) = [false; false] /\
  List.map text (options merged) = ["Tea"; "Coffee"] /\
  List.map data (options merged) = ["0"; "1"] /\
  question merged = "Tea or coffee?" /\ is_closed merged = false.
Proof.
  apply (merge_poll_min_keeps_chosen (example_poll false)
           (mkPollResults 1 [mkPollAnswerVoters 1 "1" 9] 0)).
  vm_compute. discriminate.
Defined.

Lemma merge_poll_unknown_results_witness :
  merge_poll (example_poll false) None (mkPollResults 0 [mkPollAnswerVoters 1 "7" 9] 0) =
    (example_poll false, false).
Proof.
  apply (merge_poll_unknown_results (example_poll false)
           (mkPollResults 0 [mkPollAnswerVoters 1 "7" 9] 0)).
  - reflexivity.
  - repeat constructor; discriminate.
Defined.

Lemma get_poll_object_hides_counts_witness :
  exists object,
    run (get_poll_object (lib := insertion_order_library) 5) (submitting_state ["1"]) =
      Some (object, submitting_state ["1"], []) /\
    List.map td_api.text_ (td_api.options_ object) = ["Tea"; "Coffee"] /\
    List.map td_api.voter_count_ (td_api.options_ object) = [0; 0] /\
    List.map td_api.vote_percentage_ (td_api.options_ object) = [0; 0] /\
    List.map td_api.is_being_chosen_ (td_api.options_ object) = [false; true].
Proof.
  destruct (get_poll_object_hides_counts (lib := insertion_order_library)
              (submitting_state ["1"]) 5 (example_poll false))
    as (object & Hrun & _ & _ & Htext & Hhidden & Hbeing).
  - reflexivity.
  - reflexivity.
  - left. eexists. reflexivity.
  - exists object. split; [exact Hrun|]. split; [exact Htext|].
    destruct (td_api.options_ object) as [|first [|second [|third rest]]]; try discriminate.
    inversion Hhidden as [|? ? (Hcount1 & Hpercent1 & _) Hrest]; subst.
    inversion Hrest as [|? ? (Hcount2 & Hpercent2 & _) _]; subst.
    cbn [List.map]. rewrite Hcount1, Hcount2, Hpercent1, Hpercent2.
    repeat split. exact Hbeing.
Defined.

Lemma get_poll_object_shows_results_witness :
  exists object,
    run (get_poll_object (lib := insertion_order_library) 5) (idle_state true) =
      Some (object, idle_state true, []) /\
    List.map td_api.text_ (td_api.options_ object) = ["Tea"; "Coffee"] /\
    List.map td_api.voter_count_ (td_api.options_ object) = [3; 4] /\
    List.Forall (fun o => 0 <= td_api.vote_percentage_ o <= 100 /\
                          td_api.voter_count_ o <= td_api.total_voter_count_ object)
      (td_api.options_ object).
Proof.
  destruct (get_poll_object_shows_results (lib := insertion_order_library)
              (laws := insertion_order_laws) (idle_state true) 5 (example_poll true))
    as (object & Hrun & Htext & _ & Hcounts & Hrange & _).
  - reflexivity.
  - reflexivity.
  - apply example_poll_bounded.
  - exists object. repeat split; assumption.
Defined.

Lemma idle_state_bounded closed : polls_bounded (idle_state closed).
Proof.
  split.
  - intros poll_id poll Hpoll. simpl in Hpoll.
    apply lookup_singleton_Some in Hpoll as [_ <-]. apply example_poll_bounded.
  - intros key poll Hkey. simpl in Hkey. now rewrite lookup_empty in Hkey.
Qed.

Lemma on_get_poll_frame_witness :
  exists merged s' events,
    run (on_get_poll example_env 85 5 None
           (mkPollResults 4 [mkPollAnswerVoters 1 "1" 9] 12)) (idle_state false) =
      Some (merged, s', events) /\
    is_local_poll_id merged = false /\
    (forall other, other <> merged ->
       polls_ s' !! other = polls_ (idle_state false) !! other) /\
    (merged = 0 -> polls_ s' = polls_ (idle_state false)) /\
    pending_answers_ s' = pending_answers_ (idle_state false) /\
    current_generation_ s' = current_generation_ (idle_state false) /\
    binlog_ s' = binlog_ (idle_state false) /\
    poll_messages_ s' = poll_messages_ (idle_state false) /\
    List.Forall is_display_event events.
Proof.
  apply (on_get_poll_frame example_env (idle_state false) 85 5 None
           (mkPollResults 4 [mkPollAnswerVoters 1 "1" 9] 12)).
  - apply idle_state_bounded.
  - split; [discriminate|]. split; [vm_compute; discriminate|].
    repeat constructor. vm_compute. discriminate.
Defined.

Lemma on_get_poll_keeps_polls_bounded_witness :
  exists merged s' events,
    run (on_get_poll database_env 85 5 None
           (mkPollResults 4 [mkPollAnswerVoters 1 "1" 2000000000] 2000000000))
        (idle_state false) = Some (merged, s', events) /\
    polls_bounded s' /\
    (merged <> 0 -> exists poll, polls_ s' !! merged = Some poll /\ poll_bounded poll).
Proof.
  apply (on_get_poll_keeps_polls_bounded database_env (idle_state false) 85 5 None
           (mkPollResults 4 [mkPollAnswerVoters 1 "1" 2000000000] 2000000000)).
  - split.
    + intros poll_id poll Hpoll. simpl in Hpoll.
      apply lookup_singleton_Some in Hpoll as [_ <-]. apply example_poll_bounded.
    + intros key poll Hkey. simpl in Hkey. now rewrite lookup_empty in Hkey.
  - split; [discriminate|]. split; [vm_compute; discriminate|].
    repeat constructor. vm_compute. discriminate.
Defined.

Lemma create_poll_fresh_witness :
  exists s' poll,
    run (create_poll 127 "Tea or coffee?" ["Tea"; "Coffee"]) draft_state = Some (-2, s', []) /\
    is_local_poll_id (-2) = true /\
    polls_ s' = <[-2 := poll]> (polls_ draft_state) /\
    current_local_poll_id_ s' = -2 /\
    question poll = "Tea or coffee?" /\
    List.map text (options poll) = ["Tea"; "Coffee"] /\
    NoDup (List.map data (options poll)) /\
    List.Forall (fun o => voter_count o = 0 /\ is_chosen o = false) (options poll) /\
    total_voter_count poll = 0 /\ is_closed poll = false.
Proof.
  apply (create_poll_fresh 127 draft_state "Tea or coffee?" ["Tea"; "Coffee"]).
  - lia.
  - simpl. lia.
  - vm_compute. split; [reflexivity|discriminate].
  - reflexivity.
Defined.

Lemma create_poll_too_many_options_witness :
  run (create_poll 1 "Q" ["a"; "b"; "c"]) initial_state = None.
Proof.
  apply (create_poll_too_many_options 1 initial_state "Q" ["a"; "b"; "c"]).
  - lia.
  - simpl. lia.
Defined.

Lemma register_poll_notifies_witness :
  exists s' messages,
    run (register_poll example_env (set_lib := append_set_library) 5 (10, 21))
        (idle_state false) = Some (tt, s', [AddTimeoutIn 5 0%Q]) /\
    poll_messages_ s' !! 5 = Some messages /\
    Permutation messages [(10, 21); (10, 20)] /\
    (forall other, other <> 5 ->
       poll_messages_ s' !! other = poll_messages_ (idle_state false) !! other) /\
    polls_ s' = polls_ (idle_state false) /\
    run (notify_on_poll_update 5) s' =
      Some (tt, s', List.map OnUpdateMessageContent messages).
Proof.
  apply (register_poll_notifies example_env (set_lib := append_set_library)
           (set_laws := append_set_laws) (idle_state false) 5 (10, 21) (example_poll false)).
  - reflexivity.
  - intros [[=]|Hin%elem_of_nil]%elem_of_cons. exact Hin.
Defined.

Lemma unregister_poll_undoes_register_witness :
  exists s1 events1 s2,
    run (register_poll example_env (set_lib := append_set_library) 5 (10, 21))
        (idle_state false) = Some (tt, s1, events1) /\
    run (unregister_poll 5 (10, 21)) s1 = Some (tt, s2, []) /\
    (forall other,
       Permutation (default [] (poll_messages_ s2 !! other))
                   (default [] (poll_messages_ (idle_state false) !! other))) /\
    (default [] (poll_messages_ (idle_state false) !! 5) = [] ->
     poll_messages_ s2 !! 5 = None) /\
    polls_ s2 = polls_ (idle_state false).
Proof.
  apply (unregister_poll_undoes_register example_env (set_lib := append_set_library)
           (set_laws := append_set_laws) (idle_state false) 5 (10, 21) (example_poll false)).
  - reflexivity.
  - intros [[=]|Hin%elem_of_nil]%elem_of_cons. exact Hin.
Defined.

Lemma idle_state_messages_nonempty closed : poll_messages_nonempty (idle_state closed).
Proof.
  intros poll_id messages Hmessages. simpl in Hmessages.
  apply lookup_singleton_Some in Hmessages as [_ <-]. discriminate.
Qed.

Lemma registration_keeps_messages_nonempty_witness :
  exists s' events,
    run (unregister_poll 5 (10, 20)) (idle_state false) =
      Some (tt, s', events) /\
    poll_messages_nonempty s'.
Proof.
  apply (registration_keeps_messages_nonempty example_env (set_lib := append_set_library)
           (set_laws := append_set_laws) (idle_state false) 5 (10, 20) (example_poll false)).
  - apply idle_state_messages_nonempty.
  - reflexivity.
  - left.
Defined.

Lemma on_update_poll_timeout_fetches_witness :
  exists calls,
    on_update_poll_timeout example_env 5 (idle_state false) = Some calls /\
    (forall messages, poll_messages_ (idle_state false) !! 5 = Some messages ->
       exists full_message_id,
         full_message_id ∈ messages /\
         calls = [GetPollResultsQuerySend 5 full_message_id 0]) /\
    (forall random updates full_message_id options promise,
     exists s1 events1,
       run (do_set_poll_answer example_env 5 full_message_id options 0 promise)
           (idle_state false) = Some (tt, s1, events1) /\
       run (on_get_poll_results example_env random 5 0 (Ok updates)) s1 =
         Some (tt, s1, [SetTimeoutIn 5 0%Q])).
Proof.
  destruct (on_update_poll_timeout_fetches example_env (idle_state false) 5
              (example_poll false)) as (calls & Hcalls & _ & Hquery & _ & Hdropped).
  - reflexivity.
  - reflexivity.
  - reflexivity.
  - apply idle_state_messages_nonempty.
  - vm_compute. split; [discriminate|reflexivity].
  - exists calls. split; [exact Hcalls|]. split.
    + apply Hquery. reflexivity.
    + apply Hdropped; reflexivity.
Defined.

Lemma on_binlog_events_resends_witness :
  (exists s',
     on_binlog_events database_env
       [mkBinlogEvent 1 SetPollAnswer (SetPollAnswerLogEvent 5 (10, 20) ["0"])]
       (idle_state false) =
       Some (s',
             [AddDialogDependencies 10; ResolveDependenciesForce;
              ManagerEvent (OnUpdateMessageContent (10, 20));
              ManagerEvent (SetPollAnswerActorSend 5 (10, 20) ["0"] 1)]) /\
     pending_answers_ s' !! 5 = Some (mkPendingAnswer ["0"] [AutoPromise] 1 1 None) /\
     binlog_ s' = binlog_ (idle_state false)) /\
  on_binlog_events database_env [mkBinlogEvent 1 StopPoll (StopPollLogEvent 5 (10, 20))]
    (idle_state true) =
    Some (idle_state true,
          [AddDialogDependencies 10; ResolveDependenciesForce;
           ManagerEvent (StopPollActorSend (10, 20) (EraseLogeventPromise 1 AutoPromise))]).
Proof.
  split.
  - destruct (on_binlog_events_resends database_env (idle_state false) 1 5 (10, 20) ["0"])
      as [Hvote _]; [reflexivity|discriminate|].
    destruct Hvote as (s' & Hreplay & Hpending & Hbinlog & _); [reflexivity|].
    exists s'. repeat split; assumption.
  - apply (on_binlog_events_resends database_env (idle_state true) 1 5 (10, 20) []);
      [reflexivity|discriminate].
Defined.

Lemma on_binlog_events_erases_witness :
  exists s',
    on_binlog_events example_env
      [mkBinlogEvent 1 SetPollAnswer (SetPollAnswerLogEvent 5 (10, 20) ["0"]);
       mkBinlogEvent 2 StopPoll (StopPollLogEvent 5 (10, 20))] logged_state = Some (s', []) /\
    (forall id, binlog_ s' !! id =
                if bool_decide (id ∈ [1; 2]) then None else binlog_ logged_state !! id) /\
    polls_ s' = polls_ logged_state /\
    pending_answers_ s' = pending_answers_ logged_state /\
    current_generation_ s' = current_generation_ logged_state.
Proof.
  apply (on_binlog_events_erases example_env
           [mkBinlogEvent 1 SetPollAnswer (SetPollAnswerLogEvent 5 (10, 20) ["0"]);
            mkBinlogEvent 2 StopPoll (StopPollLogEvent 5 (10, 20))] logged_state).
  - reflexivity.
  - constructor; [left; reflexivity|]. constructor; [right; reflexivity|]. constructor.
Defined.

Lemma on_binlog_events_unsupported_witness :
  on_binlog_events database_env
    [mkBinlogEvent 1 StopPoll (StopPollLogEvent 5 (10, 20));
     mkBinlogEvent 2 (OtherHandler 9) (StopPollLogEvent 5 (10, 20))] (idle_state true) = None.
Proof.
  apply (on_binlog_events_unsupported database_env
           [mkBinlogEvent 1 StopPoll (StopPollLogEvent 5 (10, 20));
            mkBinlogEvent 2 (OtherHandler 9) (StopPollLogEvent 5 (10, 20))]
           (mkBinlogEvent 2 (OtherHandler 9) (StopPollLogEvent 5 (10, 20))) 9 (idle_state true)).
  - right. left. reflexivity.
  - reflexivity.
Defined.

Lemma get_input_media_round_trip_witness :
  exists media,
    run (get_input_media 5) (idle_state false) = Some (media, idle_state false, []) /\
    question_ media = "Tea or coffee?" /\
    List.map text (get_poll_options (answers_ media)) = ["Tea"; "Coffee"] /\
    List.map data (get_poll_options (answers_ media)) = ["0"; "1"] /\
    List.Forall (fun o => voter_count o = 0 /\ is_chosen o = false)
      (get_poll_options (answers_ media)).
Proof.
  apply (get_input_media_round_trip (idle_state false) 5 (example_poll false)).
  reflexivity.
Defined.

Lemma get_vote_percentage_near_exact_witness :
  exists result,
    get_vote_percentage (lib := insertion_order_library) [2; 1; 1; 1; 1; 1] 7 = Some result /\
    List.Forall2 (fun v p =>
      - total_votes [2; 1; 1; 1; 1; 1] < p * total_votes [2; 1; 1; 1; 1; 1] - 100 * v /\
      2 * (p * total_votes [2; 1; 1; 1; 1; 1] - 100 * v) <= total_votes [2; 1; 1; 1; 1; 1])
      [2; 1; 1; 1; 1; 1] result.
Proof.
  apply (get_vote_percentage_near_exact (lib := insertion_order_library)
           (laws := insertion_order_laws) [2; 1; 1; 1; 1; 1] 7).
  - repeat constructor; discriminate.
  - vm_compute. split; [reflexivity|discriminate].
  - vm_compute. discriminate.
  - vm_compute. discriminate.
Defined.

Lemma get_polling_timeout_range_witness :
  ((7 # 10) * 60 <= get_polling_timeout true 85)%Q /\
  (get_polling_timeout true 85 <= 60)%Q.
Proof. apply (get_polling_timeout_range true 85). lia. Defined.

Lemma on_set_poll_answer_keeps_state_ok_witness :
  exists s' events,
    run (on_set_poll_answer database_env 5 1 (Error (mkStatus 500 "Timeout"))) logged_state =
      Some (tt, s', events) /\
    state_ok database_env s'.
Proof.
  apply (on_set_poll_answer_keeps_state_ok database_env logged_state 5 1
           (Error (mkStatus 500 "Timeout"))).
  apply logged_state_ok.
Defined.

Lemma set_poll_answer_keeps_state_ok_witness :
  exists s' events,
    run (set_poll_answer database_env 5 (10, 20) [1] (CallerPromise 2)) logged_state =
      Some (tt, s', events) /\
    state_ok database_env s'.
Proof.
  apply (set_poll_answer_keeps_state_ok database_env logged_state 5 (10, 20) [1]
           (CallerPromise 2) (example_poll false)).
  - apply logged_state_ok.
  - vm_compute. reflexivity.
  - reflexivity.
  - intros pending_answer Hpending. simpl in Hpending.
    apply lookup_singleton_Some in Hpending as [_ <-]. discriminate.
Defined.

Lemma get_poll_search_text_joins_witness :
  run (get_poll_search_text 5) (idle_state false) =
    Some ("Tea or coffee? Tea Coffee", idle_state false, []).
Proof.
  apply (get_poll_search_text_joins (idle_state false) 5 (example_poll false)). reflexivity.
Defined.
